(** * hubproxy-node: a shallow embedding of the proxy core

    The development follows the source files:
    - [utils/cache.js]            the bounded TTL map ([Cache]);
    - [middleware/ratelimiter.js] CIDR parsing, /64 aggregation, the token
                                  bucket and its periodic cleanup;
    - [middleware/accessControl.js] the wildcard patterns and the allow and
                                  deny lists;
    - [routes/docker.js]          Registry path classification, tokens,
                                  upstream URL and [WWW-Authenticate]
                                  rewriting;
    - [routes/github.js]          the URL patterns and the handler, the
                                  redirect walk, content gating and the
                                  install-script rewrite.

    JavaScript strings are modelled as [string]; a character stands for one
    code unit in the range 0..255 (the range Node uses for request lines and
    header values).  Integers are [Z]; a numeric result that may be [NaN] is
    an [option Z] with [None] for [NaN].  The token count of the rate
    limiter is written twice: as the binary64 number of the source
    ([RateLimiter64], on the primitive floats and their specification
    [SpecFloat]), and as an exact rational ([RateLimiter]), which is the
    same count wherever the operations of the source are exact and is what
    the analysis of bursts and of the bucket table counts with. *)

From Stdlib Require Import List Bool Arith ZArith QArith Qminmax Lia Lqa.
From Stdlib Require Import Strings.String Strings.Ascii.
From Stdlib Require Import Floats.
From Stdlib Require Uint63.
From Equations Require Import Equations.
Import ListNotations.

Local Open Scope string_scope.
Local Open Scope Z_scope.

(* ===================================================================== *)
(** * Part I: definitions                                                 *)
(* ===================================================================== *)

(** ** JavaScript string and number primitives used by the source *)

Module Js.

Definition code (c : ascii) : Z := Z.of_N (N_of_ascii c).

(** The double quote, and the string made of it. *)
Definition quote : ascii := "034"%char.
Definition dq : string := String quote EmptyString.

(** [LineTerminator] of the regular-expression grammar: what [.] does not
    match (the code units 10 and 13 of this range). *)
Definition isLineTerminator (c : ascii) : bool :=
  (code c =? 10) || (code c =? 13).

(** [WhiteSpace] and [LineTerminator], the class [\s] and the characters
    removed by [trim] and skipped by [parseInt]. *)
Definition isWhiteSpace (c : ascii) : bool :=
  ((9 <=? code c) && (code c <=? 13)) || (code c =? 32) || (code c =? 160).

(** [p] is a prefix of [s]. *)
Fixpoint isPrefix (p s : string) : bool :=
  match p, s with
  | EmptyString, _ => true
  | String c p', String d s' => Ascii.eqb c d && isPrefix p' s'
  | String _ _, EmptyString => false
  end.

(** [s.startsWith(p)] *)
Definition startsWith (s p : string) : bool := isPrefix p s.

(** [s.slice(n)] for [0 <= n] *)
Fixpoint drop (n : nat) (s : string) : string :=
  match n, s with
  | O, _ => s
  | S n', String _ s' => drop n' s'
  | S _, EmptyString => EmptyString
  end.

(** [s.endsWith(p)] *)
Definition endsWith (s p : string) : bool :=
  (String.length p <=? String.length s)%nat &&
  String.eqb (drop (String.length s - String.length p) s) p.

(** [s.includes(p)] *)
Fixpoint includes (s p : string) : bool :=
  isPrefix p s ||
  match s with
  | EmptyString => false
  | String _ s' => includes s' p
  end.

(** [s.split(sep)] for a separator of one character; the result is never
    empty ([''.split(':')] is [['']]). *)
Fixpoint split (s : string) (sep : ascii) : list string :=
  match s with
  | EmptyString => [EmptyString]
  | String c s' =>
      if Ascii.eqb c sep then EmptyString :: split s' sep
      else match split s' sep with
           | h :: t => String c h :: t
           | [] => [String c EmptyString]
           end
  end.

(** [parts.join(sep)] *)
Fixpoint join (parts : list string) (sep : string) : string :=
  match parts with
  | [] => EmptyString
  | [p] => p
  | p :: rest => p ++ sep ++ join rest sep
  end.

Fixpoint trimStart (s : string) : string :=
  match s with
  | String c s' => if isWhiteSpace c then trimStart s' else s
  | EmptyString => EmptyString
  end.

Fixpoint rev (s : string) : string :=
  match s with
  | EmptyString => EmptyString
  | String c s' => rev s' ++ String c EmptyString
  end.

(** [s.trim()] *)
Definition trim (s : string) : string := rev (trimStart (rev (trimStart s))).

(** [s.toLowerCase()] on the code units 0..255: the letters A-Z and the
    accented capitals 192..222 (215, the multiplication sign, excepted)
    move up by 32. *)
Definition lowerChar (c : ascii) : ascii :=
  let n := code c in
  if ((65 <=? n) && (n <=? 90)) ||
     ((192 <=? n) && (n <=? 222) && negb (n =? 215))
  then ascii_of_N (Z.to_N (n + 32)) else c.

Fixpoint toLowerCase (s : string) : string :=
  match s with
  | EmptyString => EmptyString
  | String c s' => String (lowerChar c) (toLowerCase s')
  end.

(** The value of a digit in the given radix, as [parseInt] reads it. *)
Definition digitOf (radix : Z) (c : ascii) : option Z :=
  let n := code c in
  let d := if (48 <=? n) && (n <=? 57) then n - 48
           else if (97 <=? n) && (n <=? 122) then n - 87
           else if (65 <=? n) && (n <=? 90) then n - 55
           else radix in
  if d <? radix then Some d else None.

Fixpoint takeDigits (radix : Z) (s : string) : list Z :=
  match s with
  | EmptyString => []
  | String c s' =>
      match digitOf radix c with
      | Some d => d :: takeDigits radix s'
      | None => []
      end
  end.

Definition digitsValue (radix : Z) (ds : list Z) : Z :=
  List.fold_left (fun acc d => acc * radix + d) ds 0.

(** [parseInt(s, radix)] for radix 10 and 16; [None] is [NaN].  Leading
    white space is skipped, a sign is read, for radix 16 a prefix [0x] or
    [0X] is dropped, and the longest run of digits is the value.  The value
    is the exact integer: JavaScript rounds it to a double from 2^53 on, so
    the model is the source's for digit runs below that bound. *)
Definition parseInt (s : string) (radix : Z) : option Z :=
  let s1 := trimStart s in
  let '(sign, s2) :=
    match s1 with
    | String "-"%char r => (-1, r)
    | String "+"%char r => (1, r)
    | _ => (1, s1)
    end in
  let s3 :=
    if (radix =? 16) && (isPrefix "0x" s2 || isPrefix "0X" s2)
    then drop 2 s2 else s2 in
  match takeDigits radix s3 with
  | [] => None
  | ds => Some (sign * digitsValue radix ds)
  end.

(** [ToUint8], the conversion applied by [new Uint8Array(array)] and by a
    store into a [Uint8Array]. *)
Definition toUint8 (v : option Z) : Z :=
  match v with
  | None => 0
  | Some z => z mod 256
  end.

(** [ToInt32] as used by the bit operators: [NaN] becomes 0. *)
Definition toInt (v : option Z) : Z :=
  match v with
  | None => 0
  | Some z => z
  end.

Definition hexDigit (d : Z) : ascii :=
  if d <? 10 then ascii_of_N (Z.to_N (48 + d))
  else ascii_of_N (Z.to_N (87 + d)).

Fixpoint toHexFuel (fuel : nat) (n : Z) (acc : string) : string :=
  match fuel with
  | O => acc
  | S fuel' =>
      let acc' := String (hexDigit (n mod 16)) acc in
      if n / 16 =? 0 then acc' else toHexFuel fuel' (n / 16) acc'
  end.

(** [n.toString(16)] for an integer [0 <= n]. *)
Definition toString16 (n : Z) : string :=
  toHexFuel (S (Z.to_nat (Z.log2 n))) n EmptyString.

(** [array.indexOf('')] *)
Fixpoint indexOfEmpty (parts : list string) : option nat :=
  match parts with
  | [] => None
  | p :: rest =>
      if String.eqb p EmptyString then Some O
      else option_map S (indexOfEmpty rest)
  end.

(** The truthiness of an optional string: a missing header ([undefined])
    and the empty string are both falsy. *)
Definition truthy (s : option string) : option string :=
  match s with
  | Some EmptyString => None
  | other => other
  end.

(** [a || b] on optional strings *)
Definition orElse (a b : option string) : option string :=
  match truthy a with
  | Some x => Some x
  | None => b
  end.

(** [s.slice(0, n)] for [0 <= n] *)
Fixpoint take (n : nat) (s : string) : string :=
  match n, s with
  | S n', String c s' => String c (take n' s')
  | _, _ => EmptyString
  end.

End Js.

(** ** An insertion-ordered map, the JavaScript [Map] with string keys *)

Module JsMap.
Section WithValues.
Context {E : Type}.

Definition t := list (string * E).

(** [Map.prototype.get] *)
Fixpoint get (m : t) (k : string) : option E :=
match m with
| [] => None
| (k', e) :: m' => if String.eqb k k' then Some e else get m' k
end.

Definition has (m : t) (k : string) : bool :=
match get m k with Some _ => true | None => false end.

(** [Map.prototype.set]: an existing key keeps its position in the
  iteration order, a new key goes to the end. *)
Fixpoint set (m : t) (k : string) (e : E) : t :=
match m with
| [] => [(k, e)]
| (k', e') :: m' =>
    if String.eqb k k' then (k', e) :: m' else (k', e') :: set m' k e
end.

(** [Map.prototype.delete] *)
Fixpoint delete (m : t) (k : string) : t :=
match m with
| [] => []
| (k', e') :: m' =>
    if String.eqb k k' then m' else (k', e') :: delete m' k
end.

(** [map.size] *)
Definition size (m : t) : Z := Z.of_nat (List.length m).

(** [map.keys().next().value]: [None] stands for [undefined]. *)
Definition firstKey (m : t) : option string :=
match m with
| [] => None
| (k, _) :: _ => Some k
end.

Definition keys (m : t) : list string := List.map fst m.

(** Keys of a [Map] are pairwise distinct. *)
Definition wf (m : t) : Prop := NoDup (keys m).
End WithValues.
Arguments t : clear implicits.
End JsMap.

(** ** [utils/cache.js] *)

Module Cache.
Section WithValues.
Variable V : Type.

Record entry := mkEntry { value : V; expiresAt : Z }.

Record t := mkCache {
data : JsMap.t entry;
maxSize : Z;
defaultTTL : Z
}.

(** [constructor(maxSize, defaultTTL)] *)
Definition new (maxSize defaultTTL : Z) : t :=
mkCache [] maxSize defaultTTL.

Definition with_data (c : t) (d : JsMap.t entry) : t :=
mkCache d (maxSize c) (defaultTTL c).

Definition expired (now : Z) (e : entry) : bool := expiresAt e <? now.

(** [get(key)]: [None] is the [null] of a miss; [now] is the reading of
  [Date.now()]. *)
Definition get (c : t) (now : Z) (key : string) : option V * t :=
match JsMap.get (data c) key with
| None => (None, c)
| Some e =>
    if expired now e
    then (None, with_data c (JsMap.delete (data c) key))
    else (Some (value e), c)
end.

(** [cleanup()] *)
Definition cleanup (c : t) (now : Z) : t :=
with_data c (List.filter (fun kv => negb (expired now (snd kv))) (data c)).

(** The eviction step of [set]: [delete(keys().next().value)]. *)
Definition evictFirst (c : t) : t :=
match JsMap.firstKey (data c) with
| None => c
| Some k => with_data c (JsMap.delete (data c) k)
end.

(** [set(key, value, ttl = this.defaultTTL)].  [nowC] is the clock read by
  [cleanup], [nowI] the later reading used for [expiresAt]. *)
Definition set (c : t) (nowC nowI : Z) (key : string) (v : V)
  (ttl : option Z) : t :=
let ttl := match ttl with Some x => x | None => defaultTTL c end in
let c1 := if JsMap.size (data c) >=? maxSize c then cleanup c nowC else c in
let c2 := if JsMap.size (data c1) >=? maxSize c1 then evictFirst c1 else c1 in
with_data c2 (JsMap.set (data c2) key (mkEntry v (nowI + ttl))).

(** [delete(key)] *)
Definition delete (c : t) (key : string) : t :=
with_data c (JsMap.delete (data c) key).

(** [clear()] *)
Definition clear (c : t) : t := with_data c [].

(** [get size()] *)
Definition size (c : t) : Z := JsMap.size (data c).

(** One call on a cache, with the clock readings it makes. *)
Inductive op :=
| OpGet (now : Z) (key : string)
| OpSet (nowC nowI : Z) (key : string) (v : V) (ttl : option Z)
| OpDelete (key : string)
| OpClear.

Definition step (c : t) (o : op) : t :=
match o with
| OpGet now key => snd (get c now key)
| OpSet nowC nowI key v ttl => set c nowC nowI key v ttl
| OpDelete key => delete c key
| OpClear => clear c
end.

Definition run (c : t) (ops : list op) : t := List.fold_left step ops c.

(** The description of [set] in the specification: "if at capacity, purge
  expired entries; if still at capacity, evict the earliest-inserted
  entry.  Then insert with [expiresAt = now + ttl]".  An entry list is
  kept in insertion order, so the earliest-inserted entry is its head. *)
Definition atCapacity (c : t) : bool := JsMap.size (data c) =? maxSize c.

Definition purgeExpired (now : Z) (d : JsMap.t entry) : JsMap.t entry :=
List.filter (fun kv => now <=? expiresAt (snd kv)) d.

Definition set_spec (c : t) (nowC nowI : Z) (key : string) (v : V)
  (ttl : Z) : t :=
let d1 := if atCapacity c then purgeExpired nowC (data c) else data c in
let d2 := if Z.of_nat (List.length d1) =? maxSize c then List.tl d1 else d1 in
with_data c (JsMap.set d2 key (mkEntry v (nowI + ttl))).
End WithValues.
Arguments mkEntry {V}.
Arguments value {V}.
Arguments expiresAt {V}.
Arguments mkCache {V}.
Arguments data {V}.
Arguments maxSize {V}.
Arguments defaultTTL {V}.
Arguments new {V}.
Arguments with_data {V}.
Arguments expired {V}.
Arguments get {V}.
Arguments cleanup {V}.
Arguments evictFirst {V}.
Arguments set {V}.
Arguments delete {V}.
Arguments clear {V}.
Arguments size {V}.
Arguments OpGet {V}.
Arguments OpSet {V}.
Arguments OpDelete {V}.
Arguments OpClear {V}.
Arguments step {V}.
Arguments run {V}.
Arguments atCapacity {V}.
Arguments purgeExpired {V}.
Arguments set_spec {V}.
End Cache.

(** ** [middleware/ratelimiter.js] *)

Module RateLimiter.

(** A computation that may throw: [None] is a thrown exception. *)
Definition throws (A : Type) := option A.

(** [parseIPv4(ip)]: [new Uint8Array(ip.split('.').map(p => parseInt(p, 10)))] *)
Definition parseIPv4 (ip : string) : list Z :=
  List.map (fun p => Js.toUint8 (Js.parseInt p 10)) (Js.split ip ".").

Definition nonEmpty (p : string) : bool := negb (String.eqb p EmptyString).

(** The expansion of [::] in [parseIPv6].  [Array(missing)] throws a
    [RangeError] for a negative length. *)
Definition expandParts (parts : list string) : throws (list string) :=
  match Js.indexOfEmpty parts with
  | None => Some parts
  | Some emptyIdx =>
      let before := List.filter nonEmpty (List.firstn emptyIdx parts) in
      let after := List.filter nonEmpty (List.skipn (S emptyIdx) parts) in
      let missing :=
        8 - Z.of_nat (List.length before) - Z.of_nat (List.length after) in
      if missing <? 0 then None
      else Some (before ++ List.repeat "0" (Z.to_nat missing) ++ after)%list
  end.

(** [parts[i] || '0'] *)
Definition partOrZero (parts : list string) (i : nat) : string :=
  match Js.truthy (List.nth_error parts i) with
  | Some p => p
  | None => "0"
  end.

(** The two bytes stored for group [i]:
    [(val >> 8) & 0xff] and [val & 0xff]. *)
Definition groupBytes (parts : list string) (i : nat) : list Z :=
  let val := Js.toInt (Js.parseInt (partOrZero parts i) 16) in
  [Z.land (Z.shiftr val 8) 255; Z.land val 255].

(** [parseIPv6(ip)]: always 16 bytes when it returns. *)
Definition parseIPv6 (ip : string) : throws (list Z) :=
  match expandParts (Js.split ip ":") with
  | None => None
  | Some parts => Some (List.flat_map (groupBytes parts) (List.seq 0 8))
  end.

Record cidr := mkCidr {
  bytes : list Z;
  prefix : option Z;   (* [None] is [NaN] *)
  isIPv6 : bool
}.

(** [parseCIDR(cidr)] *)
Definition parseCIDR (c : string) : throws cidr :=
  let '(ip, prefix) :=
    if Js.includes c "/" then
      let parts := Js.split c "/" in
      (List.nth 0 parts EmptyString,
       Js.parseInt (List.nth 1 parts EmptyString) 10)
    else (c, Some (if Js.includes c ":" then 128 else 32)) in
  let isIPv6 := Js.includes ip ":" in
  match (if isIPv6 then parseIPv6 ip else Some (parseIPv4 ip)) with
  | None => None
  | Some bytes => Some (mkCidr bytes prefix isIPv6)
  end.

(** [Math.min(8, Math.max(0, prefix - i * 8))]; [None] is [NaN]. *)
Definition bitsInThisByte (prefix : option Z) (i : Z) : option Z :=
  match prefix with
  | None => None
  | Some p => Some (Z.min 8 (Z.max 0 (p - i * 8)))
  end.

(** [(0xff << (8 - bitsInThisByte)) & 0xff]; a [NaN] shift count is 0. *)
Definition maskOf (bits : option Z) : Z :=
  match bits with
  | None => 255
  | Some b => Z.land (Z.shiftl 255 (8 - b)) 255
  end.

(** [bytes[i]] read through a bit operator: out of range is [undefined],
    which [&] reads as 0. *)
Definition byteAt (bs : list Z) (i : nat) : Z := List.nth i bs 0.

(** The loop of [isIPInCIDR], from index [i], over the remaining indices
    [i .. fullBytes - 1] (there are [n] of them). *)
Fixpoint compareFrom (ipBytes cidrBytes : list Z) (prefix : option Z)
    (i n : nat) : bool :=
  match n with
  | O => true
  | S n' =>
      let bits := bitsInThisByte prefix (Z.of_nat i) in
      match bits with
      | Some 0 => true
      | _ =>
          let mask := maskOf bits in
          if Z.land (byteAt ipBytes i) mask =? Z.land (byteAt cidrBytes i) mask
          then compareFrom ipBytes cidrBytes prefix (S i) n'
          else false
      end
  end.

(** [isIPInCIDR(ip, cidr)]; the [catch] turns a thrown exception into
    [false]. *)
Definition isIPInCIDR (ip c : string) : bool :=
  let isIPv6 := Js.includes ip ":" in
  match (if isIPv6 then parseIPv6 ip else Some (parseIPv4 ip)) with
  | None => false
  | Some ipBytes =>
      match parseCIDR c with
      | None => false
      | Some cidrParsed =>
          if negb (Bool.eqb isIPv6 (RateLimiter.isIPv6 cidrParsed)) then false
          else compareFrom ipBytes (bytes cidrParsed) (prefix cidrParsed)
                 0 (List.length (bytes cidrParsed))
      end
  end.

(** [isIPInList(ip, list)] *)
Fixpoint isIPInList (ip : string) (list : list string) : bool :=
  match list with
  | [] => false
  | item :: rest =>
      let c := if Js.includes item "/" then item
               else if Js.includes ip ":" then item ++ "/128"
               else item ++ "/32" in
      if isIPInCIDR ip c then true else isIPInList ip rest
  end.

(** The part of a request the limiter reads. *)
Record request := mkRequest {
  path : string;
  xForwardedFor : option string;
  xRealIP : option string;
  remoteAddress : option string;   (* [req.socket?.remoteAddress] *)
  reqIp : option string            (* [req.ip] *)
}.

(** [extractIP(req)] *)
Definition extractIP (req : request) : string :=
  match Js.truthy (xForwardedFor req) with
  | Some forwarded => Js.trim (List.nth 0 (Js.split forwarded ",") EmptyString)
  | None =>
      match Js.truthy (xRealIP req) with
      | Some realIP => Js.trim realIP
      | None =>
          let ip := match Js.orElse (remoteAddress req) (reqIp req) with
                    | Some x => x
                    | None => EmptyString
                    end in
          if Js.startsWith ip "::ffff:" then Js.drop 7 ip else ip
      end
  end.

(** [ip.replace(/^\[|\]$/g, '')] *)
Definition stripBrackets (ip : string) : string :=
  let s := match ip with
           | String "["%char r => r
           | _ => ip
           end in
  match Js.rev s with
  | String "]"%char r => Js.rev r
  | _ => s
  end.

(** The groups pushed by [normalizeIP]:
    [((bytes[i] << 8) | bytes[i + 1]).toString(16)] for [i = 0, 2, .., 14]. *)
Fixpoint groupsOf (bs : list Z) : list string :=
  match bs with
  | hi :: lo :: rest =>
      Js.toString16 (Z.lor (Z.shiftl hi 8) lo) :: groupsOf rest
  | _ => []
  end.

(** [normalizeIP(ip)]; it has no [try], so an exception of [parseIPv6]
    propagates. *)
Definition normalizeIP (ip : string) : throws string :=
  if negb (Js.includes ip ":") then Some ip
  else
    match parseIPv6 ip with
    | None => None
    | Some bytes =>
        let bytes := (List.firstn 8 bytes ++ List.repeat 0 8)%list in
        Some (Js.join (groupsOf bytes) ":" ++ "/64")
    end.

(** A bucket of [ipRecords], with the exact token count. *)
Record record := mkRecord {
  tokens : Q;
  lastRefill : Z;
  lastAccess : Z
}.

(** [config.rateLimit] and [config.security] *)
Record config := mkConfig {
  requestLimit : Q;
  periodHours : Q;
  whiteList : list string;
  blackList : list string
}.

(** [periodHours * 3600 * 1000] *)
Definition periodMs (cfg : config) : Q := (periodHours cfg * 3600 * 1000)%Q.

(** What the middleware does with the request: [next()] or a response
    with the given status. *)
Inductive decision :=
| Next
| Respond (status : Z).

(** The paths that are never metered. *)
Definition exempt (path : string) : bool :=
  String.eqb path "/" || String.eqb path "/favicon.ico" ||
  String.eqb path "/images.html" || String.eqb path "/search.html" ||
  Js.startsWith path "/public/".

(** The refill of the token bucket:
    [Math.min(requestLimit, record.tokens + (elapsed / periodMs) * requestLimit)].
    Here the count is an exact rational: the count of the source where
    its operations are exact (whole counts and no time elapsed, as in a
    burst), without the rounding of binary64 elsewhere and without its
    [NaN] and infinities (a rational divided by zero is zero).
    [RateLimiter64.refill] is the same line on binary64. *)
Definition refill (cfg : config) (r : record) (now : Z) : Q :=
  let elapsed := inject_Z (now - lastRefill r) in
  let refillAmount := (elapsed / periodMs cfg * requestLimit cfg)%Q in
  Qmin (requestLimit cfg) (tokens r + refillAmount)%Q.

(** [record.tokens < 1] *)
Definition lessThanOne (q : Q) : bool := negb (Qle_bool 1 q).

(** The token-bucket part of the middleware for the bucket key
    [normalizedIP]: fetch or create the record, refill, then consume one
    token or answer 429.  The record is a shared object, so the map sees
    every field update. *)
Definition bucketStep (cfg : config) (ipRecords : JsMap.t record)
    (normalizedIP : string) (now : Z) : decision * JsMap.t record :=
  let r := match JsMap.get ipRecords normalizedIP with
           | Some r => r
           | None => mkRecord (requestLimit cfg) now now
           end in
  let refilled := refill cfg r now in
  if lessThanOne refilled
  then (Respond 429, JsMap.set ipRecords normalizedIP (mkRecord refilled now now))
  else (Next, JsMap.set ipRecords normalizedIP (mkRecord (refilled - 1)%Q now now)).

(** The middleware returned by [createRateLimiter()], at clock reading
    [now]. *)
Definition rateLimiter (cfg : config) (req : request) (now : Z)
    (ipRecords : JsMap.t record) : throws (decision * JsMap.t record) :=
  if exempt (path req) then Some (Next, ipRecords)
  else
    let ip := extractIP req in
    let cleanIP := stripBrackets ip in
    if isIPInList cleanIP (blackList cfg) then Some (Respond 403, ipRecords)
    else if isIPInList cleanIP (whiteList cfg) then Some (Next, ipRecords)
    else
      match normalizeIP cleanIP with
      | None => None
      | Some normalizedIP => Some (bucketStep cfg ipRecords normalizedIP now)
      end.

Definition CLEANUP_INTERVAL : Z := 20 * 60 * 1000.
Definition MAX_IP_CACHE_SIZE : Z := 10000.

(** The callback of [setInterval], run at clock reading [now]: records not
    accessed for more than two hours are deleted, and a table still larger
    than [MAX_IP_CACHE_SIZE] is cleared. *)
Definition janitor (now : Z) (ipRecords : JsMap.t record) : JsMap.t record :=
  let kept :=
    List.filter
      (fun kv => negb (2 * 3600 * 1000 <? now - lastAccess (snd kv)))
      ipRecords in
  if MAX_IP_CACHE_SIZE <? JsMap.size kept then [] else kept.

End RateLimiter.

(** ** The token bucket of [createRateLimiter] on binary64 *)

Module RateLimiter64.

(** The number that holds the integer [z]; it holds it exactly for
    [|z| < 2^53], the range of the clock readings. *)
Definition number (z : Z) : float :=
  if z <? 0 then (- of_uint63 (Uint63.of_Z (- z)))%float
  else of_uint63 (Uint63.of_Z z).

(** [Math.min(x, y)]: [NaN] when one of the two is, and the negative zero
    below the positive one. *)
Definition mathMin (x y : float) : float :=
  if is_nan x || is_nan y then nan
  else if (x <? y)%float then x
  else if (y <? x)%float then y
  else if get_sign x then x else y.

(** A bucket of [ipRecords]. *)
Record record := mkRecord {
  tokens : float;
  lastRefill : Z;
  lastAccess : Z
}.

(** [config.rateLimit] and [config.security] *)
Record config := mkConfig {
  requestLimit : float;
  periodHours : float;
  whiteList : list string;
  blackList : list string
}.

(** [periodHours * 3600 * 1000] *)
Definition periodMs (cfg : config) : float :=
  (periodHours cfg * 3600 * 1000)%float.

(** [Math.min(requestLimit, record.tokens + (elapsed / periodMs) * requestLimit)] *)
Definition refill (cfg : config) (r : record) (now : Z) : float :=
  let elapsed := number (now - lastRefill r) in
  let refillAmount := (elapsed / periodMs cfg * requestLimit cfg)%float in
  mathMin (requestLimit cfg) (tokens r + refillAmount)%float.

(** The token-bucket part of the middleware for the bucket key
    [normalizedIP]. *)
Definition bucketStep (cfg : config) (ipRecords : JsMap.t record)
    (normalizedIP : string) (now : Z)
    : RateLimiter.decision * JsMap.t record :=
  let r := match JsMap.get ipRecords normalizedIP with
           | Some r => r
           | None => mkRecord (requestLimit cfg) now now
           end in
  let refilled := refill cfg r now in
  if (refilled <? 1)%float
  then (RateLimiter.Respond 429,
        JsMap.set ipRecords normalizedIP (mkRecord refilled now now))
  else (RateLimiter.Next,
        JsMap.set ipRecords normalizedIP (mkRecord (refilled - 1)%float now now)).

(** The middleware returned by [createRateLimiter()], at clock reading
    [now]. *)
Definition rateLimiter (cfg : config) (req : RateLimiter.request) (now : Z)
    (ipRecords : JsMap.t record)
    : RateLimiter.throws (RateLimiter.decision * JsMap.t record) :=
  if RateLimiter.exempt (RateLimiter.path req) then Some (RateLimiter.Next, ipRecords)
  else
    let ip := RateLimiter.extractIP req in
    let cleanIP := RateLimiter.stripBrackets ip in
    if RateLimiter.isIPInList cleanIP (blackList cfg)
    then Some (RateLimiter.Respond 403, ipRecords)
    else if RateLimiter.isIPInList cleanIP (whiteList cfg)
    then Some (RateLimiter.Next, ipRecords)
    else
      match RateLimiter.normalizeIP cleanIP with
      | None => None
      | Some normalizedIP => Some (bucketStep cfg ipRecords normalizedIP now)
      end.

End RateLimiter64.

(** ** Requests and responses as the two proxies see them *)

Module Http.

(** Header lists: for an upstream response the names are those of
    [response.headers.entries()], lower-cased and pairwise distinct. *)
Definition headers := list (string * string).

(** [headers.get(name)]: [None] is [null]. *)
Fixpoint get (hs : headers) (name : string) : option string :=
  match hs with
  | [] => None
  | (k, v) :: rest => if String.eqb k name then Some v else get rest name
  end.

(** An upstream response as returned by [fetch]. *)
Record response := mkResponse {
  status : Z;
  respHeaders : headers;
  body : string
}.

(** The part of the client request the handlers read. *)
Record request := mkRequest {
  method : string;
  path : string;
  accept : option string;            (* [req.headers.accept] *)
  host : option string;              (* [req.headers.host] *)
  xForwardedHost : option string;    (* [req.headers['x-forwarded-host']] *)
  xForwardedProto : option string;   (* [req.headers['x-forwarded-proto']] *)
  otherHeaders : headers             (* the remaining request headers *)
}.

(** [array.includes(s)] *)
Definition inList (s : string) (l : list string) : bool :=
  List.existsb (String.eqb s) l.

(** [delete obj[name]] *)
Definition remove (hs : headers) (name : string) : headers :=
  List.filter (fun kv => negb (String.eqb (fst kv) name)) hs.

(** The own property [name] of an object is created or overwritten. *)
Fixpoint putOwn (hs : headers) (name value : string) : headers :=
  match hs with
  | [] => [(name, value)]
  | (k, v) :: rest =>
      if String.eqb k name then (k, value) :: rest
      else (k, v) :: putOwn rest name value
  end.

(** [obj[name] = value] on a plain object used as a header bag, for a
    string [value].  The name [__proto__] reaches the setter inherited from
    [Object.prototype], which ignores a value that is not an object: the
    bag gets no property and stays as it is. *)
Definition put (hs : headers) (name value : string) : headers :=
  if String.eqb name "__proto__" then hs else putOwn hs name value.

(** The loop that copies the response headers whose lower-cased name is
    not in [skip]. *)
Definition copyExcept (skip : list string) (hs : headers) : headers :=
  List.fold_left
    (fun acc kv =>
       if inList (Js.toLowerCase (fst kv)) skip then acc
       else put acc (fst kv) (snd kv))
    hs [].

End Http.

(** ** [middleware/accessControl.js] *)

Module AccessControl.

(** The canonical form of a character under the flag [i]. *)
Definition upperChar (c : ascii) : ascii :=
  let n := Js.code c in
  if ((97 <=? n) && (n <=? 122)) ||
     ((224 <=? n) && (n <=? 254) && negb (n =? 247))
  then ascii_of_N (Z.to_N (n - 32)) else c.

Definition sameLetter (c d : ascii) : bool :=
  Ascii.eqb (upperChar c) (upperChar d).

(** [wildcardMatch(pattern, str)]: the pattern is escaped, [*] becomes
    [.*] and [?] becomes [.], and the result is matched anchored and
    case-insensitively; [.] does not match a line terminator. *)
Fixpoint wildcardMatch (pattern str : string) : bool :=
  match pattern with
  | EmptyString => String.eqb str EmptyString
  | String "*"%char p' =>
      (fix star (s : string) : bool :=
         wildcardMatch p' s ||
         match s with
         | EmptyString => false
         | String c s' => negb (Js.isLineTerminator c) && star s'
         end) str
  | String "?"%char p' =>
      match str with
      | EmptyString => false
      | String c s' => negb (Js.isLineTerminator c) && wildcardMatch p' s'
      end
  | String a p' =>
      match str with
      | EmptyString => false
      | String c s' => sameLetter a c && wildcardMatch p' s'
      end
  end.

(** [matchesPattern(repoPath, patterns)] *)
Definition matchesPattern (repoPath : string) (patterns : list string)
    : bool :=
  List.existsb (fun pattern => wildcardMatch pattern repoPath) patterns.

Inductive verdict :=
| Allowed
| NotInWhiteList
| InBlackList.

(** [checkDockerAccess(imageName)] *)
Definition checkDockerAccess (whiteList blackList : list string)
    (imageName : string) : verdict :=
  if (0 <? Z.of_nat (List.length whiteList)) &&
     negb (matchesPattern imageName whiteList)
  then NotInWhiteList
  else if (0 <? Z.of_nat (List.length blackList)) &&
          matchesPattern imageName blackList
  then InBlackList
  else Allowed.

(** [repoName.replace(/\.git$/, '')] *)
Definition stripGit (repoName : string) : string :=
  if Js.endsWith repoName ".git"
  then Js.take (String.length repoName - 4) repoName
  else repoName.

(** [checkGitHubAccess(username, repoName)] *)
Definition checkGitHubAccess (whiteList blackList : list string)
    (username repoName : string) : verdict :=
  let cleanRepoName := stripGit repoName in
  let repoPath := username ++ "/" ++ cleanRepoName in
  if (0 <? Z.of_nat (List.length whiteList)) &&
     negb (matchesPattern repoPath whiteList)
  then NotInWhiteList
  else if (0 <? Z.of_nat (List.length blackList)) &&
          matchesPattern repoPath blackList
  then InBlackList
  else Allowed.

End AccessControl.

(** ** [routes/docker.js] *)

Module Docker.

Definition DOCKER_HUB_REGISTRY : string := "registry-1.docker.io".
Definition DOCKER_HUB_AUTH : string := "auth.docker.io".

(** An entry of [config.registries]. *)
Record mapping := mkMapping {
  upstream : string;
  authHost : string;
  authType : string;
  enabled : bool
}.

(** [config.registries], in the order of [Object.keys], and
    [config.access]. *)
Record config := mkConfig {
  registries : list (string * mapping);
  whiteList : list string;
  blackList : list string
}.

(** The registries of [defaultConfig]. *)
Definition defaultRegistries : list (string * mapping) :=
  [ ("ghcr.io", mkMapping "ghcr.io" "ghcr.io/token" "github" true);
    ("gcr.io", mkMapping "gcr.io" "gcr.io/v2/token" "google" true);
    ("quay.io", mkMapping "quay.io" "quay.io/v2/auth" "quay" true);
    ("registry.k8s.io",
     mkMapping "registry.k8s.io" "registry.k8s.io" "anonymous" true) ].

Definition defaultConfig : config := mkConfig defaultRegistries [] [].

(** [detectRegistryDomain(path)] over the keys [domains].  The pattern
    [^/?domain/] is built from the key as it is.  For a key made of
    characters that stand for themselves in a pattern and of dots (a dot of
    the pattern meets the dot of the prefix that [startsWith] has just
    found), the replacement removes that prefix, which is what is written
    here.  A key with another character of the pattern language ([a+b],
    say) is outside this definition: what is proved of the text behind the
    registry name assumes [plainKeys]. *)
Fixpoint detectIn (domains : list string) (path : string)
    : option string * string :=
  match domains with
  | [] => (None, path)
  | domain :: rest =>
      if Js.startsWith path ("/" ++ domain ++ "/")
      then (Some domain, Js.drop (String.length domain + 2) path)
      else if Js.startsWith path (domain ++ "/")
      then (Some domain, Js.drop (String.length domain + 1) path)
      else detectIn rest path
  end.

Definition detectRegistryDomain (cfg : config) (path : string)
    : option string * string :=
  detectIn (List.map fst (registries cfg)) path.

(** [getRegistryMapping(domain)] *)
Fixpoint lookupMapping (rs : list (string * mapping)) (domain : string)
    : option mapping :=
  match rs with
  | [] => None
  | (d, m) :: rest =>
      if String.eqb domain d then Some m else lookupMapping rest domain
  end.

Definition getRegistryMapping (cfg : config) (domain : string)
    : option mapping :=
  lookupMapping (registries cfg) domain.

Inductive apiType := Manifests | Blobs | Tags | Base.

Record parsedPath := mkParsed {
  imageName : string;
  api : apiType;
  reference : string;
  registryDomain : option string
}.

Fixpoint noLineTerminator (s : string) : bool :=
  match s with
  | EmptyString => true
  | String c s' => negb (Js.isLineTerminator c) && noLineTerminator s'
  end.

(** [(.+)$]: the rest of the input, not empty and free of line
    terminators. *)
Definition restOfLine (s : string) : bool :=
  negb (String.eqb s EmptyString) && noLineTerminator s.

(** A match of [^(.+?)SEP TAIL$]: the lazy group takes the shortest
    non-empty prefix (of characters that [.] matches) which is followed by
    [sep] and by a tail accepted by [tailOk].  [started] tells whether the
    group already holds a character. *)
Fixpoint lazyMatch (sep : string) (tailOk : string -> bool)
    (started : bool) (s : string) : option (string * string) :=
  let here :=
    if started && Js.isPrefix sep s &&
       tailOk (Js.drop (String.length sep) s)
    then Some (EmptyString, Js.drop (String.length sep) s) else None in
  match here with
  | Some r => Some r
  | None =>
      match s with
      | EmptyString => None
      | String c s' =>
          if Js.isLineTerminator c then None
          else match lazyMatch sep tailOk true s' with
               | Some (g, tail) => Some (String c g, tail)
               | None => None
               end
      end
  end.

(** [path.replace(/^\/v2\/?/, '')] *)
Definition stripV2 (path : string) : string :=
  if Js.startsWith path "/v2/" then Js.drop 4 path
  else if Js.startsWith path "/v2" then Js.drop 3 path
  else path.

(** [parseRegistryPath(path)] *)
Definition parseRegistryPath (cfg : config) (path : string) : parsedPath :=
  let cleanPath := stripV2 path in
  let '(domain, remaining) := detectRegistryDomain cfg cleanPath in
  let cleanPath :=
    match Js.truthy domain with Some _ => remaining | None => cleanPath end in
  match lazyMatch "/manifests/" restOfLine false cleanPath with
  | Some (name, ref) => mkParsed name Manifests ref domain
  | None =>
      match lazyMatch "/blobs/" restOfLine false cleanPath with
      | Some (name, ref) => mkParsed name Blobs ref domain
      | None =>
          match lazyMatch "/tags/list"
                  (fun t => String.eqb t EmptyString) false cleanPath with
          | Some (name, _) => mkParsed name Tags EmptyString domain
          | None => mkParsed cleanPath Base EmptyString domain
          end
      end
  end.

(** [buildUpstreamURL(registryDomain, imageName, apiType, reference)] *)
Definition buildUpstreamURL (cfg : config) (registryDomain : option string)
    (imageName : string) (api : apiType) (reference : string) : string :=
  let upstream :=
    match Js.truthy registryDomain with
    | Some d =>
        match getRegistryMapping cfg d with
        | Some m => upstream m
        | None => DOCKER_HUB_REGISTRY
        end
    | None => DOCKER_HUB_REGISTRY
    end in
  let imageName :=
    match Js.truthy registryDomain with
    | None => if negb (Js.includes imageName "/")
              then "library/" ++ imageName else imageName
    | Some _ => imageName
    end in
  let url := "https://" ++ upstream ++ "/v2/" ++ imageName in
  match api with
  | Manifests => url ++ "/manifests/" ++ reference
  | Blobs => url ++ "/blobs/" ++ reference
  | Tags => url ++ "/tags/list"
  | Base => url
  end.

(** The scope computed by [proxyDockerRegistry]. *)
Definition scopeOf (registryDomain : option string) (imageName : string)
    : string :=
  "repository:" ++
  match Js.truthy registryDomain with
  | Some _ => imageName
  | None => if Js.includes imageName "/" then imageName
            else "library/" ++ imageName
  end ++ ":pull".

(** [encodeURIComponent(s)] on the code units 0..255: letters, digits and
    [-_.!~*'()] stay, any other character becomes the [%XX] escapes of its
    UTF-8 bytes. *)
Definition upperHex (d : Z) : ascii :=
  if d <? 10 then ascii_of_N (Z.to_N (48 + d))
  else ascii_of_N (Z.to_N (55 + d)).

Definition percent (b : Z) : string :=
  String "%" (String (upperHex (b / 16)) (String (upperHex (b mod 16)) "")).

Definition unreserved (c : ascii) : bool :=
  let n := Js.code c in
  ((48 <=? n) && (n <=? 57)) || ((65 <=? n) && (n <=? 90)) ||
  ((97 <=? n) && (n <=? 122)) ||
  Http.inList (String c "") ["-"; "_"; "."; "!"; "~"; "*"; "'"; "("; ")"].

Fixpoint encodeURIComponent (s : string) : string :=
  match s with
  | EmptyString => EmptyString
  | String c s' =>
      let n := Js.code c in
      (if unreserved c then String c ""
       else if n <? 128 then percent n
       else percent (192 + n / 64) ++ percent (128 + n mod 64))
      ++ encodeURIComponent s'
  end.

(** The cache key and the token URL of [getAuthToken(scope, registryDomain)];
    [None] for the URL is the [anonymous] dialect, which asks for no token. *)
Definition cacheKey (scope : string) (registryDomain : option string)
    : string :=
  "token:" ++
  match Js.truthy registryDomain with Some d => d | None => "docker" end ++
  ":" ++ scope.

Definition hubAuthURL (scope : string) : string :=
  "https://" ++ DOCKER_HUB_AUTH ++
  "/token?service=registry.docker.io&scope=" ++ encodeURIComponent scope.

Definition authURL (cfg : config) (scope : string)
    (registryDomain : option string) : option string :=
  let mapping :=
    match Js.truthy registryDomain with
    | Some d => getRegistryMapping cfg d
    | None => None
    end in
  match mapping with
  | Some m =>
      if String.eqb (authType m) "github"
      then Some ("https://ghcr.io/token?scope=" ++ encodeURIComponent scope)
      else if String.eqb (authType m) "google"
      then Some ("https://gcr.io/v2/token?scope=" ++ encodeURIComponent scope)
      else if String.eqb (authType m) "quay"
      then Some ("https://quay.io/v2/auth?scope=" ++ encodeURIComponent scope)
      else if String.eqb (authType m) "anonymous"
      then None
      else Some ("https://" ++ authHost m ++ "?scope=" ++
                 encodeURIComponent scope)
  | None => Some (hubAuthURL scope)
  end.

(** What the handler does to the outside, in order. *)
Inductive event :=
| GetAuthToken (scope : string) (registryDomain : option string)
| FetchToken (url : string)
| FetchUpstream (url : string) (method : string) (hs : Http.headers).

(** The answer written to the client. *)
Inductive reply :=
| JsonEmpty                                     (* [res.json({})] *)
| InvalidPath                                   (* 400 *)
| Denied (why : AccessControl.verdict)          (* 403 *)
| ServerError                                   (* 500 *)
| Proxied (status : Z) (hs : Http.headers) (body : string).

(** The clock readings of one request: the one of [tokenCache.get] and
    the two of [tokenCache.set]. *)
Record clock := mkClock { tGet : Z; tCleanup : Z; tInsert : Z }.

Section Handler.
(** The token service: the token found in the JSON body of a successful
    answer to [fetch(authUrl)], [None] when the call fails, answers
    with an error status or carries no token. *)
Variable fetchToken : string -> option string.

(** The upstream registry: [None] when [fetch] throws. *)
Variable fetch : string -> string -> Http.headers -> option Http.response.

(** [getAuthToken(scope, registryDomain)] *)
Definition getAuthToken (cfg : config) (cache : Cache.t string)
    (clk : clock) (scope : string) (registryDomain : option string)
    : list event * option string * Cache.t string :=
  let key := cacheKey scope registryDomain in
  let '(cached, cache1) := Cache.get cache (tGet clk) key in
  match Js.truthy cached with
  | Some token => ([], Some token, cache1)
  | None =>
      match authURL cfg scope registryDomain with
      | None => ([], None, cache1)
      | Some url =>
          match Js.truthy (fetchToken url) with
          | Some token =>
              ([FetchToken url], Some token,
               Cache.set cache1 (tCleanup clk) (tInsert clk) key token
                 (Some (15 * 60 * 1000)))
          | None => ([FetchToken url], None, cache1)
          end
      end
  end.

(** The value of [replacement] patterns in [String.prototype.replace]
    for a pattern without capture groups. *)
Fixpoint expandReplacement (tpl matched before after : string) : string :=
  match tpl with
  | EmptyString => EmptyString
  | String "$"%char (String "$"%char r) =>
      "$" ++ expandReplacement r matched before after
  | String "$"%char (String "&"%char r) =>
      matched ++ expandReplacement r matched before after
  | String "$"%char (String "`"%char r) =>
      before ++ expandReplacement r matched before after
  | String "$"%char (String "'"%char r) =>
      after ++ expandReplacement r matched before after
  | String c r => String c (expandReplacement r matched before after)
  end.

(** The run of characters other than the double quote at the head of
    [s], and what follows it. *)
Fixpoint unquotedRun (s : string) : string * string :=
  match s with
  | EmptyString => (EmptyString, EmptyString)
  | String c s' =>
      if Ascii.eqb c Js.quote then (EmptyString, s)
      else let '(run, rest) := unquotedRun s' in (String c run, rest)
  end.

(** The opening of a realm argument: [realm=] and a double quote. *)
Definition realmOpen : string := "realm=" ++ Js.dq.

(** A match of the pattern [realm=Q[^Q]+Q] (Q the double quote) at the
    head of [s]: the matched text and what follows it. *)
Definition realmAt (s : string) : option (string * string) :=
  if Js.isPrefix realmOpen s then
    let '(run, rest) := unquotedRun (Js.drop 7 s) in
    match run, rest with
    | String _ _, String _ after =>
        Some (realmOpen ++ run ++ Js.dq, after)
    | _, _ => None
    end
  else None.

(** [s.replace(pattern, tpl)] for the realm pattern: the leftmost match
    is replaced; [before] is the text already passed. *)
Fixpoint replaceRealm (tpl before s : string) : string :=
  match realmAt s with
  | Some (matched, after) =>
      expandReplacement tpl matched before after ++ after
  | None =>
      match s with
      | EmptyString => EmptyString
      | String c s' =>
          String c (replaceRealm tpl (before ++ String c "") s')
      end
  end.

(** The response headers sent to the client. *)
Definition rewriteHeaders (req : Http.request) (resp : Http.response)
    : Http.headers :=
  let responseHeaders :=
    Http.copyExcept ["transfer-encoding"; "connection"; "www-authenticate"]
      (Http.respHeaders resp) in
  match Js.truthy (Http.get (Http.respHeaders resp) "www-authenticate") with
  | Some wwwAuth =>
      let proxyHost :=
        match Js.orElse (Http.xForwardedHost req) (Js.truthy (Http.host req)) with
        | Some h => h
        | None => EmptyString
        end in
      let scheme :=
        match Js.truthy (Http.xForwardedProto req) with
        | Some p => p
        | None => "https"
        end in
      let rewritten :=
        replaceRealm
          (realmOpen ++ scheme ++ "://" ++ proxyHost ++ "/token" ++ Js.dq)
          EmptyString wwwAuth in
      Http.put responseHeaders "www-authenticate" rewritten
  | None => responseHeaders
  end.

Definition manifestAccept : string :=
  Js.join
    [ "application/vnd.docker.distribution.manifest.v2+json";
      "application/vnd.docker.distribution.manifest.list.v2+json";
      "application/vnd.oci.image.manifest.v1+json";
      "application/vnd.oci.image.index.v1+json" ] ", ".

(** [proxyDockerRegistry(req, res)] *)
Definition proxyDockerRegistry (cfg : config) (cache : Cache.t string)
    (clk : clock) (req : Http.request)
    : list event * reply * Cache.t string :=
  let path := Http.path req in
  if String.eqb path "/v2/" || String.eqb path "/v2"
  then ([], JsonEmpty, cache)
  else
    let p := parseRegistryPath cfg path in
    if String.eqb (imageName p) EmptyString
    then ([], InvalidPath, cache)
    else
      let fullImageName :=
        match Js.truthy (registryDomain p) with
        | Some d => d ++ "/" ++ imageName p
        | None => imageName p
        end in
      match AccessControl.checkDockerAccess (whiteList cfg) (blackList cfg)
              fullImageName with
      | AccessControl.Allowed =>
          let upstreamURL :=
            buildUpstreamURL cfg (registryDomain p) (imageName p) (api p)
              (reference p) in
          let scope := scopeOf (registryDomain p) (imageName p) in
          let '(evs, token, cache') :=
            getAuthToken cfg cache clk scope (registryDomain p) in
          let headers :=
            match token with
            | Some t => [("Authorization", "Bearer " ++ t)]
            | None => []
            end in
          let headers :=
            match Js.truthy (Http.accept req) with
            | Some a => Http.put headers "Accept" a
            | None =>
                match api p with
                | Manifests => Http.put headers "Accept" manifestAccept
                | _ => headers
                end
            end in
          let log :=
            (GetAuthToken scope (registryDomain p) :: evs ++
             [FetchUpstream upstreamURL (Http.method req) headers])%list in
          match fetch upstreamURL (Http.method req) headers with
          | None => (log, ServerError, cache')
          | Some response =>
              (log,
               Proxied (Http.status response) (rewriteHeaders req response)
                 (Http.body response),
               cache')
          end
      | why => ([], Denied why, cache)
      end.
End Handler.

End Docker.

(** ** [routes/github.js] *)

Module GitHub.

Definition MAX_REDIRECTS : nat := 20.

Definition blockedContentTypes : list string :=
  ["text/html"; "application/xhtml+xml"; "text/xml"; "application/xml"].

(** [config.server.fileSize] *)
Record config := mkConfig { fileSize : Z }.

(** The answer written to the client. *)
Inductive reply :=
| TooManyRedirects                              (* 508 *)
| ContentTypeNotAllowed                         (* 403 *)
| FileTooLarge                                  (* 413 *)
| ServerError                                   (* 500 *)
| Buffered (status : Z) (hs : Http.headers) (body : string)   (* [res.send(body)] *)
| Streamed (status : Z) (hs : Http.headers) (body : string).  (* [body.pipe(res)] *)

Definition statusOf (r : reply) : Z :=
  match r with
  | TooManyRedirects => 508
  | ContentTypeNotAllowed => 403
  | FileTooLarge => 413
  | ServerError => 500
  | Buffered st _ _ => st
  | Streamed st _ _ => st
  end.

(** A response that the walk follows: a truthy [location] and a status in
    [300, 400). *)
Definition redirectTarget (resp : Http.response) : option string :=
  match Js.truthy (Http.get (Http.respHeaders resp) "location") with
  | Some location =>
      if (300 <=? Http.status resp) && (Http.status resp <? 400)
      then Some location else None
  | None => None
  end.

(** [contentType.split(';')[0].toLowerCase()] *)
Definition baseType (resp : Http.response) : string :=
  let contentType :=
    match Js.truthy (Http.get (Http.respHeaders resp) "content-type") with
    | Some ct => ct
    | None => EmptyString
    end in
  Js.toLowerCase (List.nth 0 (Js.split contentType ";") EmptyString).

(** The content-type check, made for [GET] and a status in [200, 300). *)
Definition typeBlocked (req : Http.request) (resp : Http.response) : bool :=
  String.eqb (Http.method req) "GET" &&
  (200 <=? Http.status resp) && (Http.status resp <? 300) &&
  Http.inList (baseType resp) blockedContentTypes.

(** The size check: [parseInt(contentLength, 10) > config.server.fileSize]
    for a truthy [content-length]. *)
Definition tooLarge (cfg : config) (resp : Http.response) : bool :=
  match Js.truthy (Http.get (Http.respHeaders resp) "content-length") with
  | Some contentLength =>
      match Js.parseInt contentLength 10 with
      | Some size => fileSize cfg <? size
      | None => false
      end
  | None => false
  end.

(** [realHost]: the forwarded host or the host, with [https://] in front
    unless it already carries a scheme. *)
Definition realHost (req : Http.request) : string :=
  let h := match Js.orElse (Http.xForwardedHost req) (Http.host req) with
           | Some h => h
           | None => EmptyString
           end in
  if negb (Js.startsWith h "http://") && negb (Js.startsWith h "https://")
  then "https://" ++ h else h.

(** The class of the script patterns: neither white space nor a quote. *)
Definition urlChar (c : ascii) : bool :=
  negb (Js.isWhiteSpace c || Ascii.eqb c Js.quote || Ascii.eqb c "'"%char).

(** The length of the run of [urlChar] characters at the head of [s]. *)
Fixpoint urlRun (s : string) : nat :=
  match s with
  | EmptyString => O
  | String c s' => if urlChar c then S (urlRun s') else O
  end.

(** The length of a match of [https?:\/\/HOST\/CLASS+] at the head of [s],
    for a host name [h] written with escaped dots. *)
Definition matchWith (scheme h s : string) : option nat :=
  let pre := scheme ++ "://" ++ h ++ "/" in
  if Js.isPrefix pre s then
    match urlRun (Js.drop (String.length pre) s) with
    | O => None
    | S n => Some (String.length pre + S n)%nat
    end
  else None.

Definition matchLen (h s : string) : option nat :=
  match matchWith "https" h s with
  | Some n => Some n
  | None => matchWith "http" h s
  end.

(** [body.replace(pattern, match => realHost + '/' + match)] with the flag
    [g], scanning from the left: at a match the prefix is written and the
    [skip] characters of the match are copied before the scan resumes. *)
Fixpoint replaceAll (base h : string) (skip : nat) (s : string) : string :=
  match s with
  | EmptyString => EmptyString
  | String c s' =>
      match skip with
      | S k => String c (replaceAll base h k s')
      | O =>
          match matchLen h s with
          | Some n => base ++ "/" ++ String c (replaceAll base h (n - 1) s')
          | None => String c (replaceAll base h O s')
          end
      end
  end.

(** The hosts of [githubUrlPatterns], in order. *)
Definition githubUrlHosts : list string :=
  ["github.com"; "raw.githubusercontent.com"].

Definition rewriteScript (base body : string) : string :=
  List.fold_left (fun b h => replaceAll base h O b) githubUrlHosts body.

Definition skippedHeaders : list string :=
  ["content-security-policy"; "referrer-policy"; "strict-transport-security";
   "transfer-encoding"; "connection"].

(** [lowercaseUrl.endsWith('.sh') || lowercaseUrl.endsWith('.ps1')] *)
Definition isScript (url : string) : bool :=
  let lowercaseUrl := Js.toLowerCase url in
  Js.endsWith lowercaseUrl ".sh" || Js.endsWith lowercaseUrl ".ps1".

(** What [proxyGitHubRequest] does with a response it does not follow. *)
Definition respond (cfg : config) (req : Http.request) (url : string)
    (resp : Http.response) : reply :=
  if typeBlocked req resp then ContentTypeNotAllowed
  else if tooLarge cfg resp then FileTooLarge
  else
    let responseHeaders := Http.copyExcept skippedHeaders (Http.respHeaders resp) in
    if isScript url then
      Buffered (Http.status resp)
        (Http.remove responseHeaders "content-length")
        (rewriteScript (realHost req) (Http.body resp))
    else Streamed (Http.status resp) responseHeaders (Http.body resp).

Section Walk.
(** The upstream: the answer of the [fetch] made at redirect count [n]
    for [url]; [None] when [fetch] throws. *)
Variable fetch : nat -> string -> option Http.response.
Variable cfg : config.
Variable req : Http.request.

(** [proxyGitHubRequest(req, res, url, redirectCount)]: the URLs fetched,
    in order, and the answer. *)
Equations? proxyGitHubRequest (url : string) (redirectCount : nat)
    : list string * reply by wf (S MAX_REDIRECTS - redirectCount)%nat lt :=
  proxyGitHubRequest url redirectCount
    with lt_dec MAX_REDIRECTS redirectCount => {
    | left _ => ([], TooManyRedirects)
    | right _ with fetch redirectCount url => {
      | None => ([url], ServerError)
      | Some response with redirectTarget response => {
        | Some location =>
            let '(urls, r) := proxyGitHubRequest location (S redirectCount) in
            (url :: urls, r)
        | None => ([url], respond cfg req url response) } } }.
Proof.
  change (S MAX_REDIRECTS - S redirectCount < S MAX_REDIRECTS - redirectCount)%nat.
  lia.
Qed.
End Walk.

(** The loop [while (rawPath.startsWith('/')) rawPath = rawPath.slice(1)]. *)
Fixpoint stripSlashes (s : string) : string :=
  match s with
  | String c s' => if Ascii.eqb c "/" then stripSlashes s' else s
  | EmptyString => EmptyString
  end.

(** [rawPath.replace(/^https?:\//, '')] *)
Definition dropSchemeSlash (s : string) : string :=
  if Js.startsWith s "https:/" then Js.drop 7 s
  else if Js.startsWith s "http:/" then Js.drop 6 s
  else s.

(** The URL that [githubProxyHandler] builds from [req.originalUrl] before
    it classifies it. *)
Definition normalizeRawPath (originalUrl : string) : string :=
  let rawPath := stripSlashes (Js.drop 1 originalUrl) in
  if negb (Js.startsWith rawPath "https://") then
    let rawPath := dropSchemeSlash rawPath in
    let rawPath :=
      if Js.startsWith rawPath "http://" then Js.drop 7 rawPath else rawPath in
    "https://" ++ rawPath
  else rawPath.

(** *** The patterns of [githubPatterns]

    The regular expressions of the source are written with literals, the
    two classes [.] and [[^/]] under the quantifiers [*], [+] and [+?],
    sequence, alternation, the greedy option [(?: )?] and capture groups.
    [run] is the backtracking matcher of the language: a continuation
    receives what is left of the input, and a failure of the continuation
    makes the matcher try its next choice. *)

Inductive cls :=
| AnyChar      (* [.]: any character but a line terminator *)
| NotSlash.    (* [[^/]] *)

Definition inClass (c : cls) (ch : ascii) : bool :=
  match c with
  | AnyChar => negb (Js.isLineTerminator ch)
  | NotSlash => negb (Ascii.eqb ch "/")
  end.

Inductive regex :=
| Lit (s : string)
| Rep (c : cls) (min : nat) (greedy : bool)   (* [c*], [c+], [c+?] *)
| Seq (a b : regex)
| Alt (a b : regex)
| Opt (a : regex)                             (* [(?:a)?] *)
| Group (i : nat) (a : regex).                (* the [i]-th parenthesis *)

(** The groups that took part in a match, with their texts. *)
Definition captures := list (nat * string).

(** A greedy quantifier on a class: the longest run first. *)
Fixpoint repGreedy (ok : ascii -> bool) (min : nat) (s : string)
    (k : string -> option captures) : option captures :=
  let stop := if (min =? 0)%nat then k s else None in
  match s with
  | String ch s' =>
      if ok ch then
        match repGreedy ok (Nat.pred min) s' k with
        | Some r => Some r
        | None => stop
        end
      else stop
  | EmptyString => stop
  end.

(** A lazy quantifier on a class: the shortest run first. *)
Fixpoint repLazy (ok : ascii -> bool) (min : nat) (s : string)
    (k : string -> option captures) : option captures :=
  match (if (min =? 0)%nat then k s else None) with
  | Some r => Some r
  | None =>
      match s with
      | String ch s' => if ok ch then repLazy ok (Nat.pred min) s' k else None
      | EmptyString => None
      end
  end.

Fixpoint run (r : regex) (s : string) (k : string -> option captures)
    : option captures :=
  match r with
  | Lit l => if Js.isPrefix l s then k (Js.drop (String.length l) s) else None
  | Rep c min greedy =>
      if greedy then repGreedy (inClass c) min s k
      else repLazy (inClass c) min s k
  | Seq a b => run a s (fun s' => run b s' k)
  | Alt a b =>
      match run a s k with
      | Some r => Some r
      | None => run b s k
      end
  | Opt a =>
      (* an iteration that consumes nothing is not taken *)
      match run a s (fun s' =>
                       if (String.length s' =? String.length s)%nat then None
                       else k s') with
      | Some r => Some r
      | None => k s
      end
  | Group i a =>
      run a s (fun s' =>
                 match k s' with
                 | Some caps =>
                     Some ((i, Js.take (String.length s - String.length s') s)
                           :: caps)
                 | None => None
                 end)
  end.

Fixpoint lookupGroup (caps : captures) (i : nat) : option string :=
  match caps with
  | [] => None
  | (j, text) :: rest => if (i =? j)%nat then Some text else lookupGroup rest i
  end.

(** [s.match(/^r/)] for a pattern with [groups] parentheses, then
    [.slice(1)]: the texts of the groups, [None] for a group that took no
    part ([undefined]). *)
Definition matchGroups (groups : nat) (r : regex) (s : string)
    : option (list (option string)) :=
  match run r s (fun _ => Some []) with
  | Some caps => Some (List.map (lookupGroup caps) (List.seq 1 groups))
  | None => None
  end.

Fixpoint seqs (rs : list regex) : regex :=
  match rs with
  | [] => Lit EmptyString
  | [r] => r
  | r :: rest => Seq r (seqs rest)
  end.

(** [(?:https?:\/\/)?] *)
Definition scheme : regex := Opt (seqs [Lit "http"; Opt (Lit "s"); Lit "://"]).

(** [([^/]+)] as the [i]-th group *)
Definition segment (i : nat) : regex := Group i (Rep NotSlash 1 true).

(** [githubPatterns], each with its number of groups. *)
Definition githubPatterns : list (nat * regex) :=
  [ (2%nat, seqs [scheme; Lit "github.com/"; segment 1; Lit "/"; segment 2; Lit "/";
              Alt (Lit "releases") (Lit "archive"); Lit "/"; Rep AnyChar 0 true]);
    (2%nat, seqs [scheme; Lit "github.com/"; segment 1; Lit "/"; segment 2; Lit "/";
              Alt (Lit "blob") (Lit "raw"); Lit "/"; Rep AnyChar 0 true]);
    (2%nat, seqs [scheme; Lit "github.com/"; segment 1; Lit "/"; segment 2; Lit "/";
              Alt (Lit "info") (Lit "git-"); Rep AnyChar 0 true]);
    (2%nat, seqs [scheme; Lit "raw.github"; Opt (Lit "usercontent"); Lit ".com/";
              segment 1; Lit "/"; segment 2; Lit "/"; Rep AnyChar 1 false;
              Lit "/"; Rep AnyChar 1 true]);
    (2%nat, seqs [scheme; Lit "gist."; Alt (Lit "githubusercontent") (Lit "github");
              Lit ".com/"; segment 1; Lit "/"; segment 2; Rep AnyChar 0 true]);
    (2%nat, seqs [scheme; Lit "api.github.com/repos/"; segment 1; Lit "/"; segment 2;
              Lit "/"; Rep AnyChar 0 true]);
    (2%nat, seqs [scheme; Lit "huggingface.co"; Opt (Lit "/spaces"); Lit "/";
              segment 1; Lit "/"; Group 2 (Rep AnyChar 1 true)]);
    (3%nat, seqs [scheme; Lit "cdn-lfs.hf.co"; Opt (Lit "/spaces"); Lit "/";
              segment 1; Lit "/"; segment 2;
              Opt (Seq (Lit "/") (Group 3 (Rep AnyChar 0 true)))]);
    (2%nat, seqs [scheme; Lit "download.docker.com/"; segment 1; Lit "/";
              Rep AnyChar 0 true; Lit "."; Group 2 (Alt (Lit "tgz") (Lit "zip"))]);
    (2%nat, seqs [scheme; Group 1 (Alt (Lit "github") (Lit "opengraph"));
              Lit ".githubassets.com/"; segment 2; Lit "/"; Rep AnyChar 1 false]) ].

(** [checkGitHubURL(url)]: the groups of the first pattern that matches. *)
Fixpoint firstMatch (patterns : list (nat * regex)) (url : string)
    : option (list (option string)) :=
  match patterns with
  | [] => None
  | (groups, r) :: rest =>
      match matchGroups groups r url with
      | Some matches => Some matches
      | None => firstMatch rest url
      end
  end.

Definition checkGitHubURL (url : string) : option (list (option string)) :=
  firstMatch githubPatterns url.

(** [githubPatterns[1].test(rawPath)] *)
Definition isBlobOrRaw (url : string) : bool :=
  match List.nth_error githubPatterns 1 with
  | Some (groups, r) =>
      match matchGroups groups r url with Some _ => true | None => false end
  | None => false
  end.

(** [s.replace(pat, by)] for a string pattern and a replacement without
    dollar sign: the first occurrence is replaced. *)
Fixpoint replaceFirst (pat by_ s : string) : string :=
  if Js.isPrefix pat s then by_ ++ Js.drop (String.length pat) s
  else match s with
       | EmptyString => EmptyString
       | String c s' => String c (replaceFirst pat by_ s')
       end.

(** What [githubProxyHandler] does with a request. *)
Inductive handled :=
| InvalidInput                                   (* 403, no pattern matches *)
| AccessDenied (why : AccessControl.verdict)     (* 403 with the reason *)
| Thrown                                         (* a [TypeError] escapes *)
| Walked (result : list string * reply).         (* [proxyGitHubRequest] *)

(** [githubProxyHandler(req, res)]; [whiteList] and [blackList] are those of
    [config.access].  A second group that took no part would make
    [repoName.replace] throw; a first group that took no part is printed as
    [undefined] by the template string. *)
Definition githubProxyHandler (fetch : nat -> string -> option Http.response)
    (cfg : config) (whiteList blackList : list string) (req : Http.request)
    (originalUrl : string) : handled :=
  let rawPath := normalizeRawPath originalUrl in
  match checkGitHubURL rawPath with
  | None => InvalidInput
  | Some matches =>
      let proxied :=
        let rawPath :=
          if isBlobOrRaw rawPath then replaceFirst "/blob/" "/raw/" rawPath
          else rawPath in
        Walked (proxyGitHubRequest fetch cfg req rawPath 0) in
      if (2 <=? List.length matches)%nat then
        match List.nth 1 matches None with
        | None => Thrown
        | Some repoName =>
            let username := match List.nth 0 matches None with
                            | Some u => u
                            | None => "undefined"
                            end in
            match AccessControl.checkGitHubAccess whiteList blackList
                    username repoName with
            | AccessControl.Allowed => proxied
            | why => AccessDenied why
            end
        end
      else proxied
  end.

End GitHub.

(** ** Reference notions for the statements *)

(** The text forms of an IPv6 address: eight groups of one to four
    hexadecimal digits separated by colons, where one run of zero groups may
    be written [::] and the last two groups may be written as a dotted quad.
    [denote] is the address a text stands for, as eight 16-bit groups;
    [top64] its first 64 bits. *)
Module Ipv6Text.

Definition isHexDigit (c : ascii) : bool :=
  match Js.digitOf 16 c with Some _ => true | None => false end.

Fixpoint allHex (s : string) : bool :=
  match s with
  | EmptyString => true
  | String c s' => isHexDigit c && allHex s'
  end.

Definition isHexGroup (g : string) : bool :=
  (1 <=? String.length g)%nat && (String.length g <=? 4)%nat && allHex g.

Definition digitValue (radix : Z) (c : ascii) : Z :=
  match Js.digitOf radix c with Some d => d | None => 0 end.

Fixpoint valueFrom (radix acc : Z) (s : string) : Z :=
  match s with
  | EmptyString => acc
  | String c s' => valueFrom radix (acc * radix + digitValue radix c) s'
  end.

(** The number written by a group of hexadecimal digits. *)
Definition hexValue (g : string) : Z := valueFrom 16 0 g.

Fixpoint allDecimal (s : string) : bool :=
  match s with
  | EmptyString => true
  | String c s' =>
      match Js.digitOf 10 c with Some _ => true | None => false end &&
      allDecimal s'
  end.

Definition isOctet (o : string) : bool :=
  (1 <=? String.length o)%nat && (String.length o <=? 3)%nat &&
  allDecimal o && (valueFrom 10 0 o <=? 255).

Definition isDottedQuad (q : string) : bool :=
  let parts := Js.split q "." in
  (List.length parts =? 4)%nat && List.forallb isOctet parts.

(** The two groups written by a dotted quad [a.b.c.d]. *)
Definition quadGroups (q : string) : list Z :=
  match List.map (valueFrom 10 0) (Js.split q ".") with
  | [a; b; c; d] => [a * 256 + b; c * 256 + d]
  | _ => []
  end.

Inductive text :=
| Full (groups : list string) (v4 : option string)
| Compressed (before after : list string) (v4 : option string).

Definition tailText (v4 : option string) : list string :=
  match v4 with Some q => [q] | None => [] end.

Definition tailGroups (v4 : option string) : list Z :=
  match v4 with Some q => quadGroups q | None => [] end.

Definition tailCount (v4 : option string) : nat :=
  match v4 with Some _ => 2%nat | None => 0%nat end.

Definition tailOk (v4 : option string) : bool :=
  match v4 with Some q => isDottedQuad q | None => true end.

(** The string a text form is written as. *)
Definition render (t : text) : string :=
  match t with
  | Full groups v4 => Js.join (groups ++ tailText v4)%list ":"
  | Compressed before after v4 =>
      Js.join before ":" ++ "::" ++ Js.join (after ++ tailText v4)%list ":"
  end.

(** Syntactic validity. *)
Definition valid (t : text) : bool :=
  match t with
  | Full groups v4 =>
      List.forallb isHexGroup groups && tailOk v4 &&
      (List.length groups + tailCount v4 =? 8)%nat
  | Compressed before after v4 =>
      List.forallb isHexGroup before && List.forallb isHexGroup after &&
      tailOk v4 &&
      (List.length before + List.length after + tailCount v4 <=? 7)%nat
  end.

(** A text form written with hexadecimal groups only. *)
Definition hexOnly (t : text) : bool :=
  match t with
  | Full _ None | Compressed _ _ None => true
  | _ => false
  end.

(** The eight groups of the address. *)
Definition denote (t : text) : list Z :=
  match t with
  | Full groups v4 => (List.map hexValue groups ++ tailGroups v4)%list
  | Compressed before after v4 =>
      (List.map hexValue before ++
       List.repeat 0
         (8 - List.length before - List.length after - tailCount v4)%nat ++
       List.map hexValue after ++ tailGroups v4)%list
  end.

Definition top64 (t : text) : list Z := List.firstn 4 (denote t).

End Ipv6Text.

(** The invariant of a cache built with capacity [M]. *)
Definition cache_inv {V : Type} (M : Z) (c : Cache.t V) : Prop :=
  Cache.maxSize c = M /\ Cache.size c <= M.

(** No entry of the cache is expired at time [now]. *)
Definition noneExpired {V : Type} (now : Z) (c : Cache.t V) : Prop :=
  forall kv, In kv (Cache.data c) -> Cache.expired now (snd kv) = false.



(** A record that the janitor keeps at clock reading [now]. *)
Definition recentlyUsed (now : Z) (kv : string * RateLimiter.record) : bool :=
  negb (2 * 3600 * 1000 <? now - RateLimiter.lastAccess (snd kv)).

(** ** Reference notions for the script rewrite *)

(** Every character of [s] is in the class of the script patterns. *)
Fixpoint allUrlChars (s : string) : bool :=
  match s with
  | EmptyString => true
  | String c s' => GitHub.urlChar c && allUrlChars s'
  end.

(** [m] is an occurrence of the pattern for host [h]: a scheme [http] or
    [https], the host, a slash and a non-empty run of class characters. *)
Definition isUrl (h m : string) : Prop :=
  exists scheme tail,
    (scheme = "http" \/ scheme = "https") /\
    m = scheme ++ "://" ++ h ++ "/" ++ tail /\
    tail <> EmptyString /\ allUrlChars tail = true.

(** An occurrence starts at the head of [s]. *)
Definition urlStartsAt (h s : string) : Prop :=
  exists m rest, s = m ++ rest /\ isUrl h m.

(** The text after an occurrence does not continue it. *)
Definition stopsUrl (rest : string) : Prop :=
  match rest with
  | EmptyString => True
  | String c _ => GitHub.urlChar c = false
  end.

(** [out] is [s] with [base/] written in front of every occurrence for host
    [h], the occurrences being taken from the left, each as long as
    possible, and everything else copied. *)
Inductive Rewritten (base h : string) : string -> string -> Prop :=
| RwEnd : Rewritten base h EmptyString EmptyString
| RwCopy c s out :
    ~ urlStartsAt h (String c s) ->
    Rewritten base h s out ->
    Rewritten base h (String c s) (String c out)
| RwUrl m rest out :
    isUrl h m -> stopsUrl rest ->
    Rewritten base h rest out ->
    Rewritten base h (m ++ rest) (base ++ "/" ++ m ++ out).

(** The proxy base of the specification: the scheme of [X-Forwarded-Proto]
    (default [https]) and the host of [X-Forwarded-Host] or [Host]. *)
Definition proxyBase_spec (req : Http.request) : string :=
  match Js.truthy (Http.xForwardedProto req) with
  | Some p => p
  | None => "https"
  end ++ "://" ++
  match Js.orElse (Http.xForwardedHost req) (Http.host req) with
  | Some h => h
  | None => EmptyString
  end.

(** ** Auxiliary notions for the proofs *)

(** The character [sep] occurs in [s]. *)
Fixpoint hasChar (sep : ascii) (s : string) : bool :=
  match s with
  | EmptyString => false
  | String c s' => Ascii.eqb c sep || hasChar sep s'
  end.

(** A check of [P] on the [2 ^ bits] integers from [base] on. *)
Fixpoint allBelow (bits : nat) (base : Z) (P : Z -> bool) : bool :=
  match bits with
  | O => P base
  | S k => allBelow k base P && allBelow k (base + 2 ^ Z.of_nat k) P
  end.

(** The facts checked on every 16-bit word: the two bytes of a group put
    together again, and [toString(16)] read back. *)
Definition word16_check (v : Z) : bool :=
  (Z.lor (Z.shiftl (Z.land (Z.shiftr v 8) 255) 8) (Z.land v 255) =? v) &&
  (Ipv6Text.hexValue (Js.toString16 v) =? v) &&
  negb (hasChar ":" (Js.toString16 v)).

(** The two bytes [parseIPv6] stores for a group of value [v]. *)
Definition bytesOf (v : Z) : list Z := [Z.land (Z.shiftr v 8) 255; Z.land v 255].

(** What [normalizeIP] prints for eight groups. *)
Definition printed (vals : list Z) : string :=
  Js.join (List.map Js.toString16 (List.firstn 4 vals) ++ ["0"; "0"; "0"; "0"])%list ":"
  ++ "/64".

(** The groups that [parseIPv6] reads from a text form. *)
Definition expanded (t : Ipv6Text.text) : list string :=
  match t with
  | Ipv6Text.Full groups _ => groups
  | Ipv6Text.Compressed before after _ =>
      (before ++
       List.repeat "0" (8 - List.length before - List.length after) ++ after)%list
  end.

(** [split] of the text of a possibly empty list of groups. *)
Definition splitOf (groups : list string) : list string :=
  match groups with [] => [EmptyString] | _ => groups end.

(** ** Reference notions for CIDR membership *)

(** The number written by a list of bytes, most significant first. *)
Fixpoint beValue (bs : list Z) : Z :=
  match bs with
  | [] => 0
  | b :: rest => b * 256 ^ Z.of_nat (List.length rest) + beValue rest
  end.

(** The leading [p] of the [8 * length bs] bits of [bs]. *)
Definition topBits (p : Z) (bs : list Z) : Z :=
  beValue bs / 2 ^ (8 * Z.of_nat (List.length bs) - p).

(** The address written by a dotted quad, as four bytes. *)
Definition quadBytes (q : string) : list Z :=
  List.map (Ipv6Text.valueFrom 10 0) (Js.split q ".").

(** The 128-bit number of eight 16-bit groups (of any list of groups). *)
Fixpoint groupsValue (gs : list Z) : Z :=
  match gs with
  | [] => 0
  | g :: rest => g * 65536 ^ Z.of_nat (List.length rest) + groupsValue rest
  end.

Definition isByte (x : Z) : Prop := 0 <= x < 256.

(** A prefix length written in decimal digits. *)
Definition isPrefixText (s : string) : bool :=
  negb (String.eqb s EmptyString) && Ipv6Text.allDecimal s.

(** What is checked on every byte [x] and every number of bits [1..8]: the
    mask of [isIPInCIDR] keeps the leading bits of the byte. *)
Definition mask_check (x : Z) : bool :=
  List.forallb
    (fun b =>
       Z.land x (RateLimiter.maskOf (Some b)) =? x / 2 ^ (8 - b) * 2 ^ (8 - b))
    [1; 2; 3; 4; 5; 6; 7; 8].

(** ** Reference notions for the access lists *)

(** Two texts are equal up to the case of their letters. *)
Fixpoint sameText (a b : string) : bool :=
  match a, b with
  | EmptyString, EmptyString => true
  | String c a', String d b' => AccessControl.sameLetter c d && sameText a' b'
  | _, _ => false
  end.

(** A pattern without wildcard. *)
Definition isLiteral (p : string) : bool :=
  negb (hasChar "*" p) && negb (hasChar "?" p).

(** What is checked on every character: lower-casing changes neither the
    letter a character stands for under the flag [i] nor whether it is a
    line terminator. *)
Definition lowerChar_check (n : Z) : bool :=
  let c := ascii_of_N (Z.to_N n) in
  Ascii.eqb (AccessControl.upperChar (Js.lowerChar c)) (AccessControl.upperChar c) &&
  Bool.eqb (Js.isLineTerminator (Js.lowerChar c)) (Js.isLineTerminator c) &&
  Bool.eqb (Ascii.eqb (Js.lowerChar c) "*") (Ascii.eqb c "*") &&
  Bool.eqb (Ascii.eqb (Js.lowerChar c) "?") (Ascii.eqb c "?").

(** ** Reference notions for the Registry proxy *)

(** The tail that the upstream URL puts after the repository name. *)
Definition apiSuffix (api : Docker.apiType) (reference : string) : string :=
  match api with
  | Docker.Manifests => "/manifests/" ++ reference
  | Docker.Blobs => "/blobs/" ++ reference
  | Docker.Tags => "/tags/list"
  | Docker.Base => EmptyString
  end.

(** The headers that the Registry proxy does not copy. *)
Definition dockerSkipped : list string :=
  ["transfer-encoding"; "connection"; "www-authenticate"].

(** ** Reference notions for the GitHub handler *)

(** The path sections behind [github.com/<user>/<repo>/] that the first and
    the third pattern accept. *)
Definition githubSections : list string :=
  ["releases/"; "archive/"; "info"; "git-"].

(** The continuation at the end of a pattern: the match is complete. *)
Definition noCaptures : string -> option GitHub.captures := fun _ => Some [].

(** The groups that take part in every match of a pattern. *)
Fixpoint mandatory (r : GitHub.regex) : list nat :=
  match r with
  | GitHub.Seq a b => (mandatory a ++ mandatory b)%list
  | GitHub.Group i a => i :: mandatory a
  | _ => []
  end.

(** A pattern with at least two parentheses whose first two groups take
    part in every match. *)
Definition twoGroupsAlways (p : nat * GitHub.regex) : bool :=
  (2 <=? fst p)%nat &&
  List.existsb (Nat.eqb 1) (mandatory (snd p)) &&
  List.existsb (Nat.eqb 2) (mandatory (snd p)).

(** ** Reference notions for the token URL and the token cache *)

Fixpoint everyChar (P : ascii -> bool) (s : string) : bool :=
  match s with
  | EmptyString => true
  | String c s' => P c && everyChar P s'
  end.

(** The characters of an encoded URI component: the unreserved ones and
    the percent sign of an escape. *)
Definition uriSafe (c : ascii) : bool :=
  Docker.unreserved c || Ascii.eqb c "%".

(** What is checked on every character: its encoding is made of safe
    characters. *)
Definition encode_check (n : Z) : bool :=
  everyChar uriSafe
    (Docker.encodeURIComponent (String (ascii_of_N (Z.to_N n)) EmptyString)).

(** The registry name that the cache key of a token carries. *)
Definition keyRegistry (registryDomain : option string) : string :=
  match Js.truthy registryDomain with Some d => d | None => "docker" end.

(** ** Reference notions for the keys of [config.registries] *)

(** The characters that [new RegExp] does not take for themselves, the dot
    apart. *)
Definition patternSpecial : list ascii :=
  ["\"; "^"; "$"; "*"; "+"; "?"; "("; ")"; "["; "]"; "{"; "}"; "|"]%char.

(** A registry key that is a host name, or any text free of the special
    characters of a pattern. *)
Definition plainKey (domain : string) : bool :=
  everyChar (fun c => negb (List.existsb (Ascii.eqb c) patternSpecial)) domain.

(** Every key of [config.registries] is plain. *)
Definition plainKeys (cfg : Docker.config) : bool :=
  List.forallb plainKey (List.map fst (Docker.registries cfg)).

(* ===================================================================== *)
(** * Part II: theorems                                                   *)
(* ===================================================================== *)

(** ** The insertion-ordered map *)

Section JsMapFacts.
Context {E : Type}.
Implicit Types (m : JsMap.t E) (k : string) (e : E).

Lemma jsmap_set_length m k e :
  (List.length (JsMap.set m k e) <= S (List.length m))%nat.
Proof.
  induction m as [|[k' e'] m IH]; simpl; [lia|].
  destruct (String.eqb k k'); simpl; lia.
Qed.

Lemma jsmap_delete_length m k :
  (List.length (JsMap.delete m k) <= List.length m)%nat.
Proof.
  induction m as [|[k' e'] m IH]; simpl; [lia|].
  destruct (String.eqb k k'); simpl; lia.
Qed.
End JsMapFacts.

Section JsMapLookup.
Context {E : Type}.
Implicit Types (m : JsMap.t E) (k : string) (e : E).

Lemma jsmap_get_set_same m k e : JsMap.get (JsMap.set m k e) k = Some e.
Proof.
  induction m as [|[k' e'] m IH]; simpl.
  - now rewrite String.eqb_refl.
  - destruct (String.eqb k k') eqn:Hk; simpl; rewrite Hk; auto.
Qed.

Lemma jsmap_get_set_other m k k' e :
  k' <> k -> JsMap.get (JsMap.set m k e) k' = JsMap.get m k'.
Proof.
  intros Hne. induction m as [|[k1 e1] m IH]; simpl.
  - destruct (String.eqb k' k) eqn:Hk; [apply String.eqb_eq in Hk; easy | easy].
  - destruct (String.eqb k k1) eqn:Hk; simpl.
    + apply String.eqb_eq in Hk. subst k1.
      destruct (String.eqb k' k) eqn:Hk'; [apply String.eqb_eq in Hk'; easy | easy].
    + now rewrite IH.
Qed.

Lemma jsmap_set_length_exact m k e :
  List.length (JsMap.set m k e) =
  if JsMap.has m k then List.length m else S (List.length m).
Proof.
  unfold JsMap.has.
  induction m as [|[k' e'] m IH]; simpl; [reflexivity|].
  destruct (String.eqb k k') eqn:Hk; simpl; [reflexivity|].
  rewrite IH. now destruct (JsMap.get m k).
Qed.

Lemma jsmap_get_absent m k : ~ In k (JsMap.keys m) -> JsMap.get m k = None.
Proof.
  induction m as [|[k' e'] m IH]; simpl; [easy|].
  intros Hn. destruct (String.eqb k k') eqn:Hk.
  - apply String.eqb_eq in Hk. subst. tauto.
  - apply IH. tauto.
Qed.
End JsMapLookup.

(** ** The cache: capacity and eviction *)

Section CacheFacts.
Context {V : Type}.
Implicit Types (c : Cache.t V) (o : Cache.op V).

Lemma filter_length_le {A} (f : A -> bool) (l : list A) :
  (List.length (List.filter f l) <= List.length l)%nat.
Proof.
  induction l as [|a l IH]; simpl; [lia|].
  destruct (f a); simpl; lia.
Qed.

Lemma cache_set_inv M c nowC nowI key v ttl :
  1 <= M -> cache_inv M c -> cache_inv M (Cache.set c nowC nowI key v ttl).
Proof.
  intros HM [Hmax Hsz]. unfold cache_inv, Cache.set, Cache.size, JsMap.size in *.
  set (c1 := if _ >=? _ then Cache.cleanup c nowC else c).
  assert (H1 : Cache.maxSize c1 = M /\
               (List.length (Cache.data c1) <= List.length (Cache.data c))%nat).
  { subst c1. destruct (_ >=? _); simpl; split; auto.
    apply filter_length_le. }
  destruct H1 as [H1m H1l].
  set (c2 := if _ >=? _ then Cache.evictFirst c1 else c1).
  assert (H2 : Cache.maxSize c2 = M /\ Z.of_nat (List.length (Cache.data c2)) <= M - 1).
  { subst c2. destruct (Z.geb_spec (Z.of_nat (List.length (Cache.data c1)))
                          (Cache.maxSize c1)) as [Hge|Hlt].
    - unfold Cache.evictFirst. destruct (Cache.data c1) as [|[k0 e0] rest] eqn:Hd; simpl.
      + simpl in Hge. lia.
      + rewrite String.eqb_refl. simpl. split; [assumption|].
        simpl in H1l. lia.
    - split; [assumption | lia]. }
  destruct H2 as [H2m H2l]. simpl. split; [assumption|].
  pose proof (jsmap_set_length (Cache.data c2) key
                (Cache.mkEntry v (nowI + match ttl with
                                          | Some x => x
                                          | None => Cache.defaultTTL c
                                          end))).
  lia.
Qed.

Lemma cache_step_inv M c o : 1 <= M -> cache_inv M c -> cache_inv M (Cache.step c o).
Proof.
  intros HM Hinv. destruct o as [now key|nowC nowI key v ttl|key|]; simpl.
  - destruct Hinv as [Hmax Hsz]. unfold Cache.get.
    destruct (JsMap.get (Cache.data c) key) as [e|]; simpl; [|now split].
    destruct (Cache.expired now e); simpl; [|now split].
    split; [assumption|]. unfold Cache.size, JsMap.size in *. simpl.
    pose proof (jsmap_delete_length (Cache.data c) key). lia.
  - now apply cache_set_inv.
  - destruct Hinv as [Hmax Hsz]. split; [assumption|].
    unfold Cache.size, JsMap.size in *. simpl.
    pose proof (jsmap_delete_length (Cache.data c) key). lia.
  - destruct Hinv as [Hmax Hsz]. split; [assumption|].
    unfold Cache.size, JsMap.size. simpl. lia.
Qed.

Lemma cache_run_inv M c ops : 1 <= M -> cache_inv M c -> cache_inv M (Cache.run c ops).
Proof.
  intros HM. revert c. induction ops as [|o ops IH]; intros c Hinv; simpl; [assumption|].
  apply IH. now apply cache_step_inv.
Qed.

(** On a cache within its capacity, [set] is the [set] of the
    specification. *)
Lemma cache_set_refines c nowC nowI key v ttl :
  1 <= Cache.maxSize c -> Cache.size c <= Cache.maxSize c ->
  Cache.set c nowC nowI key v ttl =
  Cache.set_spec c nowC nowI key v
    (match ttl with Some x => x | None => Cache.defaultTTL c end).
Proof.
  intros HM Hsz. unfold Cache.set, Cache.set_spec, Cache.atCapacity,
    Cache.size, JsMap.size in *.
  destruct (Z.geb_spec (Z.of_nat (List.length (Cache.data c))) (Cache.maxSize c))
    as [Hge|Hlt].
  - assert (Heq : Z.of_nat (List.length (Cache.data c)) = Cache.maxSize c) by lia.
    rewrite (proj2 (Z.eqb_eq _ _) Heq).
    unfold Cache.cleanup, Cache.purgeExpired, Cache.expired. simpl.
    assert (Hf : List.filter (fun kv => negb (Cache.expiresAt (snd kv) <? nowC))
                   (Cache.data c) =
                 List.filter (fun kv => nowC <=? Cache.expiresAt (snd kv))
                   (Cache.data c)).
    { apply List.filter_ext. intros a.
      destruct (Z.ltb_spec (Cache.expiresAt (snd a)) nowC);
        destruct (Z.leb_spec nowC (Cache.expiresAt (snd a))); simpl; auto; lia. }
    rewrite Hf. set (d1 := List.filter _ _).
    assert (Hd1 : Z.of_nat (List.length d1) <= Cache.maxSize c).
    { subst d1. pose proof (filter_length_le
        (fun kv : string * Cache.entry V => nowC <=? Cache.expiresAt (snd kv))
        (Cache.data c)). lia. }
    destruct (Z.geb_spec (Z.of_nat (List.length d1)) (Cache.maxSize c)) as [Hge1|Hlt1].
    + assert (Heq1 : Z.of_nat (List.length d1) = Cache.maxSize c) by lia.
      rewrite (proj2 (Z.eqb_eq _ _) Heq1).
      unfold Cache.evictFirst. simpl.
      destruct d1 as [|[k0 e0] rest]; simpl.
      * simpl in Heq1. lia.
      * now rewrite String.eqb_refl.
    + assert (Hne : (Z.of_nat (List.length d1) =? Cache.maxSize c) = false)
        by (apply Z.eqb_neq; lia).
      now rewrite Hne.
  - assert (Hne : (Z.of_nat (List.length (Cache.data c)) =? Cache.maxSize c) = false)
      by (apply Z.eqb_neq; lia).
    rewrite Hne.
    destruct (Z.geb_spec (Z.of_nat (List.length (Cache.data c))) (Cache.maxSize c));
      [lia|].
    rewrite Hne. now destruct c.
Qed.
End CacheFacts.

(** C6.  A cache built with capacity [maxSize >= 1] never holds more than
    [maxSize] entries, whatever sequence of [get], [set], [delete] and
    [clear] is run on it from the empty cache; and on every cache so
    reached, [set] does what the specification says: at capacity it purges
    the expired entries and, if still at capacity, drops the
    earliest-inserted entry, then inserts the new entry. *)
Theorem cache_never_exceeds_capacity (V : Type) (maxSize defaultTTL : Z)
    (ops : list (Cache.op V)) :
  1 <= maxSize ->
  let c := Cache.run (Cache.new maxSize defaultTTL) ops in
  Cache.size c <= maxSize /\
  forall nowC nowI key v ttl,
    Cache.set c nowC nowI key v ttl =
    Cache.set_spec c nowC nowI key v
      (match ttl with Some x => x | None => Cache.defaultTTL c end) /\
    Cache.size (Cache.set c nowC nowI key v ttl) <= maxSize.
Proof.
  intros HM c.
  assert (Hinv : cache_inv maxSize c).
  { apply cache_run_inv; [assumption|]. split; [reflexivity|].
    unfold Cache.size, JsMap.size. simpl. lia. }
  split; [apply Hinv|]. intros nowC nowI key v ttl. split.
  - destruct Hinv as [Hm Hs]. apply cache_set_refines; rewrite ?Hm; assumption.
  - now apply cache_set_inv.
Qed.

Lemma cache_never_exceeds_capacity_witness :
  1 <= 2 /\
  Cache.size
    (Cache.run (Cache.new 2 1000)
       [Cache.OpSet 0 0 "a" 1%nat None; Cache.OpSet 1 1 "b" 2%nat None;
        Cache.OpGet 2 "a"; Cache.OpSet 3 3 "c" 3%nat (Some 5);
        Cache.OpDelete "b"; Cache.OpClear]) <= 2.
Proof.
  split; [lia|].
  apply (cache_never_exceeds_capacity nat 2 1000
           [Cache.OpSet 0 0 "a" 1%nat None; Cache.OpSet 1 1 "b" 2%nat None;
            Cache.OpGet 2 "a"; Cache.OpSet 3 3 "c" 3%nat (Some 5);
            Cache.OpDelete "b"; Cache.OpClear]).
  lia.
Defined.

(** ** [set] at capacity and below it *)

Section CacheSetFrame.
Context {V : Type}.
Implicit Types (c : Cache.t V).

Lemma filter_all_kept {A} (f : A -> bool) (l : list A) :
  (forall a, In a l -> f a = true) -> List.filter f l = l.
Proof.
  induction l as [|a l IH]; simpl; intros H; [reflexivity|].
  rewrite (H a (or_introl eq_refl)). f_equal. apply IH. intros b Hb. apply H. now right.
Qed.

Lemma cleanup_none_expired c now :
  noneExpired now c -> Cache.cleanup c now = c.
Proof.
  intros H. unfold Cache.cleanup. rewrite filter_all_kept.
  - now destruct c.
  - intros kv Hin. rewrite (H kv Hin). reflexivity.
Qed.

(** What [set] writes when the cache is full of live entries: the head of
    the insertion order goes, then the key is set in what is left. *)
Lemma set_full_data c nowC nowI key v ttl k0 e0 rest :
  Cache.data c = (k0, e0) :: rest ->
  Cache.size c = Cache.maxSize c ->
  noneExpired nowC c ->
  Cache.data (Cache.set c nowC nowI key v ttl) =
  JsMap.set rest key
    (Cache.mkEntry v
       (nowI + match ttl with Some x => x | None => Cache.defaultTTL c end)).
Proof.
  intros Hd Hsz Hlive. unfold Cache.set.
  unfold Cache.size in Hsz. rewrite Hsz.
  assert (Hge : (Cache.maxSize c >=? Cache.maxSize c) = true)
    by (apply Z.geb_le; lia).
  rewrite Hge, (cleanup_none_expired c nowC Hlive), Hsz, Hge.
  unfold Cache.evictFirst. rewrite Hd. simpl. now rewrite String.eqb_refl.
Qed.

Lemma set_below_data c nowC nowI key v ttl :
  Cache.size c < Cache.maxSize c ->
  Cache.data (Cache.set c nowC nowI key v ttl) =
  JsMap.set (Cache.data c) key
    (Cache.mkEntry v
       (nowI + match ttl with Some x => x | None => Cache.defaultTTL c end)).
Proof.
  intros Hlt. unfold Cache.set. unfold Cache.size in Hlt.
  assert (Hge : (JsMap.size (Cache.data c) >=? Cache.maxSize c) = false).
  { destruct (Z.geb_spec (JsMap.size (Cache.data c)) (Cache.maxSize c)); [lia|reflexivity]. }
  rewrite Hge, Hge. reflexivity.
Qed.
End CacheSetFrame.

(** C10, as amended.  When [set(k, v)] is called on a cache that holds
    exactly [maxSize >= 1] entries, none of them expired, the
    earliest-inserted entry is evicted even if [k] is already present, and
    every key other than [k] and the evicted one keeps its entry.  If [k] is
    present and is not the earliest-inserted key, the overwrite removes that
    unrelated oldest entry and the cache shrinks by one.  If [k] is the
    earliest-inserted key itself, or is absent, the size stays [maxSize]
    ([k]'s own old entry is the one evicted, and [k] is inserted anew at the
    end of the order).  A [set] below capacity leaves the entry of every
    other key unchanged. *)
Theorem set_at_capacity_evicts_oldest (V : Type) (c : Cache.t V)
    (nowC nowI : Z) (key : string) (v : V) (ttl : option Z) :
  JsMap.wf (Cache.data c) ->
  1 <= Cache.maxSize c ->
  let c' := Cache.set c nowC nowI key v ttl in
  (Cache.size c = Cache.maxSize c -> noneExpired nowC c ->
   exists k0 e0 rest,
     Cache.data c = (k0, e0) :: rest /\
     (k0 <> key -> JsMap.get (Cache.data c') k0 = None) /\
     (forall k, k <> key -> k <> k0 ->
        JsMap.get (Cache.data c') k = JsMap.get (Cache.data c) k) /\
     (JsMap.has (Cache.data c) key = true -> k0 <> key ->
        Cache.size c' = Cache.size c - 1) /\
     (JsMap.has (Cache.data c) key = false \/ k0 = key ->
        Cache.size c' = Cache.size c /\
        exists front e, Cache.data c' = (front ++ [(key, e)])%list /\
                        Cache.value e = v)) /\
  (Cache.size c < Cache.maxSize c ->
   forall k, k <> key ->
     JsMap.get (Cache.data c') k = JsMap.get (Cache.data c) k).
Proof.
  intros Hwf HM c'. split.
  - intros Hfull Hlive.
    destruct (Cache.data c) as [|[k0 e0] rest] eqn:Hd.
    { unfold Cache.size, JsMap.size in Hfull. rewrite Hd in Hfull. simpl in Hfull. lia. }
    exists k0, e0, rest. split; [reflexivity|].
    assert (Hd' := set_full_data c nowC nowI key v ttl k0 e0 rest Hd Hfull Hlive).
    fold c' in Hd'.
    unfold JsMap.wf in Hwf. simpl in Hwf.
    apply NoDup_cons_iff in Hwf. destruct Hwf as [Hnotin Hnd].
    assert (Hrest0 : JsMap.get rest k0 = None) by now apply jsmap_get_absent.
    unfold Cache.size, JsMap.size. rewrite Hd', Hd.
    repeat split.
    + intros Hne. rewrite jsmap_get_set_other by assumption. exact Hrest0.
    + intros k Hk Hk0. rewrite jsmap_get_set_other by assumption. simpl.
      destruct (String.eqb k k0) eqn:E; [apply String.eqb_eq in E; easy | reflexivity].
    + intros Hhas Hne. rewrite jsmap_set_length_exact.
      unfold JsMap.has in *. simpl in Hhas.
      destruct (String.eqb key k0) eqn:E; [apply String.eqb_eq in E; subst; easy|].
      destruct (JsMap.get rest key); [cbn [List.length]; lia | discriminate].
    + rewrite jsmap_set_length_exact.
      assert (Habs : JsMap.has rest key = false).
      { unfold JsMap.has in *. destruct H as [H|H].
        - simpl in H. destruct (String.eqb key k0); [discriminate|exact H].
        - subst k0. now rewrite Hrest0. }
      rewrite Habs. cbn [List.length]. lia.
    + assert (Habs : JsMap.get rest key = None).
      { unfold JsMap.has in *. destruct H as [H|H].
        - simpl in H. destruct (String.eqb key k0); [discriminate|].
          destruct (JsMap.get rest key); [discriminate|reflexivity].
        - subst k0. exact Hrest0. }
      clear - Habs.
      exists rest,
        (Cache.mkEntry v
           (nowI + match ttl with Some x => x | None => Cache.defaultTTL c end)).
      split; [|reflexivity].
      induction rest as [|[k1 e1] rest IH]; simpl; [reflexivity|].
      simpl in Habs. destruct (String.eqb key k1); [discriminate|].
      simpl. f_equal. now apply IH.
  - intros Hlt k Hk. unfold c'. rewrite set_below_data by assumption.
    now apply jsmap_get_set_other.
Qed.

Lemma set_at_capacity_evicts_oldest_witness :
  let c := Cache.mkCache
             [("a", Cache.mkEntry 1%nat 100); ("b", Cache.mkEntry 2%nat 100)]
             2 1000 in
  JsMap.wf (Cache.data c) /\ 1 <= Cache.maxSize c /\
  Cache.size c = Cache.maxSize c /\ noneExpired 0 c /\
  Cache.size (Cache.set c 0 0 "b" 7%nat None) = Cache.size c - 1.
Proof.
  intros c.
  assert (Hwf : JsMap.wf (Cache.data c)).
  { unfold JsMap.wf. simpl. repeat constructor; simpl; intuition discriminate. }
  assert (HM : 1 <= Cache.maxSize c) by (simpl; lia).
  assert (Hfull : Cache.size c = Cache.maxSize c) by reflexivity.
  assert (Hlive : noneExpired 0 c).
  { intros kv [H|[H|[]]]; subst kv; reflexivity. }
  repeat (split; [assumption|]).
  destruct (set_at_capacity_evicts_oldest nat c 0 0 "b" 7%nat None Hwf HM)
    as [Hcap _].
  destruct (Hcap Hfull Hlive) as (k0 & e0 & rest & Hd & _ & _ & Hshrink & _).
  apply Hshrink; [reflexivity|].
  simpl in Hd. injection Hd as Hk _ _. subst k0. discriminate.
Defined.

(** C10 as stated fails when the key being overwritten is the
    earliest-inserted one: in a full cache [a, b] of capacity 2 with no
    expired entry, [set(a, _)] evicts [a]'s own entry and inserts [a] again,
    so no unrelated entry is removed and the size stays 2. *)
Lemma overwrite_of_oldest_key_does_not_shrink :
  let c := Cache.mkCache
             [("a", Cache.mkEntry 1%nat 100); ("b", Cache.mkEntry 2%nat 100)]
             2 1000 in
  let c' := Cache.set c 0 0 "a" 3%nat None in
  Cache.size c = Cache.maxSize c /\
  List.forallb (fun kv => negb (Cache.expired 0 (snd kv))) (Cache.data c) = true /\
  JsMap.has (Cache.data c) "a" = true /\
  Cache.size c' = Cache.size c /\
  Cache.size c' <> Cache.size c - 1 /\
  JsMap.keys (Cache.data c') = ["b"; "a"].
Proof.
  vm_compute. repeat split; congruence.
Qed.

(** ** The token bucket *)

Section TokenBucket.
Import RateLimiter.

Lemma lessThanOne_true q : lessThanOne q = true -> (q < 1)%Q.
Proof.
  unfold lessThanOne. intros H. apply negb_true_iff in H.
  apply Qnot_le_lt. intros Hle. apply Qle_bool_iff in Hle. congruence.
Qed.


End TokenBucket.

(** ** Binary64: rounding and order on the specification *)

Lemma fexp_eq x : fexp prec emax x = Z.max (x - 53) (-1074).
Proof. reflexivity. Qed.

Lemma digits2_pos_bounds p :
  2 ^ (Zpos (digits2_pos p) - 1) <= Zpos p < 2 ^ Zpos (digits2_pos p).
Proof.
  induction p as [p IH|p IH|]; cbn [digits2_pos].
  - rewrite Pos2Z.inj_succ, (Pos2Z.inj_xI p).
    replace (Z.succ (Zpos (digits2_pos p)) - 1)
      with (Z.succ (Zpos (digits2_pos p) - 1)) by lia.
    rewrite !Z.pow_succ_r by lia. lia.
  - rewrite Pos2Z.inj_succ, (Pos2Z.inj_xO p).
    replace (Z.succ (Zpos (digits2_pos p)) - 1)
      with (Z.succ (Zpos (digits2_pos p) - 1)) by lia.
    rewrite !Z.pow_succ_r by lia. lia.
  - cbn. lia.
Qed.

Lemma Zdigits2_bounds x :
  0 < x -> 2 ^ (Zdigits2 x - 1) <= x < 2 ^ Zdigits2 x.
Proof. destruct x as [|p|p]; try lia. intros _. apply digits2_pos_bounds. Qed.

Lemma Zdigits2_pos x : 0 < x -> 0 < Zdigits2 x.
Proof. destruct x; cbn; lia. Qed.

Lemma Zdigits2_unique x d :
  0 < x -> 2 ^ (d - 1) <= x < 2 ^ d -> Zdigits2 x = d.
Proof.
  intros Hx [Hlo Hhi]. pose proof (Zdigits2_bounds x Hx) as [Dlo Dhi].
  pose proof (Zdigits2_pos x Hx) as Dpos.
  assert (0 < d).
  { destruct (Z_lt_le_dec 0 d) as [|Hd]; [assumption|].
    assert (2 ^ d <= 2 ^ 0) by (destruct (Z.eq_dec d 0) as [->|]; [lia|];
      rewrite Z.pow_neg_r by lia; cbn; lia).
    cbn in *. lia. }
  assert (Zdigits2 x - 1 < d) by (apply (Z.pow_lt_mono_r_iff 2); lia).
  assert (d - 1 < Zdigits2 x) by (apply (Z.pow_lt_mono_r_iff 2); lia).
  lia.
Qed.

Lemma Zdigits2_le x y : 0 < x -> x <= y -> Zdigits2 x <= Zdigits2 y.
Proof.
  intros Hx Hxy. pose proof (Zdigits2_bounds x Hx) as [Dlo _].
  pose proof (Zdigits2_bounds y ltac:(lia)) as [_ Dhi].
  pose proof (Zdigits2_pos y ltac:(lia)).
  assert (Zdigits2 x - 1 < Zdigits2 y) by (apply (Z.pow_lt_mono_r_iff 2); lia).
  lia.
Qed.

Lemma Zdigits2_mul_pow x k :
  0 < x -> 0 <= k -> Zdigits2 (x * 2 ^ k) = Zdigits2 x + k.
Proof.
  intros Hx Hk. pose proof (Zdigits2_bounds x Hx) as [Dlo Dhi].
  pose proof (Zdigits2_pos x Hx).
  assert (0 < 2 ^ k) by (apply Z.pow_pos_nonneg; lia).
  apply Zdigits2_unique; [nia|].
  replace (Zdigits2 x + k - 1) with ((Zdigits2 x - 1) + k) by lia.
  rewrite !Z.pow_add_r by lia. nia.
Qed.

Lemma iter_pos_nat {A} (f : A -> A) p x :
  iter_pos f p x = Nat.iter (Pos.to_nat p) f x.
Proof.
  revert x. induction p as [p IH|p IH|]; intros x; cbn [iter_pos].
  - rewrite !IH, Pos2Nat.inj_xI.
    replace (S (2 * Pos.to_nat p)) with (Pos.to_nat p + (Pos.to_nat p + 1))%nat by lia.
    rewrite !Nat.iter_add. reflexivity.
  - rewrite !IH, Pos2Nat.inj_xO.
    replace (2 * Pos.to_nat p)%nat with (Pos.to_nat p + Pos.to_nat p)%nat by lia.
    now rewrite Nat.iter_add.
  - reflexivity.
Qed.

Lemma shr_1_div mrs : 0 <= shr_m mrs -> shr_m (shr_1 mrs) = shr_m mrs / 2.
Proof.
  destruct mrs as [m r s]. cbn [shr_m]. intros Hm.
  destruct m as [|[p|p|]|p]; cbn [shr_1 shr_m]; try lia.
  - reflexivity.
  - rewrite (Pos2Z.inj_xI p). apply Z.div_unique with 1; lia.
  - rewrite (Pos2Z.inj_xO p). apply Z.div_unique with 0; lia.
  - reflexivity.
Qed.

Lemma iter_shr_1 k mrs :
  0 <= shr_m mrs -> shr_m (Nat.iter k shr_1 mrs) = shr_m mrs / 2 ^ Z.of_nat k.
Proof.
  intros Hm. induction k as [|k IH].
  - cbn. now rewrite Z.div_1_r.
  - rewrite Nat.iter_succ, shr_1_div.
    + rewrite IH, Nat2Z.inj_succ, Z.pow_succ_r by lia.
      rewrite Z.div_div by (try apply Z.pow_pos_nonneg; lia).
      now rewrite Z.mul_comm.
    + rewrite IH. apply Z.div_pos; [lia | apply Z.pow_pos_nonneg; lia].
Qed.

Lemma shr_spec mrs e n :
  0 <= shr_m mrs ->
  shr_m (fst (shr mrs e n)) = shr_m mrs / 2 ^ Z.max 0 n /\
  snd (shr mrs e n) = e + Z.max 0 n.
Proof.
  intros Hm. destruct n as [|p|p]; cbn [shr fst snd].
  - cbn. rewrite Z.div_1_r. lia.
  - rewrite iter_pos_nat, iter_shr_1 by assumption.
    rewrite positive_nat_Z. replace (Z.max 0 (Z.pos p)) with (Z.pos p) by lia.
    split; reflexivity.
  - replace (Z.max 0 (Z.neg p)) with 0 by lia. cbn. rewrite Z.div_1_r. lia.
Qed.

Lemma shr_record_of_loc_m m l : shr_m (shr_record_of_loc m l) = m.
Proof. destruct l as [|[]]; reflexivity. Qed.

Lemma shr_fexp_spec m e l :
  0 <= m ->
  let n := Z.max 0 (fexp prec emax (Zdigits2 m + e) - e) in
  shr_m (fst (shr_fexp prec emax m e l)) = m / 2 ^ n /\
  snd (shr_fexp prec emax m e l) = e + n.
Proof.
  intros Hm n. unfold shr_fexp.
  pose proof (shr_spec (shr_record_of_loc m l) e
                (fexp prec emax (Zdigits2 m + e) - e)) as H.
  rewrite shr_record_of_loc_m in H. now apply H.
Qed.

Lemma round_nearest_even_bounds m l :
  m <= round_nearest_even m l <= m + 1.
Proof.
  destruct l as [|[]]; cbn [round_nearest_even]; try lia.
  destruct (Z.even m); lia.
Qed.

(** What [binary_round_aux] returns for a mantissa that is not negative. *)
Lemma binary_round_aux_spec sx mx ex lx :
  0 <= mx ->
  let n1 := Z.max 0 (fexp prec emax (Zdigits2 mx + ex) - ex) in
  exists q',
    mx / 2 ^ n1 <= q' <= mx / 2 ^ n1 + 1 /\
    let n2 := Z.max 0 (fexp prec emax (Zdigits2 q' + (ex + n1)) - (ex + n1)) in
    binary_round_aux prec emax sx mx ex lx =
      match q' / 2 ^ n2 with
      | Z0 => S754_zero sx
      | Zpos m =>
          if ex + n1 + n2 <=? emax - prec
          then S754_finite sx m (ex + n1 + n2) else S754_infinity sx
      | Zneg _ => S754_nan
      end.
Proof.
  intros Hm n1. unfold binary_round_aux.
  destruct (shr_fexp_spec mx ex lx Hm) as [H1 H2]. fold n1 in H1, H2.
  destruct (shr_fexp prec emax mx ex lx) as [mrs' e']. cbn [fst snd] in H1, H2.
  subst e'.
  set (q' := round_nearest_even (shr_m mrs') (loc_of_shr_record mrs')).
  pose proof (round_nearest_even_bounds (shr_m mrs') (loc_of_shr_record mrs')) as Hq.
  fold q' in Hq. rewrite H1 in Hq.
  exists q'. split; [exact Hq|].
  assert (Hq0 : 0 <= q').
  { assert (0 <= mx / 2 ^ n1) by (apply Z.div_pos; [lia | apply Z.pow_pos_nonneg; lia]).
    lia. }
  destruct (shr_fexp_spec q' (ex + n1) loc_Exact Hq0) as [H3 H4].
  destruct (shr_fexp prec emax q' (ex + n1) loc_Exact) as [mrs'' e''].
  cbn [fst snd] in H3, H4. subst e''. cbv zeta. rewrite H3. reflexivity.
Qed.

Lemma iter_xO_pow m d : Zpos (Pos.iter xO m d) = Zpos m * 2 ^ Zpos d.
Proof.
  induction d as [|d IH] using Pos.peano_ind.
  - cbn [Pos.iter]. rewrite (Pos2Z.inj_xO m). change (2 ^ 1) with 2. lia.
  - rewrite Pos.iter_succ, (Pos2Z.inj_xO (Pos.iter xO m d)), IH, Pos2Z.inj_succ.
    rewrite Z.pow_succ_r by lia. lia.
Qed.

Lemma shl_align_spec mx ex ex' :
  let k := Z.max 0 (ex - ex') in
  Zpos (fst (shl_align mx ex ex')) = Zpos mx * 2 ^ k /\
  snd (shl_align mx ex ex') = ex - k.
Proof.
  intros k. unfold shl_align.
  destruct (ex' - ex) as [|d|d] eqn:E; cbn [fst snd].
  - replace k with 0 by lia. cbn. lia.
  - replace k with 0 by lia. cbn. lia.
  - rewrite iter_xO_pow. replace k with (Zpos d) by lia. split; [reflexivity | lia].
Qed.

(** The two orders on floats that are not negative. *)
Lemma SFleb_finite m1 e1 m2 e2 :
  SFleb (S754_finite false m1 e1) (S754_finite false m2 e2) = true <->
  e1 < e2 \/ (e1 = e2 /\ Zpos m1 <= Zpos m2).
Proof.
  unfold SFleb, SFcompare.
  change (Pos.compare_cont Eq m1 m2) with (Pos.compare m1 m2).
  destruct (Z.compare_spec e1 e2); [destruct (Pos.compare_spec m1 m2)|..];
    split; intros; try reflexivity; try discriminate; subst; lia.
Qed.

Lemma SFltb_finite m1 e1 m2 e2 :
  SFltb (S754_finite false m1 e1) (S754_finite false m2 e2) = true <->
  e1 < e2 \/ (e1 = e2 /\ Zpos m1 < Zpos m2).
Proof.
  unfold SFltb, SFcompare.
  change (Pos.compare_cont Eq m1 m2) with (Pos.compare m1 m2).
  destruct (Z.compare_spec e1 e2); [destruct (Pos.compare_spec m1 m2)|..];
    split; intros; try reflexivity; try discriminate; subst; lia.
Qed.

(** [x] is not negative: a zero, or a positive number, or plus infinity. *)
Lemma SFleb_zero_cases x :
  SFleb (S754_zero false) x = true ->
  (exists s, x = S754_zero s) \/ (exists m e, x = S754_finite false m e) \/
  x = S754_infinity false.
Proof.
  destruct x as [s|[]| |[] m e]; cbn; try discriminate; eauto.
Qed.

Lemma SFleb_trans x y z :
  SFleb (S754_zero false) x = true -> SFleb (S754_zero false) y = true ->
  SFleb x y = true -> SFleb y z = true -> SFleb x z = true.
Proof.
  intros Hx Hy.
  destruct (SFleb_zero_cases x Hx) as [[sx ->]|[(mx & ex & ->)| ->]];
  destruct (SFleb_zero_cases y Hy) as [[sy ->]|[(my & ey & ->)| ->]];
  destruct z as [sz|[]| |[] mz ez]; try (cbn; congruence).
  rewrite !SFleb_finite. lia.
Qed.

Lemma binary_round_aux_nonneg mx ex lx :
  0 <= mx ->
  SFleb (S754_zero false) (binary_round_aux prec emax false mx ex lx) = true.
Proof.
  intros Hm. destruct (binary_round_aux_spec false mx ex lx Hm) as (q' & Hq & ->).
  set (n1 := Z.max 0 (fexp prec emax (Zdigits2 mx + ex) - ex)) in *.
  set (n2 := Z.max 0 (fexp prec emax (Zdigits2 q' + (ex + n1)) - (ex + n1))).
  assert (H1 : 0 <= mx / 2 ^ n1)
    by (apply Z.div_pos; [lia | apply Z.pow_pos_nonneg; lia]).
  assert (H2 : 0 <= q' / 2 ^ n2)
    by (apply Z.div_pos; [lia | apply Z.pow_pos_nonneg; lia]).
  destruct (q' / 2 ^ n2) as [|p|p]; [reflexivity| |lia].
  destruct (_ <=? _); reflexivity.
Qed.

Lemma binary_round_nonneg mx ex :
  SFleb (S754_zero false) (binary_round prec emax false mx ex) = true.
Proof.
  unfold binary_round. destruct (shl_align _ _ _) as [mz ez].
  apply binary_round_aux_nonneg. lia.
Qed.

Lemma binary_normalize_nonneg m e :
  0 <= m -> SFleb (S754_zero false) (binary_normalize prec emax m e false) = true.
Proof.
  intros Hm. destruct m as [|p|p]; [reflexivity | apply binary_round_nonneg | lia].
Qed.

(** Rounding does not pass a number of the format that lies above. *)
Lemma binary_round_aux_below sx mx ex lx m e :
  0 < mx ->
  fexp prec emax (Zpos (digits2_pos m) + e) = e -> e <= emax - prec ->
  ex <= e -> mx < Zpos m * 2 ^ (e - ex) ->
  binary_round_aux prec emax sx mx ex lx = S754_zero sx \/
  exists m' e',
    binary_round_aux prec emax sx mx ex lx = S754_finite sx m' e' /\
    (e' < e \/ (e' = e /\ Zpos m' <= Zpos m)).
Proof.
  intros Hmx Hcan Hemax Hex Hlt.
  destruct (binary_round_aux_spec sx mx ex lx ltac:(lia)) as (q' & Hq & ->).
  set (n1 := Z.max 0 (fexp prec emax (Zdigits2 mx + ex) - ex)) in *.
  set (n2 := Z.max 0 (fexp prec emax (Zdigits2 q' + (ex + n1)) - (ex + n1))).
  rewrite fexp_eq in Hcan.
  assert (Hdm : Zdigits2 (Zpos m * 2 ^ (e - ex)) = Zpos (digits2_pos m) + (e - ex))
    by (apply (Zdigits2_mul_pow (Zpos m)); lia).
  assert (Hd1 : Zdigits2 mx + ex <= Zpos (digits2_pos m) + e).
  { pose proof (Zdigits2_le mx (Zpos m * 2 ^ (e - ex)) Hmx ltac:(lia)). lia. }
  assert (HE1 : ex + n1 <= e).
  { subst n1. rewrite fexp_eq. lia. }
  assert (Hn1 : 0 <= n1) by (subst n1; lia).
  assert (Hpow : 2 ^ (e - ex) = 2 ^ (e - (ex + n1)) * 2 ^ n1).
  { rewrite <- Z.pow_add_r by lia. f_equal. lia. }
  assert (Hp1 : 0 < 2 ^ n1) by (apply Z.pow_pos_nonneg; lia).
  assert (Hq1 : mx / 2 ^ n1 < Zpos m * 2 ^ (e - (ex + n1))).
  { apply Z.div_lt_upper_bound; [assumption|]. rewrite Hpow in Hlt. lia. }
  assert (Hq0 : 0 <= mx / 2 ^ n1) by (apply Z.div_pos; lia).
  assert (Hq' : 0 <= q' <= Zpos m * 2 ^ (e - (ex + n1))) by lia.
  assert (HE2 : ex + n1 + n2 <= e).
  { subst n2. rewrite fexp_eq.
    destruct (Z.eq_dec q' 0) as [->|Hne].
    - cbn [Zdigits2]. lia.
    - pose proof (Zdigits2_le q' (Zpos m * 2 ^ (e - (ex + n1))) ltac:(lia) ltac:(lia)) as Hd.
      rewrite (Zdigits2_mul_pow (Zpos m)) in Hd by lia. cbn [Zdigits2] in Hd. lia. }
  assert (Hn2 : 0 <= n2) by (subst n2; lia).
  assert (Hp2 : 0 < 2 ^ n2) by (apply Z.pow_pos_nonneg; lia).
  assert (Hq2 : q' / 2 ^ n2 <= Zpos m * 2 ^ (e - (ex + n1 + n2))).
  { assert (Hpow2 : 2 ^ (e - (ex + n1)) = 2 ^ (e - (ex + n1 + n2)) * 2 ^ n2).
    { rewrite <- Z.pow_add_r by lia. f_equal. lia. }
    rewrite Hpow2 in Hq'.
    apply Z.div_le_upper_bound; [assumption|]. lia. }
  assert (Hq3 : 0 <= q' / 2 ^ n2) by (apply Z.div_pos; lia).
  destruct (q' / 2 ^ n2) as [|p|p] eqn:Ep; [now left| |lia].
  right. apply Z.leb_le in Hemax.
  assert (Hle : (ex + n1 + n2 <=? emax - prec) = true) by (apply Z.leb_le; apply Z.leb_le in Hemax; lia).
  rewrite Hle. exists p, (ex + n1 + n2). split; [reflexivity|].
  destruct (Z.eq_dec (ex + n1 + n2) e) as [E|E]; [right | left; lia].
  split; [assumption|]. rewrite E, Z.sub_diag in Hq2. cbn in Hq2. lia.
Qed.

Lemma binary_round_below sx X ex m e :
  fexp prec emax (Zpos (digits2_pos m) + e) = e -> e <= emax - prec ->
  ex <= e -> Zpos X < Zpos m * 2 ^ (e - ex) ->
  binary_round prec emax sx X ex = S754_zero sx \/
  exists m' e',
    binary_round prec emax sx X ex = S754_finite sx m' e' /\
    (e' < e \/ (e' = e /\ Zpos m' <= Zpos m)).
Proof.
  intros Hcan Hemax Hex Hlt. unfold binary_round.
  pose proof (shl_align_spec X ex (fexp prec emax (Zpos (digits2_pos X) + ex)))
    as [H1 H2].
  destruct (shl_align _ _ _) as [mz ez]. cbn [fst snd] in H1, H2.
  set (k := Z.max 0 (ex - fexp prec emax (Zpos (digits2_pos X) + ex))) in *.
  assert (Hk : 0 <= k) by (subst k; lia).
  apply binary_round_aux_below; try assumption; try lia.
  rewrite H1, H2. replace (e - (ex - k)) with ((e - ex) + k) by lia.
  rewrite Z.pow_add_r by lia.
  assert (0 < 2 ^ k) by (apply Z.pow_pos_nonneg; lia). nia.
Qed.

Lemma SFltb_zero_cases x :
  SFltb (S754_zero false) x = true ->
  (exists m e, x = S754_finite false m e) \/ x = S754_infinity false.
Proof.
  destruct x as [s|[]| |[] m e]; cbn; try discriminate; eauto.
Qed.

Lemma SFdiv_core_nonneg mx ex my ey :
  0 <= fst (fst (SFdiv_core_binary prec emax (Zpos mx) ex (Zpos my) ey)).
Proof.
  unfold SFdiv_core_binary.
  set (s := _ - _ - Z.min _ _).
  set (m' := match s with Z0 => Zpos mx | Zpos _ => Z.shiftl (Zpos mx) s | Zneg _ => 0 end).
  assert (Hm : 0 <= m').
  { subst m'. destruct s; try lia. apply Z.shiftl_nonneg. lia. }
  pose proof (Z.div_pos m' (Zpos my) Hm ltac:(lia)) as H. unfold Z.div in H.
  destruct (Z.div_eucl m' (Zpos my)) as [q r]. exact H.
Qed.

Lemma SFdiv_nonneg x y :
  SFleb (S754_zero false) x = true -> SFltb x (S754_infinity false) = true ->
  SFltb (S754_zero false) y = true ->
  SFleb (S754_zero false) (SF64div x y) = true.
Proof.
  intros Hx Hfin Hy.
  destruct (SFleb_zero_cases x Hx) as [[sx ->]|[(mx & ex & ->)| ->]];
    [| |discriminate Hfin];
  destruct (SFltb_zero_cases y Hy) as [(my & ey & ->)| ->]; try reflexivity.
  unfold SF64div, SFdiv.
  pose proof (SFdiv_core_nonneg mx ex my ey) as H.
  destruct (SFdiv_core_binary prec emax (Zpos mx) ex (Zpos my) ey) as [[mz ez] lz].
  cbn [fst] in H. cbn [xorb]. now apply binary_round_aux_nonneg.
Qed.

Lemma SFmul_nonneg x m e :
  SFleb (S754_zero false) x = true ->
  SFleb (S754_zero false) (SF64mul x (S754_finite false m e)) = true.
Proof.
  intros Hx.
  destruct (SFleb_zero_cases x Hx) as [[sx ->]|[(mx & ex & ->)| ->]];
    try reflexivity.
  unfold SF64mul, SFmul. cbn [xorb]. apply binary_round_aux_nonneg. lia.
Qed.

Lemma SFadd_nonneg x y :
  SFleb (S754_zero false) x = true -> SFleb (S754_zero false) y = true ->
  SFleb (S754_zero false) (SF64add x y) = true.
Proof.
  intros Hx Hy.
  destruct (SFleb_zero_cases x Hx) as [[sx ->]|[(mx & ex & ->)| ->]];
  destruct (SFleb_zero_cases y Hy) as [[sy ->]|[(my & ey & ->)| ->]];
    try reflexivity.
  - destruct sx, sy; reflexivity.
  - unfold SF64add, SFadd. cbn [cond_Zopp]. apply binary_normalize_nonneg. lia.
Qed.

(** A number of the format that is not zero does not round to zero. *)
Lemma binary_round_aux_positive mx ex lx :
  0 < mx -> -1073 <= Zdigits2 mx + ex ->
  SFltb (S754_zero false) (binary_round_aux prec emax false mx ex lx) = true.
Proof.
  intros Hmx Hmag.
  destruct (binary_round_aux_spec false mx ex lx ltac:(lia)) as (q' & Hq & ->).
  set (n1 := Z.max 0 (fexp prec emax (Zdigits2 mx + ex) - ex)) in *.
  set (n2 := Z.max 0 (fexp prec emax (Zdigits2 q' + (ex + n1)) - (ex + n1))).
  pose proof (Zdigits2_bounds mx Hmx) as [Dlo _].
  pose proof (Zdigits2_pos mx Hmx) as Dpos.
  assert (Hn1 : 0 <= n1 <= Zdigits2 mx - 1) by (subst n1; rewrite fexp_eq; lia).
  assert (HE1 : -1074 <= ex + n1) by (subst n1; rewrite fexp_eq; lia).
  assert (Hq1 : 1 <= mx / 2 ^ n1).
  { apply Z.div_le_lower_bound; [apply Z.pow_pos_nonneg; lia|].
    rewrite Z.mul_1_r. apply Z.le_trans with (2 ^ (Zdigits2 mx - 1)); [|assumption].
    apply Z.pow_le_mono_r; lia. }
  assert (Hq0 : 0 < q') by lia.
  pose proof (Zdigits2_bounds q' Hq0) as [Dlo' _].
  pose proof (Zdigits2_pos q' Hq0) as Dpos'.
  assert (Hn2 : 0 <= n2 <= Zdigits2 q' - 1) by (subst n2; rewrite fexp_eq; lia).
  assert (Hq2 : 1 <= q' / 2 ^ n2).
  { apply Z.div_le_lower_bound; [apply Z.pow_pos_nonneg; lia|].
    rewrite Z.mul_1_r. apply Z.le_trans with (2 ^ (Zdigits2 q' - 1)); [|assumption].
    apply Z.pow_le_mono_r; lia. }
  destruct (q' / 2 ^ n2) as [|p|p]; [lia| |lia].
  destruct (_ <=? _); reflexivity.
Qed.

Lemma valid_finite s m e :
  valid_binary (S754_finite s m e) = true ->
  fexp prec emax (Zpos (digits2_pos m) + e) = e /\ e <= emax - prec.
Proof.
  cbn [SpecFloat.valid_binary]. unfold bounded, canonical_mantissa.
  intros H. apply andb_true_iff in H. destruct H as [H1 H2].
  apply Z.eqb_eq in H1. apply Z.leb_le in H2. now split.
Qed.

(** The product of a positive number and a normal number that is at least
    one is positive. *)
Lemma SFmul_positive x mc ec :
  valid_binary x = true -> SFltb (S754_zero false) x = true ->
  2 ^ 52 <= Zpos mc -> -52 <= ec ->
  SFltb (S754_zero false) (SF64mul x (S754_finite false mc ec)) = true.
Proof.
  intros Hv Hx Hmc Hec.
  destruct (SFltb_zero_cases x Hx) as [(m & e & ->)| ->]; [|reflexivity].
  destruct (valid_finite _ _ _ Hv) as [Hcan _]. rewrite fexp_eq in Hcan.
  unfold SF64mul, SFmul. cbn [xorb]. apply binary_round_aux_positive; [lia|].
  assert (Hd : Zdigits2 (2 ^ 52) <= Zdigits2 (Zpos (m * mc))).
  { apply Zdigits2_le; [reflexivity|]. rewrite Pos2Z.inj_mul. nia. }
  change (Zdigits2 (2 ^ 52)) with 53 in Hd. lia.
Qed.

(** An integer below [2^63] is a finite number. *)
Lemma binary_normalize_int z :
  0 <= z < 2 ^ 63 ->
  SFleb (S754_zero false) (binary_normalize prec emax z 0 false) = true /\
  SFltb (binary_normalize prec emax z 0 false) (S754_infinity false) = true.
Proof.
  intros Hz. split; [apply binary_normalize_nonneg; lia|].
  destruct z as [|X|X]; [reflexivity| |lia]. cbn [binary_normalize].
  assert (Hlt : Zpos X < Z.pos 4503599627370496 * 2 ^ (11 - 0))
    by (change (Z.pos 4503599627370496 * 2 ^ (11 - 0)) with (2 ^ 63); lia).
  destruct (binary_round_below false X 0 4503599627370496 11 eq_refl
              ltac:(discriminate) ltac:(discriminate) Hlt)
    as [->|(m' & e' & -> & _)]; reflexivity.
Qed.

(** Taking one from a number that is at least one: the result is neither
    negative nor above the number. *)
Lemma SFsub_one_range m e :
  valid_binary (S754_finite false m e) = true ->
  SFltb (S754_finite false m e) (S754_finite false 4503599627370496 (-52)) = false ->
  SFleb (S754_zero false)
    (SF64sub (S754_finite false m e) (S754_finite false 4503599627370496 (-52))) = true /\
  SFleb (SF64sub (S754_finite false m e) (S754_finite false 4503599627370496 (-52)))
    (S754_finite false m e) = true.
Proof.
  intros Hv Hge. destruct (valid_finite _ _ _ Hv) as [Hcan Hemax].
  assert (Hord : ~ (e < -52 \/ (e = -52 /\ Zpos m < 4503599627370496))).
  { intros H. apply SFltb_finite in H. congruence. }
  pose proof (digits2_pos_bounds m) as [Dlo Dhi].
  assert (Hm : 2 ^ 52 <= Zpos m).
  { destruct (Z.eq_dec e (-52)) as [E|E]; [change (2 ^ 52) with 4503599627370496; lia|].
    rewrite fexp_eq in Hcan.
    assert (Hd : Zpos (digits2_pos m) = 53) by lia.
    rewrite Hd in Dlo. exact Dlo. }
  unfold SF64sub, SFsub. cbn [cond_Zopp].
  replace (Z.min e (-52)) with (-52) by lia.
  pose proof (shl_align_spec m e (-52)) as [H1 _].
  pose proof (shl_align_spec 4503599627370496 (-52) (-52)) as [H2 _].
  replace (Z.max 0 (-52 - -52)) with 0 in H2 by lia.
  change (Z.pos 4503599627370496 * 2 ^ 0) with (2 ^ 52) in H2.
  replace (Z.max 0 (e - -52)) with (e + 52) in H1 by lia.
  rewrite H1, H2.
  assert (Hp : 1 <= 2 ^ (e + 52)) by (apply (Z.pow_le_mono_r 2 0); lia).
  assert (HD : 0 <= Zpos m * 2 ^ (e + 52) - 2 ^ 52) by nia.
  destruct (Zpos m * 2 ^ (e + 52) - 2 ^ 52) as [|X|X] eqn:EX; [now split| |lia].
  cbn [binary_normalize]. split; [apply binary_round_nonneg|].
  destruct (binary_round_below false X (-52) m e Hcan Hemax ltac:(lia))
    as [->|(m' & e' & -> & Hle)].
  - replace (e - -52) with (e + 52) by lia. lia.
  - reflexivity.
  - now apply SFleb_finite.
Qed.

(** The order on two numbers of the format, as an order on integers. *)
Lemma canonical_le m1 e1 m2 e2 c :
  fexp prec emax (Zpos (digits2_pos m1) + e1) = e1 ->
  fexp prec emax (Zpos (digits2_pos m2) + e2) = e2 ->
  e1 < e2 \/ (e1 = e2 /\ Zpos m1 <= Zpos m2) ->
  c <= e1 -> c <= e2 ->
  Zpos m1 * 2 ^ (e1 - c) <= Zpos m2 * 2 ^ (e2 - c).
Proof.
  intros C1 C2 Hle Hc1 Hc2. rewrite fexp_eq in C1, C2.
  assert (Hp : 0 < 2 ^ (e1 - c)) by (apply Z.pow_pos_nonneg; lia).
  destruct Hle as [Hlt|[-> Hm]]; [|nia].
  pose proof (digits2_pos_bounds m1) as [_ D1].
  pose proof (digits2_pos_bounds m2) as [D2 _].
  assert (Hd2 : Zpos (digits2_pos m2) = 53) by lia.
  assert (Hd1 : Zpos (digits2_pos m1) <= 53) by lia.
  rewrite Hd2 in D2. change (2 ^ (53 - 1)) with (2 ^ 52) in D2.
  assert (H53 : Zpos m1 < 2 ^ 53).
  { apply Z.lt_le_trans with (2 ^ Zpos (digits2_pos m1)); [assumption|].
    apply Z.pow_le_mono_r; lia. }
  replace (e2 - c) with ((e2 - e1) + (e1 - c)) by lia.
  rewrite Z.pow_add_r by lia.
  assert (H2 : 2 <= 2 ^ (e2 - e1)) by (apply (Z.pow_le_mono_r 2 1); lia).
  change (2 ^ 53) with (2 * 2 ^ 52) in H53.
  assert (H3 : Zpos m1 <= Zpos m2 * 2 ^ (e2 - e1)) by nia.
  rewrite Z.mul_assoc. apply Z.mul_le_mono_nonneg_r; lia.
Qed.

(** Rounding does not fall below a number of the format that lies below. *)
Lemma binary_round_aux_above mx ex lx m e :
  0 < mx ->
  fexp prec emax (Zpos (digits2_pos m) + e) = e ->
  Zpos m * 2 ^ (e - Z.min e ex) <= mx * 2 ^ (ex - Z.min e ex) ->
  binary_round_aux prec emax false mx ex lx = S754_infinity false \/
  exists m' e',
    binary_round_aux prec emax false mx ex lx = S754_finite false m' e' /\
    (e < e' \/ (e = e' /\ Zpos m <= Zpos m')).
Proof.
  intros Hmx Hcan Hle.
  set (c := Z.min e ex) in *.
  assert (Hdle : Zpos (digits2_pos m) + e <= Zdigits2 mx + ex).
  { pose proof (Zdigits2_le (Zpos m * 2 ^ (e - c)) (mx * 2 ^ (ex - c))) as H.
    rewrite (Zdigits2_mul_pow (Zpos m)), (Zdigits2_mul_pow mx) in H by lia.
    cbn [Zdigits2] in H.
    assert (0 < 2 ^ (e - c)) by (apply Z.pow_pos_nonneg; lia).
    specialize (H ltac:(nia) Hle). lia. }
  assert (Hpos : SFltb (S754_zero false)
                   (binary_round_aux prec emax false mx ex lx) = true).
  { apply binary_round_aux_positive; [assumption|].
    rewrite fexp_eq in Hcan. lia. }
  destruct (binary_round_aux_spec false mx ex lx ltac:(lia)) as (q' & Hq & E).
  rewrite E in Hpos |- *. clear E.
  set (n1 := Z.max 0 (fexp prec emax (Zdigits2 mx + ex) - ex)) in *.
  set (n2 := Z.max 0 (fexp prec emax (Zdigits2 q' + (ex + n1)) - (ex + n1))) in *.
  assert (HE1 : e <= ex + n1).
  { subst n1. rewrite fexp_eq in *. lia. }
  assert (Hn2 : 0 <= n2) by (subst n2; lia).
  assert (Hn1' : 0 <= n1) by (subst n1; lia).
  clearbody n1 n2.
  destruct (q' / 2 ^ n2) as [|p|p] eqn:Ep; [discriminate Hpos| |discriminate Hpos].
  destruct (ex + n1 + n2 <=? emax - prec); [right | now left].
  exists p, (ex + n1 + n2). split; [reflexivity|].
  destruct (Z.eq_dec e (ex + n1 + n2)) as [Ee|Ee]; [right | left; lia].
  split; [assumption|].
  assert (Hn20 : n2 = 0) by lia. rewrite Hn20 in Ep. cbn in Ep.
  rewrite Z.div_1_r in Ep. subst q'.
  assert (Hex : ex <= e) by lia.
  assert (Hc : c = ex) by (subst c; lia). rewrite Hc, Z.sub_diag in Hle.
  change (2 ^ 0) with 1 in Hle. rewrite Z.mul_1_r in Hle.
  assert (Hn1 : n1 = e - ex) by lia.
  assert (Hq1 : Zpos m <= mx / 2 ^ n1).
  { apply Z.div_le_lower_bound; [apply Z.pow_pos_nonneg; lia|].
    rewrite Hn1, Z.mul_comm. exact Hle. }
  lia.
Qed.

Lemma binary_round_above X ex m e :
  fexp prec emax (Zpos (digits2_pos m) + e) = e ->
  Zpos m * 2 ^ (e - Z.min e ex) <= Zpos X * 2 ^ (ex - Z.min e ex) ->
  binary_round prec emax false X ex = S754_infinity false \/
  exists m' e',
    binary_round prec emax false X ex = S754_finite false m' e' /\
    (e < e' \/ (e = e' /\ Zpos m <= Zpos m')).
Proof.
  intros Hcan Hle. unfold binary_round.
  pose proof (shl_align_spec X ex (fexp prec emax (Zpos (digits2_pos X) + ex)))
    as [H1 H2].
  destruct (shl_align _ _ _) as [mz ez]. cbn [fst snd] in H1, H2.
  set (k := Z.max 0 (ex - fexp prec emax (Zpos (digits2_pos X) + ex))) in *.
  assert (Hk : 0 <= k) by (subst k; lia).
  apply binary_round_aux_above; [lia|assumption|].
  rewrite H1, H2.
  set (c := Z.min e ex) in *. set (c' := Z.min e (ex - k)).
  assert (Hcc : c' <= c) by (subst c c'; lia).
  replace (e - c') with ((e - c) + (c - c')) by lia.
  replace (ex - k - c') with ((ex - c) + (c - c') - k) by lia.
  assert (Hck : k <= (ex - c) + (c - c')) by (subst c c'; lia).
  rewrite Z.pow_add_r by (subst c c'; lia).
  assert (E : Zpos X * 2 ^ k * 2 ^ (ex - c + (c - c') - k) =
              Zpos X * 2 ^ (ex - c) * 2 ^ (c - c')).
  { rewrite <- !Z.mul_assoc, <- !Z.pow_add_r by (subst c c'; lia).
    do 2 f_equal. lia. }
  rewrite E.
  assert (0 < 2 ^ (c - c')) by (apply Z.pow_pos_nonneg; lia).
  nia.
Qed.

(** The quotient of a number by a positive number that is not above it is
    at least one. *)
Lemma SFdiv_ge_one m1 e1 m2 e2 :
  valid_binary (S754_finite false m1 e1) = true ->
  valid_binary (S754_finite false m2 e2) = true ->
  SFleb (S754_finite false m2 e2) (S754_finite false m1 e1) = true ->
  SFleb (S754_finite false 4503599627370496 (-52))
    (SF64div (S754_finite false m1 e1) (S754_finite false m2 e2)) = true.
Proof.
  intros V1 V2 Hle. destruct (valid_finite _ _ _ V1) as [C1 _].
  destruct (valid_finite _ _ _ V2) as [C2 _]. apply SFleb_finite in Hle.
  assert (He : e2 <= e1) by lia.
  pose proof (canonical_le m2 e2 m1 e1 e2 C2 C1 Hle ltac:(lia) He) as Hreal.
  rewrite Z.sub_diag in Hreal. change (2 ^ 0) with 1 in Hreal.
  rewrite Z.mul_1_r in Hreal.
  pose proof (digits2_pos_bounds m1) as [D1 _].
  pose proof (digits2_pos_bounds m2) as [_ D2].
  unfold SF64div, SFdiv, SFdiv_core_binary. cbn [xorb Zdigits2].
  set (d1 := Zpos (digits2_pos m1)) in *. set (d2 := Zpos (digits2_pos m2)) in *.
  set (e' := Z.min (fexp prec emax (d1 + e1 - (d2 + e2))) (e1 - e2)).
  set (s := e1 - e2 - e').
  assert (Hs : 0 <= s) by (subst s e'; lia).
  set (m' := match s with
             | 0 => Zpos m1
             | Zpos _ => Z.shiftl (Zpos m1) s
             | Zneg _ => 0
             end).
  assert (Hm' : m' = Zpos m1 * 2 ^ s).
  { subst m'. destruct s as [|p|p]; [cbn; lia| |lia].
    now rewrite Z.shiftl_mul_pow2 by lia. }
  assert (Hbig : if e' <=? 0 then Zpos m2 * 2 ^ (- e') <= m' else Zpos m2 <= m').
  { rewrite Hm'. destruct (e' <=? 0) eqn:E.
    - apply Z.leb_le in E. replace s with ((e1 - e2) + (- e')) by (subst s; lia).
      rewrite Z.pow_add_r, Z.mul_assoc by lia.
      apply Z.mul_le_mono_nonneg_r; [apply Z.pow_nonneg; lia | exact Hreal].
    - apply Z.leb_gt in E.
      assert (He' : e' <= d1 + e1 - (d2 + e2) - 53).
      { subst e'. rewrite fexp_eq in *. lia. }
      assert (Hs' : 53 - d1 + d2 <= s) by (subst s; lia).
      assert (Hd1 : 0 < d1) by (subst d1; lia).
      assert (Hd2 : 0 < d2) by (subst d2; lia).
      assert (Hd1' : d1 <= 53) by (rewrite fexp_eq in C1; subst d1; lia).
      assert (H1 : 2 ^ (53 - d1 + d2) <= 2 ^ s) by (apply Z.pow_le_mono_r; lia).
      assert (H2 : 2 ^ (d1 - 1) * 2 ^ (53 - d1 + d2) = 2 ^ (52 + d2)).
      { rewrite <- Z.pow_add_r by lia. f_equal. lia. }
      assert (H3 : 2 ^ d2 <= 2 ^ (52 + d2)) by (apply Z.pow_le_mono_r; lia).
      assert (H4 : 0 < 2 ^ (53 - d1 + d2)) by (apply Z.pow_pos_nonneg; lia).
      nia. }
  clearbody m'.
  assert (Hq : if e' <=? 0 then 2 ^ (- e') <= m' / Zpos m2 else 1 <= m' / Zpos m2).
  { destruct (e' <=? 0); apply Z.div_le_lower_bound; lia. }
  pose proof (Z.div_pos m' (Zpos m2)) as Hq0. unfold Z.div in Hq, Hq0.
  destruct (Z.div_eucl m' (Zpos m2)) as [q r].
  assert (Hqpos : 0 < q).
  { destruct (e' <=? 0) eqn:E; [|lia]. apply Z.leb_le in E.
    assert (0 < 2 ^ (- e')) by (apply Z.pow_pos_nonneg; lia). lia. }
  destruct (binary_round_aux_above q e' (new_location (Zpos m2) r)
              4503599627370496 (-52) Hqpos eq_refl) as [->|(m'' & e'' & -> & H)];
    [|reflexivity|now apply SFleb_finite].
  clearbody e'. change (Zpos 4503599627370496) with (2 ^ 52).
  destruct (e' <=? 0) eqn:E.
  - apply Z.leb_le in E. destruct (Z_le_gt_dec e' (-52)) as [L|G].
    + replace (Z.min (-52) e') with e' by lia. rewrite Z.sub_diag.
      change (2 ^ 0) with 1. rewrite Z.mul_1_r, <- Z.pow_add_r by lia.
      replace (52 + (-52 - e')) with (- e') by lia. exact Hq.
    + replace (Z.min (-52) e') with (-52) by lia. rewrite Z.sub_diag.
      change (2 ^ 0) with 1. rewrite Z.mul_1_r.
      assert (H1 : 2 ^ 52 = 2 ^ (- e') * 2 ^ (e' - -52)).
      { rewrite <- Z.pow_add_r by lia. f_equal. lia. }
      rewrite H1. apply Z.mul_le_mono_nonneg_r; [apply Z.pow_nonneg; lia | exact Hq].
  - apply Z.leb_gt in E. replace (Z.min (-52) e') with (-52) by lia.
    rewrite Z.sub_diag. change (2 ^ 0) with 1. rewrite Z.mul_1_r.
    assert (H1 : 2 ^ 52 <= 2 ^ (e' - -52)) by (apply Z.pow_le_mono_r; lia).
    assert (H2 : 0 < 2 ^ 52) by reflexivity. nia.
Qed.

(** The product of a number that is at least one and a positive number is
    not below that number. *)
Lemma SFmul_ge q mN eN :
  valid_binary q = true ->
  fexp prec emax (Zpos (digits2_pos mN) + eN) = eN ->
  SFleb (S754_finite false 4503599627370496 (-52)) q = true ->
  SFleb (S754_finite false mN eN) (SF64mul q (S754_finite false mN eN)) = true.
Proof.
  intros Vq CN Hq.
  destruct q as [s|[]| |[] mq eq]; try discriminate Hq; [reflexivity|].
  destruct (valid_finite _ _ _ Vq) as [Cq _]. apply SFleb_finite in Hq.
  pose proof (digits2_pos_bounds mq) as [Dq _].
  assert (Hmq : 2 ^ 52 <= Zpos mq).
  { destruct (Z.eq_dec eq (-52)) as [E|E]; [change (2 ^ 52) with 4503599627370496; lia|].
    rewrite fexp_eq in Cq.
    assert (Hd : Zpos (digits2_pos mq) = 53) by lia.
    rewrite Hd in Dq. exact Dq. }
  unfold SF64mul, SFmul. cbn [xorb].
  destruct (binary_round_aux_above (Zpos (mq * mN)) (eq + eN) loc_Exact mN eN
              ltac:(lia) CN) as [->|(m'' & e'' & -> & H)];
    [|reflexivity|now apply SFleb_finite].
  rewrite Pos2Z.inj_mul. destruct (Z_le_gt_dec 0 eq) as [L|G].
  - replace (Z.min eN (eq + eN)) with eN by lia. rewrite Z.sub_diag.
    change (2 ^ 0) with 1. replace (eq + eN - eN) with eq by lia.
    assert (HP : 1 <= 2 ^ eq) by (apply (Z.pow_le_mono_r 2 0); lia).
    assert (H0 : 0 < 2 ^ 52) by reflexivity.
    assert (HA : Zpos mN <= Zpos mq * Zpos mN) by nia.
    assert (HB : Zpos mq * Zpos mN <= Zpos mq * Zpos mN * 2 ^ eq) by nia.
    lia.
  - replace (Z.min eN (eq + eN)) with (eq + eN) by lia. rewrite Z.sub_diag.
    change (2 ^ 0) with 1. replace (eN - (eq + eN)) with (- eq) by lia.
    assert (HP : 2 ^ (- eq) <= 2 ^ 52) by (apply Z.pow_le_mono_r; lia).
    assert (H0 : 0 < 2 ^ (- eq)) by (apply Z.pow_pos_nonneg; lia).
    rewrite (Z.mul_comm (Zpos mq)), Z.mul_1_r.
    apply Z.mul_le_mono_nonneg_l; lia.
Qed.

(** Adding a number that is not negative does not lead below. *)
Lemma SFadd_ge t a mN eN :
  valid_binary a = true ->
  fexp prec emax (Zpos (digits2_pos mN) + eN) = eN ->
  SFleb (S754_zero false) t = true ->
  SFleb (S754_finite false mN eN) a = true ->
  SFleb (S754_finite false mN eN) (SF64add t a) = true.
Proof.
  intros Va CN Ht Ha.
  destruct a as [sa|[]| |[] ma ea]; try discriminate Ha.
  - destruct (SFleb_zero_cases t Ht) as [[s ->]|[(mt & et & ->)| ->]]; reflexivity.
  - destruct (valid_finite _ _ _ Va) as [Ca _].
    destruct (SFleb_zero_cases t Ht) as [[s ->]|[(mt & et & ->)| ->]];
      [exact Ha| |reflexivity].
    apply SFleb_finite in Ha.
    unfold SF64add, SFadd. cbn [cond_Zopp].
    set (ez := Z.min et ea).
    pose proof (shl_align_spec mt et ez) as [H1 _].
    pose proof (shl_align_spec ma ea ez) as [H2 _].
    replace (Z.max 0 (ea - ez)) with (ea - ez) in H2 by (subst ez; lia).
    rewrite H1, H2.
    assert (Hpt : 0 < 2 ^ Z.max 0 (et - ez)) by (apply Z.pow_pos_nonneg; lia).
    assert (Hpa : 0 < 2 ^ (ea - ez)) by (apply Z.pow_pos_nonneg; subst ez; lia).
    destruct (Zpos mt * 2 ^ Z.max 0 (et - ez) + Zpos ma * 2 ^ (ea - ez))
      as [|X|X] eqn:EX; [nia| |nia].
    cbn [binary_normalize].
    destruct (binary_round_above X ez mN eN CN) as [->|(m'' & e'' & -> & H)];
      [|reflexivity|now apply SFleb_finite].
    set (c := Z.min eN ez).
    pose proof (canonical_le mN eN ma ea c CN Ca Ha ltac:(subst c; lia)
                  ltac:(subst c ez; lia)) as Hreal.
    assert (E : Zpos ma * 2 ^ (ea - c) = Zpos ma * 2 ^ (ea - ez) * 2 ^ (ez - c)).
    { rewrite <- Z.mul_assoc, <- Z.pow_add_r by (subst c ez; lia).
      do 2 f_equal. lia. }
    rewrite E in Hreal.
    assert (Hpc : 0 < 2 ^ (ez - c)) by (apply Z.pow_pos_nonneg; subst c; lia).
    rewrite <- EX. nia.
Qed.

(** ** The token bucket on binary64 *)

Section TokenBucket64.
Import RateLimiter64.

Lemma leb_zero x : (0 <=? x)%float = SFleb (S754_zero false) (Prim2SF x).
Proof. now rewrite FloatAxioms.leb_spec. Qed.

Lemma ltb_zero x : (0 <? x)%float = SFltb (S754_zero false) (Prim2SF x).
Proof. now rewrite FloatAxioms.ltb_spec. Qed.

Lemma ltb_infinity x :
  (x <? infinity)%float = SFltb (Prim2SF x) (S754_infinity false).
Proof. now rewrite FloatAxioms.ltb_spec. Qed.

Lemma ltb_one x :
  (x <? 1)%float =
  SFltb (Prim2SF x) (S754_finite false 4503599627370496 (-52)).
Proof. now rewrite FloatAxioms.ltb_spec. Qed.

Lemma number_range z :
  0 <= z ->
  SFleb (S754_zero false) (Prim2SF (number z)) = true /\
  SFltb (Prim2SF (number z)) (S754_infinity false) = true.
Proof.
  intros Hz. unfold number.
  assert (E : (z <? 0) = false) by (apply Z.ltb_ge; lia). rewrite E.
  rewrite of_uint63_spec. apply binary_normalize_int.
  pose proof (Uint63.to_Z_bounded (Uint63.of_Z z)) as H. exact H.
Qed.

Lemma periodMs_positive cfg :
  (0 <? periodHours cfg)%float = true -> (0 <? periodMs cfg)%float = true.
Proof.
  rewrite !ltb_zero. intros H. unfold periodMs.
  rewrite (FloatAxioms.mul_spec (periodHours cfg * 3600) 1000).
  change (Prim2SF 1000) with (S754_finite false 8796093022208000 (-43)).
  apply SFmul_positive; [apply Prim2SF_valid| |discriminate|discriminate].
  rewrite FloatAxioms.mul_spec.
  change (Prim2SF 3600) with (S754_finite false 7916483719987200 (-41)).
  apply SFmul_positive; [apply Prim2SF_valid|assumption|discriminate|discriminate].
Qed.

Lemma SFeqb_refl x : SFleb (S754_zero false) x = true -> SFeqb x x = true.
Proof.
  intros H. destruct (SFleb_zero_cases x H) as [[s ->]|[(m & e & ->)| ->]];
    try reflexivity.
  unfold SFeqb, SFcompare. now rewrite Z.compare_refl, Pos.compare_cont_refl.
Qed.

Lemma SFleb_of_not_ltb m e y :
  SFleb (S754_zero false) y = true ->
  SFltb (S754_finite false m e) y = false ->
  SFleb y (S754_finite false m e) = true.
Proof.
  intros Hy. destruct (SFleb_zero_cases y Hy) as [[s ->]|[(my & ey & ->)| ->]];
    [reflexivity| |discriminate].
  intros H. apply SFleb_finite.
  assert (N : ~ (e < ey \/ (e = ey /\ Zpos m < Zpos my)))
    by (intros C; apply SFltb_finite in C; congruence).
  lia.
Qed.

Lemma mathMin_range N b mN eN :
  Prim2SF N = S754_finite false mN eN ->
  SFleb (S754_zero false) (Prim2SF b) = true ->
  SFleb (S754_zero false) (Prim2SF (mathMin N b)) = true /\
  SFleb (Prim2SF (mathMin N b)) (Prim2SF N) = true.
Proof.
  intros HN Hb. unfold mathMin, is_nan. rewrite !FloatAxioms.eqb_spec, !FloatAxioms.ltb_spec, HN.
  assert (Hrefl : SFleb (S754_finite false mN eN) (S754_finite false mN eN) = true)
    by (apply SFleb_finite; lia).
  rewrite (SFeqb_refl (Prim2SF b) Hb).
  assert (E : SFeqb (S754_finite false mN eN) (S754_finite false mN eN) = true)
    by (now apply SFeqb_refl).
  rewrite E. cbn [negb orb].
  destruct (SFltb (S754_finite false mN eN) (Prim2SF b)) eqn:E1.
  { rewrite HN. now split. }
  pose proof (SFleb_of_not_ltb mN eN (Prim2SF b) Hb E1) as Hle.
  destruct (SFltb (Prim2SF b) (S754_finite false mN eN)); [now split|].
  destruct (get_sign N); [rewrite HN|]; now split.
Qed.

Lemma limit_finite N :
  (1 <=? N)%float = true -> (N <? infinity)%float = true ->
  exists mN eN, Prim2SF N = S754_finite false mN eN.
Proof.
  rewrite FloatAxioms.leb_spec, ltb_infinity.
  change (Prim2SF 1) with (S754_finite false 4503599627370496 (-52)).
  destruct (Prim2SF N) as [s|[]| |[] m e]; try discriminate; eauto.
Qed.

(** The refilled count is in range. *)
Lemma refill_in_range64 cfg r now :
  (1 <=? requestLimit cfg)%float = true ->
  (requestLimit cfg <? infinity)%float = true ->
  (0 <? periodHours cfg)%float = true ->
  (0 <=? tokens r)%float = true -> lastRefill r <= now ->
  (0 <=? refill cfg r now)%float = true /\
  (refill cfg r now <=? requestLimit cfg)%float = true.
Proof.
  intros HN Hfin HP Ht Hclock.
  destruct (limit_finite _ HN Hfin) as (mN & eN & HNsf).
  apply periodMs_positive in HP. rewrite ltb_zero in HP.
  rewrite leb_zero in Ht. rewrite leb_zero, FloatAxioms.leb_spec. unfold refill.
  apply (mathMin_range _ _ mN eN HNsf).
  rewrite FloatAxioms.add_spec. apply SFadd_nonneg; [assumption|].
  rewrite FloatAxioms.mul_spec, HNsf. apply SFmul_nonneg.
  rewrite FloatAxioms.div_spec.
  destruct (number_range (now - lastRefill r) ltac:(lia)) as [H1 H2].
  now apply SFdiv_nonneg.
Qed.

(** Taking the token of a request that passes keeps the count in range. *)
Lemma consume_in_range64 x N :
  (0 <=? x)%float = true -> (x <=? N)%float = true ->
  (N <? infinity)%float = true -> (x <? 1)%float = false ->
  (0 <=? x - 1)%float = true /\ (x - 1 <=? N)%float = true.
Proof.
  rewrite !leb_zero, !FloatAxioms.leb_spec, ltb_infinity, ltb_one, FloatAxioms.sub_spec.
  change (Prim2SF 1) with (S754_finite false 4503599627370496 (-52)).
  intros H0 HxN HN Hge. pose proof (Prim2SF_valid x) as Hv.
  destruct (SFleb_zero_cases _ H0) as [[s E]|[(m & e & E)| E]]; rewrite E in *.
  - discriminate Hge.
  - destruct (SFsub_one_range m e Hv Hge) as [Y0 Yx].
    split; [exact Y0|]. now apply (SFleb_trans _ (S754_finite false m e)).
  - destruct (Prim2SF N) as [s|[]| |[] mN eN]; discriminate.
Qed.

End TokenBucket64.

(** C5, as amended.  An admission step of the rate limiter on a request
    that is neither exempt nor on the allow list nor on the deny list, with
    [1 <= requestLimit < Infinity], [periodHours > 0], clock readings that
    are integers of [0 .. 2^53) and have not gone back since the last
    refill, and a bucket in range before the step, leaves the bucket of the
    normalised IP with [0 <= tokens <= requestLimit], all in binary64.  The
    refill is [min(requestLimit, tokens + (elapsed / periodMs) *
    requestLimit)] with [periodMs = periodHours * 3600 * 1000], each
    operation rounded; one token is taken exactly when the refilled count
    is not below 1, and otherwise the answer is 429 and the refilled count
    stays.  No other bucket changes. *)
Theorem admission_keeps_tokens_in_range
    (cfg : RateLimiter64.config) (req : RateLimiter.request) (now : Z)
    (ipRecords : JsMap.t RateLimiter64.record) (key : string) :
  let cleanIP := RateLimiter.stripBrackets (RateLimiter.extractIP req) in
  let N := RateLimiter64.requestLimit cfg in
  (1 <=? N)%float = true -> (N <? infinity)%float = true ->
  (0 <? RateLimiter64.periodHours cfg)%float = true ->
  0 <= now < 2 ^ 53 ->
  RateLimiter.exempt (RateLimiter.path req) = false ->
  RateLimiter.isIPInList cleanIP (RateLimiter64.blackList cfg) = false ->
  RateLimiter.isIPInList cleanIP (RateLimiter64.whiteList cfg) = false ->
  RateLimiter.normalizeIP cleanIP = Some key ->
  (forall r, JsMap.get ipRecords key = Some r ->
     (0 <=? RateLimiter64.tokens r)%float = true /\
     (RateLimiter64.tokens r <=? N)%float = true /\
     0 <= RateLimiter64.lastRefill r <= now) ->
  let before := match JsMap.get ipRecords key with
                | Some r => r
                | None => RateLimiter64.mkRecord N now now
                end in
  let elapsed := RateLimiter64.number (now - RateLimiter64.lastRefill before) in
  let refilled :=
    RateLimiter64.mathMin N
      (RateLimiter64.tokens before +
       elapsed / (RateLimiter64.periodHours cfg * 3600 * 1000) * N)%float in
  exists d ipRecords' after,
    RateLimiter64.rateLimiter cfg req now ipRecords = Some (d, ipRecords') /\
    JsMap.get ipRecords' key = Some after /\
    (0 <=? RateLimiter64.tokens after)%float = true /\
    (RateLimiter64.tokens after <=? N)%float = true /\
    ((refilled <? 1)%float = false ->
       d = RateLimiter.Next /\
       RateLimiter64.tokens after = (refilled - 1)%float) /\
    ((refilled <? 1)%float = true ->
       d = RateLimiter.Respond 429 /\ RateLimiter64.tokens after = refilled) /\
    RateLimiter64.lastRefill after = now /\
    (forall k, k <> key -> JsMap.get ipRecords' k = JsMap.get ipRecords k).
Proof.
  intros cleanIP N HN Hfin HP Hnow Hex Hbl Hwl Hnorm Hin before elapsed refilled.
  assert (Hb : (0 <=? RateLimiter64.tokens before)%float = true /\
               (RateLimiter64.tokens before <=? N)%float = true /\
               RateLimiter64.lastRefill before <= now).
  { subst before. destruct (JsMap.get ipRecords key) as [r|].
    - destruct (Hin r eq_refl) as (H1 & H2 & H3). repeat split; try assumption; lia.
    - cbn [RateLimiter64.tokens RateLimiter64.lastRefill].
      destruct (limit_finite _ HN Hfin) as (mN & eN & E).
      rewrite leb_zero, FloatAxioms.leb_spec, E. repeat split; try reflexivity; try lia.
      apply SFleb_finite. lia. }
  destruct Hb as (Hlo & Hhi & Hclock).
  destruct (refill_in_range64 cfg before now HN Hfin HP Hlo Hclock) as [Rlo Rhi].
  change (RateLimiter64.refill cfg before now) with refilled in Rlo, Rhi.
  assert (Hrun : RateLimiter64.rateLimiter cfg req now ipRecords =
                 Some (RateLimiter64.bucketStep cfg ipRecords key now)).
  { unfold RateLimiter64.rateLimiter. rewrite Hex. fold cleanIP.
    now rewrite Hbl, Hwl, Hnorm. }
  assert (Hstep : RateLimiter64.bucketStep cfg ipRecords key now =
            if (refilled <? 1)%float
            then (RateLimiter.Respond 429,
                  JsMap.set ipRecords key (RateLimiter64.mkRecord refilled now now))
            else (RateLimiter.Next,
                  JsMap.set ipRecords key
                    (RateLimiter64.mkRecord (refilled - 1)%float now now)))
    by reflexivity.
  rewrite Hrun, Hstep.
  destruct (refilled <? 1)%float eqn:Hlt.
  - do 3 eexists. split; [reflexivity|].
    split; [apply jsmap_get_set_same|]. cbn [RateLimiter64.tokens RateLimiter64.lastRefill].
    repeat split; try assumption; try discriminate.
    intros k Hk. now apply jsmap_get_set_other.
  - destruct (consume_in_range64 refilled N Rlo Rhi Hfin Hlt) as [Clo Chi].
    do 3 eexists. split; [reflexivity|].
    split; [apply jsmap_get_set_same|]. cbn [RateLimiter64.tokens RateLimiter64.lastRefill].
    repeat split; try assumption; try discriminate.
    intros k Hk. now apply jsmap_get_set_other.
Qed.

Lemma admission_keeps_tokens_in_range_witness :
  let cfg := RateLimiter64.mkConfig 2 1 ["127.0.0.1"; "192.168.0.0/16"]
               ["198.51.100.0/24"] in
  let req := RateLimiter.mkRequest "/v2/nginx/manifests/alpine"
               (Some "203.0.113.5") None (Some "::ffff:10.0.0.1") None in
  let ipRecords := [("203.0.113.5", RateLimiter64.mkRecord 0.5 0 0)] in
  exists d ipRecords' after,
    RateLimiter64.rateLimiter cfg req 1800000 ipRecords = Some (d, ipRecords') /\
    JsMap.get ipRecords' "203.0.113.5" = Some after /\
    (0 <=? RateLimiter64.tokens after)%float = true /\
    (RateLimiter64.tokens after <=? 2)%float = true /\
    d = RateLimiter.Next /\ RateLimiter64.tokens after = 0.5%float.
Proof.
  intros cfg req ipRecords.
  assert (Hin : forall r, JsMap.get ipRecords "203.0.113.5" = Some r ->
                  (0 <=? RateLimiter64.tokens r)%float = true /\
                  (RateLimiter64.tokens r <=? RateLimiter64.requestLimit cfg)%float = true /\
                  0 <= RateLimiter64.lastRefill r <= 1800000).
  { intros r Hr. vm_compute in Hr. injection Hr as <-.
    split; [reflexivity|]. split; [reflexivity|]. cbn. lia. }
  destruct (admission_keeps_tokens_in_range cfg req 1800000 ipRecords
              "203.0.113.5" eq_refl eq_refl eq_refl ltac:(lia) eq_refl
              eq_refl eq_refl eq_refl Hin)
    as (d & recs' & after & Hrun & Hget & Hlo & Hhi & Hnext & _).
  destruct (Hnext eq_refl) as [Hd Ht].
  exists d, recs', after.
  split; [exact Hrun|]. split; [exact Hget|]. split; [exact Hlo|].
  split; [exact Hhi|]. split; [exact Hd|]. exact Ht.
Defined.

(** C5 as stated fails without an assumption on the period and with a
    limit that is not finite; [config.toml] is read without validation.
    With [periodHours = 0] the first request of a client computes [0 / 0]:
    the count becomes [NaN], the request passes, and so does every later
    one.  With a negative period a bucket in range falls below zero.  With
    [requestLimit = Infinity] the first request computes [0 * Infinity]. *)
Lemma unchecked_period_leaves_the_range :
  let req := RateLimiter.mkRequest "/v2/nginx/manifests/alpine" None None
               (Some "203.0.113.5") None in
  let outcome cfg now ipRecords :=
    match RateLimiter64.rateLimiter cfg req now ipRecords with
    | Some (d, ipRecords') =>
        match JsMap.get ipRecords' "203.0.113.5" with
        | Some after =>
            Some (d, (0 <=? RateLimiter64.tokens after)%float,
                  (RateLimiter64.tokens after <=? RateLimiter64.requestLimit cfg)%float)
        | None => None
        end
    | None => None
    end in
  outcome (RateLimiter64.mkConfig 500 0 [] []) 1000 [] =
    Some (RateLimiter.Next, false, false) /\
  outcome (RateLimiter64.mkConfig 2 (-1) [] []) 3600000
    [("203.0.113.5", RateLimiter64.mkRecord 0.5 0 0)] =
    Some (RateLimiter.Respond 429, false, true) /\
  outcome (RateLimiter64.mkConfig infinity 3 [] []) 1000 [] =
    Some (RateLimiter.Next, false, false).
Proof.
  vm_compute. repeat split.
Qed.

(** The count is the rounded one: with one token per half hour, a bucket
    holding the binary64 number next to 0.6 is refilled after 12 minutes
    to exactly 1, and the request passes.  (With the quotient
    [720000 / 1800000] taken exactly, as 2/5, the sum would stay below 1.) *)
Example scenario_rounded_refill :
  let cfg := RateLimiter64.mkConfig 1 0.5 [] [] in
  let r := RateLimiter64.mkRecord (6 / 10) 0 0 in
  RateLimiter64.refill cfg r 720000 = 1%float /\
  fst (RateLimiter64.bucketStep cfg [("203.0.113.5", r)] "203.0.113.5" 720000) =
    RateLimiter.Next.
Proof. vm_compute. split; reflexivity. Qed.

(** ** Strings: basic facts *)

Lemma append_nil_r (s : string) : s ++ "" = s.
Proof. induction s as [|c s IH]; simpl; [reflexivity | now rewrite IH]. Qed.

Lemma append_assoc (s t u : string) : (s ++ t) ++ u = s ++ (t ++ u).
Proof. induction s as [|c s IH]; simpl; [reflexivity | now rewrite IH]. Qed.

Lemma length_append (s t : string) :
  String.length (s ++ t) = (String.length s + String.length t)%nat.
Proof. induction s as [|c s IH]; simpl; [reflexivity | now rewrite IH]. Qed.

Lemma isPrefix_append (p s : string) : Js.isPrefix p (p ++ s) = true.
Proof.
  induction p as [|c p IH]; simpl; [reflexivity|].
  now rewrite Ascii.eqb_refl.
Qed.

Lemma drop_append (p s : string) : Js.drop (String.length p) (p ++ s) = s.
Proof. induction p as [|c p IH]; simpl; [now destruct s | assumption]. Qed.

(** ** Strings: [split], [join] and [includes] *)

Section SplitJoin.
Variable sep : ascii.

Lemma split_not_nil s : Js.split s sep <> [].
Proof.
  induction s as [|c s IH]; simpl; [discriminate|].
  destruct (Ascii.eqb c sep); [discriminate|].
  destruct (Js.split s sep); [easy | discriminate].
Qed.

Lemma split_app s t :
  Js.split (s ++ String sep t) sep = (Js.split s sep ++ Js.split t sep)%list.
Proof.
  induction s as [|c s IH]; simpl.
  - now rewrite Ascii.eqb_refl.
  - destruct (Ascii.eqb c sep); [now rewrite IH|].
    rewrite IH. pose proof (split_not_nil s) as Hn.
    destruct (Js.split s sep); [easy | reflexivity].
Qed.

Lemma split_plain s : hasChar sep s = false -> Js.split s sep = [s].
Proof.
  induction s as [|c s IH]; simpl; [reflexivity|].
  intros H. apply orb_false_iff in H. destruct H as [Hc Hs].
  rewrite Hc, (IH Hs). reflexivity.
Qed.

Lemma split_join parts :
  parts <> [] -> List.forallb (fun p => negb (hasChar sep p)) parts = true ->
  Js.split (Js.join parts (String sep "")) sep = parts.
Proof.
  induction parts as [|p rest IH]; [easy|]. intros _ Hall.
  simpl in Hall. apply andb_true_iff in Hall. destruct Hall as [Hp Hrest].
  apply negb_true_iff in Hp.
  destruct rest as [|q rest'].
  - simpl. now apply split_plain.
  - change (Js.join (p :: q :: rest') (String sep ""))
      with (p ++ String sep (Js.join (q :: rest') (String sep ""))).
    rewrite split_app, (split_plain p Hp), IH; [reflexivity | discriminate | assumption].
Qed.
End SplitJoin.

Lemma includes_char s c :
  Js.includes s (String c "") = hasChar c s.
Proof.
  induction s as [|d s IH]; simpl; [reflexivity|].
  rewrite IH. destruct (Ascii.ascii_dec c d) as [->|Hne].
  - now rewrite Ascii.eqb_refl.
  - destruct (Ascii.eqb d c) eqn:E; [apply Ascii.eqb_eq in E; congruence|].
    rewrite Ascii.eqb_sym, E. reflexivity.
Qed.

Lemma append_inv_tail (s s' t : string) : s ++ t = s' ++ t -> s = s'.
Proof.
  intros H.
  assert (Hlen : String.length s = String.length s').
  { apply (f_equal String.length) in H. rewrite !length_append in H. lia. }
  revert s' H Hlen. induction s as [|c s IH]; intros [|c' s'] H Hlen;
    simpl in *; try discriminate; [reflexivity|].
  injection H as -> H. f_equal. apply IH; [assumption | lia].
Qed.

(** ** Hexadecimal groups *)

Section HexGroups.
Import Ipv6Text.

Lemma digitOf_range radix c d :
  0 < radix -> Js.digitOf radix c = Some d -> 0 <= d < radix.
Proof.
  unfold Js.digitOf. intros Hr.
  destruct ((48 <=? Js.code c) && (Js.code c <=? 57)) eqn:E1.
  - apply andb_true_iff in E1. destruct E1 as [A B].
    apply Z.leb_le in A. destruct (Z.ltb_spec (Js.code c - 48) radix); intros [= <-]. lia.
  - destruct ((97 <=? Js.code c) && (Js.code c <=? 122)) eqn:E2.
    + apply andb_true_iff in E2. destruct E2 as [A B].
      apply Z.leb_le in A. destruct (Z.ltb_spec (Js.code c - 87) radix); intros [= <-]. lia.
    + destruct ((65 <=? Js.code c) && (Js.code c <=? 90)) eqn:E3.
      * apply andb_true_iff in E3. destruct E3 as [A B].
        apply Z.leb_le in A. destruct (Z.ltb_spec (Js.code c - 55) radix); intros [= <-]. lia.
      * rewrite Z.ltb_irrefl. discriminate.
Qed.

Lemma digitValue_range c : 0 <= digitValue 16 c < 16.
Proof.
  unfold digitValue. destruct (Js.digitOf 16 c) as [d|] eqn:E; [|lia].
  apply (digitOf_range 16 c d); [lia | assumption].
Qed.

Lemma valueFrom_bounds s acc :
  0 <= acc ->
  acc * 16 ^ Z.of_nat (String.length s) <= valueFrom 16 acc s
    < (acc + 1) * 16 ^ Z.of_nat (String.length s).
Proof.
  revert acc. induction s as [|c s IH]; intros acc Hacc.
  - simpl. lia.
  - cbn [valueFrom String.length]. rewrite Nat2Z.inj_succ, Z.pow_succ_r by lia.
    pose proof (digitValue_range c) as Hd.
    specialize (IH (acc * 16 + digitValue 16 c) ltac:(lia)).
    assert (Hp : 0 < 16 ^ Z.of_nat (String.length s)) by (apply Z.pow_pos_nonneg; lia).
    nia.
Qed.

Lemma hexValue_range g : isHexGroup g = true -> 0 <= hexValue g < 65536.
Proof.
  unfold isHexGroup, hexValue. intros H.
  apply andb_true_iff in H. destruct H as [H _].
  apply andb_true_iff in H. destruct H as [_ H4]. apply Nat.leb_le in H4.
  pose proof (valueFrom_bounds g 0 ltac:(lia)) as [Hlo Hhi].
  split; [lia|].
  assert (16 ^ Z.of_nat (String.length g) <= 16 ^ 4)
    by (apply Z.pow_le_mono_r; lia).
  change (16 ^ 4) with 65536 in *. lia.
Qed.

(** A hexadecimal digit at the head of a string is neither white space
    nor a sign. *)
Lemma hex_head c r :
  isHexDigit c = true ->
  Js.trimStart (String c r) = String c r /\
  match String c r with
  | String "-"%char r' => (-1, r')
  | String "+"%char r' => (1, r')
  | _ => (1, String c r)
  end = (1, String c r).
Proof.
  destruct c as [[] [] [] [] [] [] [] []]; intros H;
    try (vm_compute in H; discriminate H); split; reflexivity.
Qed.

Lemma hex_no_0x s :
  allHex s = true -> Js.isPrefix "0x" s || Js.isPrefix "0X" s = false.
Proof.
  destruct s as [|c1 [|c2 s']]; try reflexivity.
  - intros _. cbn [Js.isPrefix]. now rewrite !andb_false_r.
  - intros H. cbn [allHex] in H.
    apply andb_true_iff in H. destruct H as [_ H].
    apply andb_true_iff in H. destruct H as [H2 _].
    cbn [Js.isPrefix].
    destruct (Ascii.eqb "x" c2) eqn:E1;
      [apply Ascii.eqb_eq in E1; subst c2; discriminate H2|].
    destruct (Ascii.eqb "X" c2) eqn:E2;
      [apply Ascii.eqb_eq in E2; subst c2; discriminate H2|].
    now rewrite !andb_false_r.
Qed.

Lemma takeDigits_allHex s acc :
  allHex s = true ->
  List.fold_left (fun a d => a * 16 + d) (Js.takeDigits 16 s) acc =
  valueFrom 16 acc s.
Proof.
  revert acc. induction s as [|c s IH]; intros acc H; [reflexivity|].
  simpl in H. apply andb_true_iff in H. destruct H as [Hc Hs].
  unfold isHexDigit in Hc. cbn [Js.takeDigits valueFrom]. unfold digitValue.
  destruct (Js.digitOf 16 c) as [d|]; [|discriminate].
  simpl. now apply IH.
Qed.

(** [parseInt] reads a group of hexadecimal digits as its value. *)
Lemma parseInt_hexGroup g :
  isHexGroup g = true -> Js.parseInt g 16 = Some (hexValue g).
Proof.
  unfold isHexGroup. intros H.
  apply andb_true_iff in H. destruct H as [H Hall].
  apply andb_true_iff in H. destruct H as [H1 _]. apply Nat.leb_le in H1.
  destruct g as [|c r]; [simpl in H1; lia|].
  assert (Hc : isHexDigit c = true)
    by (simpl in Hall; now apply andb_true_iff in Hall).
  destruct (hex_head c r Hc) as [Htrim Hsign].
  unfold Js.parseInt. rewrite Htrim, Hsign, (hex_no_0x _ Hall), andb_false_r.
  pose proof (takeDigits_allHex (String c r) 0 Hall) as Hv.
  unfold Js.digitsValue.
  destruct (Js.takeDigits 16 (String c r)) as [|d ds] eqn:Htd.
  - exfalso. cbn [Js.takeDigits] in Htd. unfold isHexDigit in Hc.
    destruct (Js.digitOf 16 c); discriminate.
  - rewrite Hv. unfold hexValue. f_equal. lia.
Qed.

Lemma allBelow_spec bits base P :
  allBelow bits base P = true ->
  forall v, base <= v < base + 2 ^ Z.of_nat bits -> P v = true.
Proof.
  revert base. induction bits as [|k IH]; intros base H v Hv.
  - simpl in *. assert (v = base) by lia. now subst.
  - cbn [allBelow] in H. apply andb_true_iff in H. destruct H as [Hlo Hhi].
    rewrite Nat2Z.inj_succ, Z.pow_succ_r in Hv by lia.
    destruct (Z.lt_ge_cases v (base + 2 ^ Z.of_nat k)).
    + apply (IH base Hlo). lia.
    + apply (IH _ Hhi). lia.
Qed.

Lemma word16_table : allBelow 16 0 word16_check = true.
Proof. vm_cast_no_check (@eq_refl bool true). Qed.

Lemma word16_facts v :
  0 <= v < 65536 ->
  Z.lor (Z.shiftl (Z.land (Z.shiftr v 8) 255) 8) (Z.land v 255) = v /\
  hexValue (Js.toString16 v) = v /\
  hasChar ":" (Js.toString16 v) = false.
Proof.
  intros Hv.
  pose proof (allBelow_spec 16 0 word16_check word16_table v) as H.
  change (0 + 2 ^ Z.of_nat 16) with 65536 in H. specialize (H Hv).
  unfold word16_check in H.
  apply andb_true_iff in H. destruct H as [H H3].
  apply andb_true_iff in H. destruct H as [H1 H2].
  apply Z.eqb_eq in H1, H2. apply negb_true_iff in H3. auto.
Qed.

Lemma toString16_inj v w :
  0 <= v < 65536 -> 0 <= w < 65536 ->
  Js.toString16 v = Js.toString16 w -> v = w.
Proof.
  intros Hv Hw E.
  destruct (word16_facts v Hv) as (_ & <- & _).
  destruct (word16_facts w Hw) as (_ & <- & _). now rewrite E.
Qed.
End HexGroups.

(** ** [parseIPv6] and [normalizeIP] on valid text forms *)

Section ParseIPv6.
Import Ipv6Text RateLimiter.

Lemma hexGroup_nonempty g : isHexGroup g = true -> exists c r, g = String c r.
Proof.
  destruct g as [|c r]; [discriminate|]. intros _. now exists c, r.
Qed.

Lemma hexGroup_no_colon g : isHexGroup g = true -> hasChar ":" g = false.
Proof.
  unfold isHexGroup. intros H. apply andb_true_iff in H. destruct H as [_ H].
  induction g as [|c g IH]; [reflexivity|].
  cbn [allHex] in H. apply andb_true_iff in H. destruct H as [Hc Hg].
  cbn [hasChar]. rewrite (IH Hg), orb_false_r.
  destruct (Ascii.eqb c ":") eqn:E; [|reflexivity].
  apply Ascii.eqb_eq in E. subst c. discriminate Hc.
Qed.

Lemma hexGroups_plain gs :
  List.forallb isHexGroup gs = true ->
  List.forallb (fun p => negb (hasChar ":" p)) gs = true /\
  List.forallb nonEmpty gs = true.
Proof.
  induction gs as [|g gs IH]; [easy|]. cbn [List.forallb]. intros H.
  apply andb_true_iff in H. destruct H as [Hg Hgs].
  destruct (IH Hgs) as [A B]. rewrite A, B, (hexGroup_no_colon g Hg).
  destruct (hexGroup_nonempty g Hg) as (c & r & ->). easy.
Qed.

Lemma groupBytes_hex parts i g :
  List.nth_error parts i = Some g -> isHexGroup g = true ->
  groupBytes parts i = bytesOf (hexValue g).
Proof.
  intros Hn Hg. unfold groupBytes, partOrZero. rewrite Hn.
  destruct (hexGroup_nonempty g Hg) as (c & r & ->). cbn [Js.truthy].
  now rewrite (parseInt_hexGroup _ Hg).
Qed.

Lemma parse_eight parts :
  List.length parts = 8%nat -> List.forallb isHexGroup parts = true ->
  List.flat_map (groupBytes parts) (List.seq 0 8) =
  List.flat_map (fun g => bytesOf (hexValue g)) parts.
Proof.
  intros Hlen Hall.
  do 8 (destruct parts as [|? parts]; [discriminate Hlen|]).
  destruct parts; [|discriminate Hlen].
  cbn [List.forallb] in Hall.
  repeat (apply andb_true_iff in Hall; destruct Hall as [? Hall]).
  cbn [List.seq List.flat_map List.app].
  repeat (erewrite groupBytes_hex; [|reflexivity|eassumption]).
  reflexivity.
Qed.

Lemma groups_of_bytes vals :
  List.length vals = 8%nat -> List.Forall (fun v => 0 <= v < 65536) vals ->
  groupsOf (List.firstn 8 (List.flat_map bytesOf vals) ++ List.repeat 0 8)%list =
  (List.map Js.toString16 (List.firstn 4 vals) ++ ["0"; "0"; "0"; "0"])%list.
Proof.
  intros Hlen Hall.
  do 8 (destruct vals as [|? vals]; [discriminate Hlen|]).
  destruct vals; [|discriminate Hlen].
  repeat match goal with
         | H : List.Forall _ (_ :: _) |- _ =>
             apply List.Forall_cons_iff in H; destruct H as [? H]
         end.
  cbn [List.flat_map bytesOf List.app List.firstn List.repeat groupsOf List.map].
  repeat match goal with
         | H : 0 <= ?v < 65536 |- context [Z.lor (Z.shiftl (Z.land (Z.shiftr ?v 8) 255) 8) (Z.land ?v 255)] =>
             rewrite (proj1 (word16_facts v H))
         end.
  reflexivity.
Qed.

Lemma normalize_of_parts ip parts :
  Js.includes ip ":" = true ->
  expandParts (Js.split ip ":") = Some parts ->
  List.length parts = 8%nat -> List.forallb isHexGroup parts = true ->
  normalizeIP ip = Some (printed (List.map hexValue parts)).
Proof.
  intros Hinc Hexp Hlen Hall. unfold normalizeIP, parseIPv6, printed.
  rewrite Hinc, Hexp. cbn [negb]. f_equal. f_equal.
  rewrite (parse_eight parts Hlen Hall).
  rewrite <- (groups_of_bytes (List.map hexValue parts)).
  - replace (List.flat_map bytesOf (List.map hexValue parts))
      with (List.flat_map (fun g => bytesOf (hexValue g)) parts); [reflexivity|].
    clear. induction parts as [|g parts IH]; [reflexivity|].
    cbn [List.map List.flat_map]. now rewrite IH.
  - now rewrite List.length_map.
  - apply List.Forall_forall. intros v Hv. apply List.in_map_iff in Hv.
    destruct Hv as (g & <- & Hg). apply hexValue_range.
    rewrite List.forallb_forall in Hall. now apply Hall.
Qed.
End ParseIPv6.

Section ExpandParts.
Import Ipv6Text RateLimiter.

Lemma hasChar_app c s t : hasChar c (s ++ t) = hasChar c s || hasChar c t.
Proof.
  induction s as [|d s IH]; [reflexivity|]. cbn [append hasChar].
  now rewrite IH, orb_assoc.
Qed.

Lemma split_join_groups gs :
  List.forallb isHexGroup gs = true ->
  Js.split (Js.join gs ":") ":" = splitOf gs.
Proof.
  intros H. destruct gs as [|g gs]; [reflexivity|].
  apply split_join; [discriminate|]. now apply hexGroups_plain.
Qed.

Lemma indexOfEmpty_none l :
  List.forallb nonEmpty l = true -> Js.indexOfEmpty l = None.
Proof.
  induction l as [|p l IH]; [reflexivity|]. cbn [List.forallb Js.indexOfEmpty].
  intros H. apply andb_true_iff in H. destruct H as [Hp Hl].
  unfold nonEmpty in Hp. apply negb_true_iff in Hp. now rewrite Hp, (IH Hl).
Qed.

Lemma indexOfEmpty_app b rest :
  List.forallb nonEmpty b = true ->
  Js.indexOfEmpty (b ++ EmptyString :: rest)%list = Some (List.length b).
Proof.
  induction b as [|p b IH]; [reflexivity|]. cbn [List.forallb].
  intros H. apply andb_true_iff in H. destruct H as [Hp Hb].
  unfold nonEmpty in Hp. apply negb_true_iff in Hp.
  cbn [List.app Js.indexOfEmpty List.length]. now rewrite Hp, (IH Hb).
Qed.

Lemma filter_nonEmpty_all l :
  List.forallb nonEmpty l = true -> List.filter nonEmpty l = l.
Proof.
  induction l as [|p l IH]; [reflexivity|]. cbn [List.forallb List.filter].
  intros H. apply andb_true_iff in H. destruct H as [Hp Hl].
  now rewrite Hp, (IH Hl).
Qed.

Lemma filter_splitOf l :
  List.forallb nonEmpty l = true -> List.filter nonEmpty (splitOf l) = l.
Proof.
  destruct l as [|p l]; [reflexivity|]. apply filter_nonEmpty_all.
Qed.

Lemma forallb_repeat_zero n : List.forallb isHexGroup (List.repeat "0" n) = true.
Proof. induction n; [reflexivity|]. cbn [List.repeat List.forallb]. now rewrite IHn. Qed.

Lemma map_repeat_zero n : List.map hexValue (List.repeat "0" n) = List.repeat 0 n.
Proof. induction n; [reflexivity|]. cbn [List.repeat List.map]. now rewrite IHn. Qed.

Lemma expand_compressed b a :
  List.forallb isHexGroup b = true -> List.forallb isHexGroup a = true ->
  (List.length b + List.length a <= 7)%nat ->
  expandParts (splitOf b ++ EmptyString :: splitOf a)%list =
  Some (b ++ List.repeat "0" (8 - List.length b - List.length a) ++ a)%list.
Proof.
  intros Hb Ha Hlen.
  destruct (hexGroups_plain b Hb) as [_ Nb].
  destruct (hexGroups_plain a Ha) as [_ Na].
  unfold expandParts.
  assert (Hidx : Js.indexOfEmpty (splitOf b ++ EmptyString :: splitOf a)%list =
                 Some (List.length b) /\
                 List.filter nonEmpty
                   (List.firstn (List.length b)
                      (splitOf b ++ EmptyString :: splitOf a)%list) = b /\
                 List.filter nonEmpty
                   (List.skipn (S (List.length b))
                      (splitOf b ++ EmptyString :: splitOf a)%list) = a).
  { destruct b as [|g b'].
    - cbn. split; [reflexivity|]. split; [reflexivity|]. now apply filter_splitOf.
    - cbn [splitOf]. split; [now apply indexOfEmpty_app|]. split.
      + rewrite List.firstn_app, List.firstn_all, Nat.sub_diag. cbn [List.firstn].
        rewrite List.app_nil_r. now apply filter_nonEmpty_all.
      + replace (S (List.length (g :: b')))
          with (List.length ((g :: b') ++ [EmptyString])%list)
          by (rewrite List.length_app; simpl; lia).
        replace ((g :: b') ++ EmptyString :: splitOf a)%list
          with (((g :: b') ++ [EmptyString]) ++ splitOf a)%list
          by (now rewrite <- List.app_assoc).
        rewrite List.skipn_app, List.skipn_all, Nat.sub_diag. cbn [List.skipn List.app].
        now apply filter_splitOf. }
  destruct Hidx as (-> & -> & ->).
  assert (Hm : (8 - Z.of_nat (List.length b) - Z.of_nat (List.length a) <? 0) = false)
    by (apply Z.ltb_ge; lia).
  rewrite Hm. f_equal. f_equal. f_equal. f_equal. lia.
Qed.

Lemma expand_valid t :
  valid t = true -> hexOnly t = true ->
  Js.includes (render t) ":" = true /\
  expandParts (Js.split (render t) ":") = Some (expanded t) /\
  List.length (expanded t) = 8%nat /\
  List.forallb isHexGroup (expanded t) = true /\
  List.map hexValue (expanded t) = denote t.
Proof.
  destruct t as [gs [q|] | b a [q|]]; try discriminate; intros Hv _.
  - cbn [valid tailOk tailCount] in Hv.
    apply andb_true_iff in Hv. destruct Hv as [Hv Hlen].
    apply andb_true_iff in Hv. destruct Hv as [Hall _].
    apply Nat.eqb_eq in Hlen. rewrite Nat.add_0_r in Hlen.
    destruct (hexGroups_plain gs Hall) as [Hplain Hne].
    cbn [render tailText expanded denote tailGroups]. rewrite !List.app_nil_r.
    split.
    { rewrite includes_char.
      destruct gs as [|g1 [|g2 gs']]; try discriminate Hlen.
      change (Js.join (g1 :: g2 :: gs') ":")
        with (g1 ++ String ":" (Js.join (g2 :: gs') ":")).
      rewrite hasChar_app. cbn [hasChar]. rewrite Ascii.eqb_refl.
      now rewrite orb_true_r. }
    split.
    { rewrite split_join_groups by assumption.
      destruct gs as [|g gs']; [discriminate Hlen|]. cbn [splitOf].
      unfold expandParts. now rewrite indexOfEmpty_none. }
    auto.
  - cbn [valid tailOk tailCount] in Hv.
    apply andb_true_iff in Hv. destruct Hv as [Hv Hlen].
    apply andb_true_iff in Hv. destruct Hv as [Hv _].
    apply andb_true_iff in Hv. destruct Hv as [Hb Ha].
    apply Nat.leb_le in Hlen. rewrite Nat.add_0_r in Hlen.
    cbn [render tailText expanded denote tailGroups tailCount].
    rewrite !List.app_nil_r, Nat.sub_0_r.
    change (Js.join b ":" ++ "::" ++ Js.join a ":")
      with (Js.join b ":" ++ String ":" (String ":" (Js.join a ":"))).
    split.
    { rewrite includes_char, hasChar_app. cbn [hasChar]. rewrite Ascii.eqb_refl.
      now rewrite orb_true_r. }
    split.
    { rewrite split_app.
      change (String ":" (Js.join a ":")) with ("" ++ String ":" (Js.join a ":")).
      rewrite split_app. cbn [Js.split List.app].
      rewrite !split_join_groups by assumption.
      now apply expand_compressed. }
    split.
    { rewrite !List.length_app, List.repeat_length. lia. }
    split.
    { rewrite !List.forallb_app, Hb, Ha, forallb_repeat_zero. reflexivity. }
    now rewrite !List.map_app, map_repeat_zero.
Qed.
End ExpandParts.

Section NormalizeIP.
Import Ipv6Text RateLimiter.

Lemma normalize_valid t :
  valid t = true -> hexOnly t = true ->
  normalizeIP (render t) = Some (printed (denote t)) /\
  List.length (denote t) = 8%nat /\
  List.Forall (fun v => 0 <= v < 65536) (denote t).
Proof.
  intros Hv Hh.
  destruct (expand_valid t Hv Hh) as (Hinc & Hexp & Hlen & Hall & Hden).
  rewrite <- Hden. split; [now apply normalize_of_parts|].
  split; [now rewrite List.length_map|].
  apply List.Forall_forall. intros v Hin. apply List.in_map_iff in Hin.
  destruct Hin as (g & <- & Hg). apply hexValue_range.
  rewrite List.forallb_forall in Hall. now apply Hall.
Qed.

Lemma in_firstn {A} (n : nat) (l : list A) x : In x (List.firstn n l) -> In x l.
Proof.
  revert l. induction n as [|n IH]; intros [|a l]; simpl; try easy.
  intros [->|H]; [now left | right; now apply IH].
Qed.

Lemma map_toString16_inj vs ws :
  List.Forall (fun v => 0 <= v < 65536) vs ->
  List.Forall (fun v => 0 <= v < 65536) ws ->
  List.map Js.toString16 vs = List.map Js.toString16 ws -> vs = ws.
Proof.
  intros Hvs. revert ws. induction Hvs as [|v vs Hv Hvs IH]; intros ws Hws E.
  - destruct ws; [reflexivity | discriminate].
  - destruct ws as [|w ws]; [discriminate|].
    apply List.Forall_cons_iff in Hws. destruct Hws as [Hw Hws].
    cbn [List.map] in E. injection E as E1 E2.
    f_equal; [now apply toString16_inj | now apply IH].
Qed.

Lemma printed_inj vs ws :
  List.Forall (fun v => 0 <= v < 65536) vs ->
  List.Forall (fun v => 0 <= v < 65536) ws ->
  printed vs = printed ws -> List.firstn 4 vs = List.firstn 4 ws.
Proof.
  intros Hvs Hws E. unfold printed in E. apply append_inv_tail in E.
  assert (Hplain : forall xs, List.Forall (fun v => 0 <= v < 65536) xs ->
            List.forallb (fun p => negb (hasChar ":" p))
              (List.map Js.toString16 (List.firstn 4 xs) ++ ["0"; "0"; "0"; "0"])%list
            = true).
  { intros xs Hxs. rewrite List.forallb_app. apply andb_true_iff. split; [|reflexivity].
    apply List.forallb_forall. intros p Hp. apply List.in_map_iff in Hp.
    destruct Hp as (v & <- & Hin). apply in_firstn in Hin.
    rewrite List.Forall_forall in Hxs.
    destruct (word16_facts v (Hxs v Hin)) as (_ & _ & ->). reflexivity. }
  apply (f_equal (fun s => Js.split s ":")) in E.
  rewrite !split_join in E;
    try (now apply Hplain);
    try (intros Hnil; apply List.app_eq_nil in Hnil; destruct Hnil; discriminate).
  apply List.app_inv_tail in E.
  apply map_toString16_inj; [| |exact E];
    apply List.Forall_forall; intros v Hin; apply in_firstn in Hin.
  - rewrite List.Forall_forall in Hvs. now apply Hvs.
  - rewrite List.Forall_forall in Hws. now apply Hws.
Qed.
End NormalizeIP.

(** C8, as amended.  For every pair of syntactically valid IPv6 address
    strings written with hexadecimal groups only (eight groups, or fewer
    with one [::]), [normalizeIP] returns the same key for both if and only
    if the two addresses agree on their top 64 bits; the key is the four top
    groups in hexadecimal, four zero groups and the suffix [/64].  For every
    input string without a colon, [normalizeIP] is the identity. *)
Theorem normalizeIP_groups_by_top64 (x y : Ipv6Text.text) :
  Ipv6Text.valid x = true -> Ipv6Text.hexOnly x = true ->
  Ipv6Text.valid y = true -> Ipv6Text.hexOnly y = true ->
  RateLimiter.normalizeIP (Ipv6Text.render x) =
    Some (printed (Ipv6Text.denote x)) /\
  (RateLimiter.normalizeIP (Ipv6Text.render x) =
   RateLimiter.normalizeIP (Ipv6Text.render y) <->
   Ipv6Text.top64 x = Ipv6Text.top64 y) /\
  (forall ip : string,
     Js.includes ip ":" = false -> RateLimiter.normalizeIP ip = Some ip).
Proof.
  intros Hx Hhx Hy Hhy.
  destruct (normalize_valid x Hx Hhx) as (Nx & _ & Rx).
  destruct (normalize_valid y Hy Hhy) as (Ny & _ & Ry).
  split; [exact Nx|]. split.
  - rewrite Nx, Ny. unfold Ipv6Text.top64. split.
    + intros [= E]. now apply printed_inj.
    + intros E. unfold printed. now rewrite E.
  - intros ip H. unfold RateLimiter.normalizeIP. now rewrite H.
Qed.

Lemma normalizeIP_groups_by_top64_witness :
  let x := Ipv6Text.Compressed ["2001"; "db8"] ["1"] None in
  let y := Ipv6Text.Compressed ["2001"; "DB8"; "0"; "0"] ["ffff"] None in
  Ipv6Text.valid x = true /\ Ipv6Text.hexOnly x = true /\
  Ipv6Text.valid y = true /\ Ipv6Text.hexOnly y = true /\
  Ipv6Text.render x = "2001:db8::1" /\ Ipv6Text.render y = "2001:DB8:0:0::ffff" /\
  RateLimiter.normalizeIP "2001:db8::1" = Some "2001:db8:0:0:0:0:0:0/64" /\
  RateLimiter.normalizeIP "2001:db8::1" = RateLimiter.normalizeIP "2001:DB8:0:0::ffff".
Proof.
  intros x y.
  assert (Hx : Ipv6Text.valid x = true) by reflexivity.
  assert (Hhx : Ipv6Text.hexOnly x = true) by reflexivity.
  assert (Hy : Ipv6Text.valid y = true) by reflexivity.
  assert (Hhy : Ipv6Text.hexOnly y = true) by reflexivity.
  do 6 (split; [assumption || reflexivity|]).
  destruct (normalizeIP_groups_by_top64 x y Hx Hhx Hy Hhy) as (Hprint & Hiff & _).
  split; [exact Hprint|]. apply Hiff. reflexivity.
Defined.

(** C8 as stated fails for a valid IPv6 text whose last 32 bits are
    written as a dotted quad: [parseIPv6] counts the quad as one group, so
    the zeros of [::] are one group too many.  [::1:2:3:4:5:1.2.3.4] and
    [0:1:2:3::] both have the top 64 bits [0:1:2:3], yet their keys
    differ. *)
Lemma dotted_quad_breaks_top64_grouping :
  let x := Ipv6Text.Compressed [] ["1"; "2"; "3"; "4"; "5"] (Some "1.2.3.4") in
  let y := Ipv6Text.Compressed ["0"; "1"; "2"; "3"] [] None in
  Ipv6Text.valid x = true /\ Ipv6Text.valid y = true /\
  Ipv6Text.render x = "::1:2:3:4:5:1.2.3.4" /\ Ipv6Text.render y = "0:1:2:3::" /\
  Ipv6Text.denote x = [0; 1; 2; 3; 4; 5; 258; 772] /\
  Ipv6Text.top64 x = Ipv6Text.top64 y /\
  RateLimiter.normalizeIP (Ipv6Text.render x) = Some "0:0:1:2:0:0:0:0/64" /\
  RateLimiter.normalizeIP (Ipv6Text.render y) = Some "0:1:2:3:0:0:0:0/64" /\
  RateLimiter.normalizeIP (Ipv6Text.render x) <>
  RateLimiter.normalizeIP (Ipv6Text.render y).
Proof.
  vm_compute. repeat split; discriminate.
Qed.

(** C9.  A malformed address or prefix does not always give "no match":
    [parseInt] and the [Uint8Array] constructor read text that is not a
    number as 0 and never throw, so the [catch] of [isIPInCIDR] is reached
    only for an IPv6 text whose [::] would stand for a negative number of
    groups.  The text [abc] is in [0.0.0.0/8], the text [10] is in
    [10.0.0.0/8], and a prefix that is not a number is read as the full
    length. *)
Theorem malformed_input_can_match :
  RateLimiter.isIPInCIDR "abc" "0.0.0.0/8" = true /\
  RateLimiter.isIPInCIDR "10" "10.0.0.0/8" = true /\
  RateLimiter.isIPInCIDR "10.0.0.1" "10.0.0.1/abc" = true /\
  RateLimiter.isIPInList "10" ["10.0.0.0/8"] = true /\
  RateLimiter.isIPInCIDR "1:2:3:4:5:6:7:8::9" "::/0" = false.
Proof.
  vm_compute. repeat split.
Qed.

(** ** The Registry proxy: classification of a Docker Hub manifest path *)

Section RegistryPath.
Import Docker.



Lemma lazyMatch_eq sep tailOk started s :
  lazyMatch sep tailOk started s =
  match (if started && Js.isPrefix sep s && tailOk (Js.drop (String.length sep) s)
         then Some (EmptyString, Js.drop (String.length sep) s) else None) with
  | Some r => Some r
  | None =>
      match s with
      | EmptyString => None
      | String c s' =>
          if Js.isLineTerminator c then None
          else match lazyMatch sep tailOk true s' with
               | Some (g, tail) => Some (String c g, tail)
               | None => None
               end
      end
  end.
Proof. destruct s; reflexivity. Qed.


End RegistryPath.




(** ** The redirect walk *)

Section RedirectWalk.
Import GitHub.
Variable fetch : nat -> string -> option Http.response.
Variable cfg : config.
Variable req : Http.request.

Lemma walk_cap url count :
  (MAX_REDIRECTS < count)%nat ->
  proxyGitHubRequest fetch cfg req url count = ([], TooManyRedirects).
Proof.
  intros H. simp proxyGitHubRequest.
  destruct (lt_dec MAX_REDIRECTS count); [reflexivity | contradiction].
Qed.

Lemma walk_throw url count :
  (count <= MAX_REDIRECTS)%nat -> fetch count url = None ->
  proxyGitHubRequest fetch cfg req url count = ([url], ServerError).
Proof.
  intros H Hf. simp proxyGitHubRequest.
  destruct (lt_dec MAX_REDIRECTS count); [lia|]. cbn.
  rewrite Hf. reflexivity.
Qed.

Lemma walk_follow url count response location :
  (count <= MAX_REDIRECTS)%nat -> fetch count url = Some response ->
  redirectTarget response = Some location ->
  proxyGitHubRequest fetch cfg req url count =
  (url :: fst (proxyGitHubRequest fetch cfg req location (S count)),
   snd (proxyGitHubRequest fetch cfg req location (S count))).
Proof.
  intros H Hf Hr. rewrite proxyGitHubRequest_equation_1.
  destruct (lt_dec MAX_REDIRECTS count); [lia|]. cbn.
  rewrite Hf. cbn. rewrite Hr. cbn.
  now destruct (proxyGitHubRequest fetch cfg req location (S count)).
Qed.

Lemma walk_final url count response :
  (count <= MAX_REDIRECTS)%nat -> fetch count url = Some response ->
  redirectTarget response = None ->
  proxyGitHubRequest fetch cfg req url count = ([url], respond cfg req url response).
Proof.
  intros H Hf Hr. rewrite proxyGitHubRequest_equation_1.
  destruct (lt_dec MAX_REDIRECTS count); [lia|]. cbn.
  rewrite Hf. cbn. rewrite Hr. reflexivity.
Qed.

(** The walk fetches at most [MAX_REDIRECTS + 1 - count] URLs from count
    [count] on. *)
Lemma walk_length url count :
  (List.length (fst (proxyGitHubRequest fetch cfg req url count))
   <= S MAX_REDIRECTS - count)%nat.
Proof.
  remember (S MAX_REDIRECTS - count)%nat as left eqn:Hleft.
  revert url count Hleft.
  induction left as [|left IH]; intros url count Hleft.
  - rewrite walk_cap by lia. simpl. lia.
  - assert (Hc : (count <= MAX_REDIRECTS)%nat) by lia.
    destruct (fetch count url) as [response|] eqn:Hf.
    + destruct (redirectTarget response) as [location|] eqn:Hr.
      * rewrite (walk_follow url count response location Hc Hf Hr).
        cbn [fst List.length]. specialize (IH location (S count) ltac:(lia)). lia.
      * rewrite (walk_final url count response Hc Hf Hr). simpl. lia.
    + rewrite (walk_throw url count Hc Hf). simpl. lia.
Qed.

(** The answer 508 is given only after [MAX_REDIRECTS + 1] fetches. *)
Lemma walk_508_only_at_cap url count :
  (count <= S MAX_REDIRECTS)%nat ->
  snd (proxyGitHubRequest fetch cfg req url count) = TooManyRedirects ->
  List.length (fst (proxyGitHubRequest fetch cfg req url count)) =
  (S MAX_REDIRECTS - count)%nat.
Proof.
  remember (S MAX_REDIRECTS - count)%nat as left eqn:Hleft.
  revert url count Hleft.
  induction left as [|left IH]; intros url count Hleft Hle.
  - rewrite walk_cap by lia. reflexivity.
  - assert (Hc : (count <= MAX_REDIRECTS)%nat) by lia.
    destruct (fetch count url) as [response|] eqn:Hf.
    + destruct (redirectTarget response) as [location|] eqn:Hr.
      * rewrite (walk_follow url count response location Hc Hf Hr).
        cbn [fst snd List.length]. intros H.
        rewrite (IH location (S count)); [reflexivity | lia | lia | exact H].
      * rewrite (walk_final url count response Hc Hf Hr). cbn [snd].
        unfold respond. destruct (typeBlocked req response); [discriminate|].
        destruct (tooLarge cfg response); [discriminate|].
        destruct (isScript url); discriminate.
    + rewrite (walk_throw url count Hc Hf). discriminate.
Qed.

(** An upstream that always redirects is cut off with 508. *)
Lemma walk_redirect_loop url count :
  (forall n u, exists response location,
      fetch n u = Some response /\ redirectTarget response = Some location) ->
  (count <= S MAX_REDIRECTS)%nat ->
  snd (proxyGitHubRequest fetch cfg req url count) = TooManyRedirects.
Proof.
  intros Hloop.
  remember (S MAX_REDIRECTS - count)%nat as left eqn:Hleft.
  revert url count Hleft.
  induction left as [|left IH]; intros url count Hleft Hle.
  - rewrite walk_cap by lia. reflexivity.
  - assert (Hc : (count <= MAX_REDIRECTS)%nat) by lia.
    destruct (Hloop count url) as (response & location & Hf & Hr).
    rewrite (walk_follow url count response location Hc Hf Hr). cbn [snd].
    apply IH; lia.
Qed.
End RedirectWalk.

(** ** The script rewrite *)

Section ScriptRewrite.
Import GitHub.

Lemma isPrefix_split p s :
  Js.isPrefix p s = true -> s = p ++ Js.drop (String.length p) s.
Proof.
  revert s. induction p as [|c p IH]; intros s H; [reflexivity|].
  destruct s as [|d s]; [discriminate|]. cbn [Js.isPrefix] in H.
  apply andb_true_iff in H. destruct H as [Hc Hp].
  apply Ascii.eqb_eq in Hc. subst d. cbn [append String.length Js.drop].
  f_equal. now apply IH.
Qed.

Lemma isPrefix_of_append p s t :
  Js.isPrefix p (p ++ s) = true /\ Js.isPrefix p ((p ++ s) ++ t) = true.
Proof.
  split; [apply isPrefix_append|]. rewrite append_assoc. apply isPrefix_append.
Qed.

(** The run of class characters at the head of a string. *)
Lemma urlRun_split s :
  exists tail rest,
    s = tail ++ rest /\ String.length tail = urlRun s /\
    allUrlChars tail = true /\ stopsUrl rest.
Proof.
  induction s as [|c s (tail & rest & E & L & A & St)].
  - exists EmptyString, EmptyString. now repeat split.
  - cbn [urlRun]. destruct (urlChar c) eqn:Hc.
    + exists (String c tail), rest. cbn [append String.length allUrlChars].
      rewrite Hc, A, L, <- E. now repeat split.
    + exists EmptyString, (String c s). cbn. now repeat split.
Qed.

Lemma urlRun_append tail rest :
  allUrlChars tail = true -> (String.length tail <= urlRun (tail ++ rest))%nat.
Proof.
  induction tail as [|c tail IH]; intros H; [simpl; lia|].
  cbn [allUrlChars] in H. apply andb_true_iff in H. destruct H as [Hc Ht].
  cbn [append urlRun String.length]. rewrite Hc. specialize (IH Ht). lia.
Qed.

Lemma matchWith_some scheme h s n :
  matchWith scheme h s = Some n ->
  exists tail rest,
    s = (scheme ++ "://" ++ h ++ "/" ++ tail) ++ rest /\
    n = String.length (scheme ++ "://" ++ h ++ "/" ++ tail) /\
    tail <> EmptyString /\ allUrlChars tail = true /\ stopsUrl rest.
Proof.
  unfold matchWith. set (pre := scheme ++ "://" ++ h ++ "/").
  destruct (Js.isPrefix pre s) eqn:Hp; [|discriminate].
  apply isPrefix_split in Hp.
  destruct (urlRun_split (Js.drop (String.length pre) s))
    as (tail & rest & E & L & A & St).
  destruct (urlRun (Js.drop (String.length pre) s)) as [|k] eqn:Hrun; [discriminate|].
  intros [= <-]. exists tail, rest.
  assert (Hassoc : scheme ++ "://" ++ h ++ "/" ++ tail = pre ++ tail).
  { unfold pre. now rewrite !append_assoc. }
  rewrite Hassoc, append_assoc, <- E, <- Hp, length_append, L.
  repeat split; try assumption.
  destruct tail; [discriminate L | discriminate].
Qed.

Lemma matchWith_complete scheme h tail rest :
  tail <> EmptyString -> allUrlChars tail = true ->
  matchWith scheme h ((scheme ++ "://" ++ h ++ "/" ++ tail) ++ rest) <> None.
Proof.
  intros Hne Hall. unfold matchWith. set (pre := scheme ++ "://" ++ h ++ "/").
  assert (Hassoc : (scheme ++ "://" ++ h ++ "/" ++ tail) ++ rest =
                   pre ++ (tail ++ rest)).
  { unfold pre. now rewrite !append_assoc. }
  rewrite Hassoc, isPrefix_append, drop_append.
  pose proof (urlRun_append tail rest Hall) as Hrun.
  destruct tail as [|c tail]; [easy|]. cbn [String.length] in Hrun.
  destruct (urlRun (String c tail ++ rest)); [lia | discriminate].
Qed.

Lemma matchLen_some h s n :
  matchLen h s = Some n ->
  exists m rest,
    s = m ++ rest /\ n = String.length m /\ isUrl h m /\ stopsUrl rest.
Proof.
  unfold matchLen.
  destruct (matchWith "https" h s) as [k|] eqn:E1.
  - intros [= <-]. destruct (matchWith_some _ _ _ _ E1) as (tail & rest & -> & -> & Hne & Hall & St).
    eexists _, rest. repeat split; try assumption.
    exists "https", tail. auto.
  - intros E2. destruct (matchWith_some _ _ _ _ E2) as (tail & rest & -> & -> & Hne & Hall & St).
    eexists _, rest. repeat split; try assumption.
    exists "http", tail. auto.
Qed.

Lemma matchLen_none h s : matchLen h s = None -> ~ urlStartsAt h s.
Proof.
  unfold matchLen. intros H (m & rest & -> & scheme & tail & Hs & -> & Hne & Hall).
  destruct Hs as [-> | ->].
  - destruct (matchWith "https" h _); [discriminate|].
    now apply (matchWith_complete "http" h tail rest Hne Hall).
  - destruct (matchWith "https" h _) eqn:E; [discriminate|].
    now apply (matchWith_complete "https" h tail rest Hne Hall).
Qed.

Lemma replaceAll_skip base h m rest :
  replaceAll base h (String.length m) (m ++ rest) = m ++ replaceAll base h O rest.
Proof.
  induction m as [|c m IH]; cbn [String.length append].
  - reflexivity.
  - cbn [replaceAll]. now rewrite IH.
Qed.

Lemma isUrl_nonempty h m : isUrl h m -> exists c m', m = String c m'.
Proof.
  intros (scheme & tail & [-> | ->] & -> & _); cbn [append]; eauto.
Qed.

(** [replaceAll] rewrites every occurrence and copies the rest. *)
Lemma replaceAll_rewrites base h s :
  Rewritten base h s (replaceAll base h O s).
Proof.
  remember (String.length s) as n eqn:Hn. revert s Hn.
  induction n as [n IH] using lt_wf_ind. intros s Hn.
  destruct s as [|c s]; [constructor|].
  cbn [replaceAll]. destruct (matchLen h (String c s)) as [k|] eqn:Hm.
  - destruct (matchLen_some _ _ _ Hm) as (m & rest & E & -> & Hurl & St).
    destruct (isUrl_nonempty _ _ Hurl) as (c' & m' & ->).
    cbn [append] in E. injection E as <- ->.
    cbn [String.length]. rewrite Nat.sub_1_r. cbn [Nat.pred].
    rewrite replaceAll_skip.
    change (base ++ "/" ++ String c (m' ++ replaceAll base h 0 rest))
      with (base ++ "/" ++ String c m' ++ replaceAll base h 0 rest).
    change (String c (m' ++ rest)) with (String c m' ++ rest).
    apply RwUrl; try assumption.
    apply (IH (String.length rest)); [|reflexivity].
    subst n. cbn [String.length]. rewrite length_append. lia.
  - apply RwCopy; [now apply matchLen_none|].
    apply (IH (String.length s)); [subst n; simpl; lia | reflexivity].
Qed.

Lemma get_remove hs name : Http.get (Http.remove hs name) name = None.
Proof.
  induction hs as [|[k v] hs IH]; [reflexivity|]. cbn [Http.remove List.filter fst].
  destruct (String.eqb k name) eqn:E; cbn [negb]; [exact IH|].
  cbn [Http.get]. now rewrite E.
Qed.

End ScriptRewrite.

(** C4.  The redirect walk of the GitHub proxy ends after at most 20
    followed redirects: counting the first request it makes at most 21
    fetches.  A response with a status in [300, 400) and a [Location]
    raises the counter by one and re-dispatches to that location; once the
    counter is above the cap the answer is 508 and no further fetch is
    made; an upstream that redirects for ever gets 508, and 508 is given
    only after the 21 fetches. *)
Theorem redirect_walk_is_bounded
    (fetch : nat -> string -> option Http.response)
    (cfg : GitHub.config) (req : Http.request) (url : string) :
  let walk := GitHub.proxyGitHubRequest fetch cfg req in
  (List.length (fst (walk url O)) <= S GitHub.MAX_REDIRECTS)%nat /\
  GitHub.MAX_REDIRECTS = 20%nat /\
  (forall u count response location,
     (count <= GitHub.MAX_REDIRECTS)%nat ->
     fetch count u = Some response ->
     GitHub.redirectTarget response = Some location ->
     walk u count =
       (u :: fst (walk location (S count)), snd (walk location (S count)))) /\
  (forall u count,
     (GitHub.MAX_REDIRECTS < count)%nat ->
     walk u count = ([], GitHub.TooManyRedirects)) /\
  GitHub.statusOf GitHub.TooManyRedirects = 508 /\
  (snd (walk url O) = GitHub.TooManyRedirects ->
   List.length (fst (walk url O)) = S GitHub.MAX_REDIRECTS) /\
  ((forall n u, exists response location,
       fetch n u = Some response /\
       GitHub.redirectTarget response = Some location) ->
   snd (walk url O) = GitHub.TooManyRedirects).
Proof.
  intros walk. unfold walk. split.
  { pose proof (walk_length fetch cfg req url O). lia. }
  split; [reflexivity|]. split.
  { intros u count response location. apply walk_follow. }
  split.
  { intros u count. apply walk_cap. }
  split; [reflexivity|]. split.
  { intros H. rewrite (walk_508_only_at_cap fetch cfg req url O); [lia | lia | exact H]. }
  intros Hloop. apply walk_redirect_loop; [exact Hloop | lia].
Qed.



(** C7, as amended.  When the URL string of the request being answered
    (the URL of the last hop, query string included), lower-cased, ends in
    [.sh] or [.ps1] and the response passes the gates, the whole body is
    sent as one buffered response with the status of the upstream and
    without [Content-Length]; in the body every occurrence of
    [https?://github.com/] followed by a run of characters that are neither
    white space nor a quote, and then every such occurrence for
    [raw.githubusercontent.com], is rewritten to [<realHost>/<match>].
    [realHost] is [X-Forwarded-Host] (or [Host]) with [https://] in front
    unless it already begins with [http://] or [https://];
    [X-Forwarded-Proto] is not consulted. *)
Theorem script_urls_are_rewritten
    (cfg : GitHub.config) (req : Http.request) (url : string)
    (response : Http.response) :
  GitHub.typeBlocked req response = false ->
  GitHub.tooLarge cfg response = false ->
  GitHub.isScript url = true ->
  exists hs mid,
    GitHub.respond cfg req url response =
      GitHub.Buffered (Http.status response) hs
        (GitHub.rewriteScript (GitHub.realHost req) (Http.body response)) /\
    Http.get hs "content-length" = None /\
    Rewritten (GitHub.realHost req) "github.com" (Http.body response) mid /\
    Rewritten (GitHub.realHost req) "raw.githubusercontent.com" mid
      (GitHub.rewriteScript (GitHub.realHost req) (Http.body response)) /\
    (forall proto,
       GitHub.realHost
         (Http.mkRequest (Http.method req) (Http.path req) (Http.accept req)
            (Http.host req) (Http.xForwardedHost req) proto
            (Http.otherHeaders req)) = GitHub.realHost req) /\
    (forall fetch count,
       (count <= GitHub.MAX_REDIRECTS)%nat ->
       fetch count url = Some response ->
       GitHub.redirectTarget response = None ->
       GitHub.proxyGitHubRequest fetch cfg req url count =
       ([url], GitHub.respond cfg req url response)).
Proof.
  intros Ht Hs Hsh. unfold GitHub.respond. rewrite Ht, Hs, Hsh.
  eexists. exists (GitHub.replaceAll (GitHub.realHost req) "github.com" O
                     (Http.body response)).
  split; [reflexivity|]. split; [apply get_remove|].
  split; [apply replaceAll_rewrites|]. split; [apply replaceAll_rewrites|].
  split; [reflexivity|].
  intros fetch count Hc Hf Hr.
  rewrite (walk_final fetch cfg req url count response Hc Hf Hr).
  unfold GitHub.respond. now rewrite Ht, Hs, Hsh.
Qed.

Lemma script_urls_are_rewritten_witness :
  let cfg := GitHub.mkConfig 1000 in
  let req := Http.mkRequest "GET" "/x" None (Some "proxy.example") None None [] in
  let url := "https://github.com/a/b/raw/main/install.SH" in
  let response :=
    Http.mkResponse 200 [("content-type", "text/plain"); ("content-length", "61")]
      "curl -sSL https://github.com/a/b/releases/download/v1/x.bin" in
  exists hs,
    GitHub.respond cfg req url response =
      GitHub.Buffered 200 hs
        "curl -sSL https://proxy.example/https://github.com/a/b/releases/download/v1/x.bin" /\
    Http.get hs "content-length" = None.
Proof.
  intros cfg req url response.
  destruct (script_urls_are_rewritten cfg req url response eq_refl eq_refl eq_refl)
    as (hs & mid & Hrun & Hlen & _).
  exists hs. split; [exact Hrun | exact Hlen].
Defined.

(** C7 as stated fails: the proxy base does not follow
    [X-Forwarded-Proto] (a request forwarded over [http] still gets
    [https://] links), and a quote ends a match, so that a URL which
    follows a quoted URL at once is rewritten as well. *)
Lemma script_rewrite_ignores_forwarded_proto :
  let cfg := GitHub.mkConfig 1000 in
  let req := Http.mkRequest "GET" "/x" None (Some "proxy.example") None
               (Some "http") [] in
  let url := "https://github.com/a/b/raw/main/install.sh" in
  let response :=
    Http.mkResponse 200 [("content-type", "text/plain")]
      "get https://github.com/a/b 'https://github.com/c'https://github.com/d" in
  proxyBase_spec req = "http://proxy.example" /\
  GitHub.proxyGitHubRequest (fun _ _ => Some response) cfg req url O =
    ([url],
     GitHub.Buffered 200 [("content-type", "text/plain")]
       "get https://proxy.example/https://github.com/a/b 'https://proxy.example/https://github.com/c'https://proxy.example/https://github.com/d") /\
  "get https://proxy.example/https://github.com/a/b 'https://proxy.example/https://github.com/c'https://proxy.example/https://github.com/d"
  <> "get " ++ proxyBase_spec req ++ "/https://github.com/a/b '" ++
     proxyBase_spec req ++ "/https://github.com/c'https://github.com/d".
Proof.
  vm_compute. repeat split. discriminate.
Qed.

(** ** The rewrite of [WWW-Authenticate] *)

Section RealmRewrite.
Import Docker.

Lemma expandReplacement_plain tpl matched before after :
  hasChar "$" tpl = false ->
  expandReplacement tpl matched before after = tpl.
Proof.
  induction tpl as [|c tpl IH]; [reflexivity|]. cbn [hasChar].
  intros H. apply orb_false_iff in H. destruct H as [Hc Ht].
  assert (Hstep : expandReplacement (String c tpl) matched before after =
                  String c (expandReplacement tpl matched before after)).
  { destruct (Ascii.ascii_dec c "$") as [->|Hne]; [discriminate Hc|].
    destruct c as [[] [] [] [] [] [] [] []]; try reflexivity; congruence. }
  rewrite Hstep. now rewrite (IH Ht).
Qed.

Lemma unquotedRun_spec r rest :
  hasChar Js.quote r = false ->
  unquotedRun (r ++ String Js.quote rest) = (r, String Js.quote rest).
Proof.
  induction r as [|c r IH]; intros H.
  - reflexivity.
  - cbn [hasChar] in H. apply orb_false_iff in H. destruct H as [Hc Hr].
    cbn [append unquotedRun]. rewrite Hc, (IH Hr). reflexivity.
Qed.

Lemma realmAt_here r post :
  r <> EmptyString -> hasChar Js.quote r = false ->
  realmAt (realmOpen ++ r ++ Js.dq ++ post) =
  Some (realmOpen ++ r ++ Js.dq, post).
Proof.
  intros Hne Hq. unfold realmAt. rewrite isPrefix_append.
  change 7%nat with (String.length realmOpen). rewrite drop_append.
  change (r ++ Js.dq ++ post) with (r ++ String Js.quote post).
  rewrite (unquotedRun_spec r post Hq).
  destruct r; [easy | reflexivity].
Qed.

Lemma replaceRealm_eq tpl before s :
  replaceRealm tpl before s =
  match realmAt s with
  | Some (matched, after) => expandReplacement tpl matched before after ++ after
  | None =>
      match s with
      | EmptyString => EmptyString
      | String c s' => String c (replaceRealm tpl (before ++ String c "") s')
      end
  end.
Proof. destruct s; reflexivity. Qed.

(** The leftmost realm argument is the one replaced. *)
Lemma replaceRealm_first tpl before pre r post :
  r <> EmptyString -> hasChar Js.quote r = false ->
  (forall p1 p2, pre = p1 ++ p2 -> p2 <> EmptyString ->
     realmAt (p2 ++ realmOpen ++ r ++ Js.dq ++ post) = None) ->
  replaceRealm tpl before (pre ++ realmOpen ++ r ++ Js.dq ++ post) =
  pre ++ expandReplacement tpl (realmOpen ++ r ++ Js.dq) (before ++ pre) post
      ++ post.
Proof.
  intros Hne Hq. revert before.
  induction pre as [|c pre IH]; intros before Hfirst.
  - cbn [append]. rewrite append_nil_r, replaceRealm_eq.
    now rewrite (realmAt_here r post Hne Hq).
  - rewrite replaceRealm_eq.
    rewrite (Hfirst EmptyString (String c pre) eq_refl ltac:(discriminate)).
    cbn [append]. rewrite IH.
    + now rewrite append_assoc.
    + intros p1 p2 E Hp2. apply (Hfirst (String c p1) p2); [now rewrite E | assumption].
Qed.

Lemma get_put_same hs name value :
  name <> "__proto__" -> Http.get (Http.put hs name value) name = Some value.
Proof.
  intros Hname. unfold Http.put.
  destruct (String.eqb name "__proto__") eqn:P;
    [apply String.eqb_eq in P; congruence|].
  induction hs as [|[k v] hs IH]; cbn [Http.putOwn Http.get].
  - now rewrite String.eqb_refl.
  - destruct (String.eqb k name) eqn:E; cbn [Http.get]; now rewrite E.
Qed.

Lemma get_put_other hs name value k :
  k <> name -> Http.get (Http.put hs name value) k = Http.get hs k.
Proof.
  intros Hk. unfold Http.put.
  destruct (String.eqb name "__proto__"); [reflexivity|].
  induction hs as [|[k' v] hs IH]; cbn [Http.putOwn Http.get].
  - destruct (String.eqb name k) eqn:E; [apply String.eqb_eq in E; congruence|reflexivity].
  - destruct (String.eqb k' name) eqn:E; cbn [Http.get].
    + apply String.eqb_eq in E. subst k'.
      destruct (String.eqb name k) eqn:E'; [apply String.eqb_eq in E'; congruence|].
      reflexivity.
    + now rewrite IH.
Qed.

(** No assignment gives a header bag the property [__proto__]. *)
Lemma get_put_proto hs name value :
  Http.get hs "__proto__" = None ->
  Http.get (Http.put hs name value) "__proto__" = None.
Proof.
  intros H. destruct (String.eqb name "__proto__") eqn:P.
  - unfold Http.put. now rewrite P.
  - rewrite get_put_other; [exact H|]. intros E. rewrite <- E in P.
    now rewrite String.eqb_refl in P.
Qed.

Lemma copyExcept_proto skip hs : Http.get (Http.copyExcept skip hs) "__proto__" = None.
Proof.
  unfold Http.copyExcept.
  assert (Hgen : forall acc, Http.get acc "__proto__" = None ->
            Http.get
              (List.fold_left
                 (fun acc kv =>
                    if Http.inList (Js.toLowerCase (fst kv)) skip then acc
                    else Http.put acc (fst kv) (snd kv)) hs acc) "__proto__" = None).
  { induction hs as [|[k v] hs IH]; intros acc Hacc; [exact Hacc|].
    cbn [List.fold_left fst snd]. apply IH.
    destruct (Http.inList (Js.toLowerCase k) skip); [exact Hacc|].
    now apply get_put_proto. }
  now apply Hgen.
Qed.

Lemma copyExcept_skips skip hs name :
  Http.inList (Js.toLowerCase name) skip = true ->
  Http.get (Http.copyExcept skip hs) name = None.
Proof.
  intros Hskip. unfold Http.copyExcept.
  assert (Hgen : forall acc, Http.get acc name = None ->
            Http.get
              (List.fold_left
                 (fun acc kv =>
                    if Http.inList (Js.toLowerCase (fst kv)) skip then acc
                    else Http.put acc (fst kv) (snd kv)) hs acc) name = None).
  { induction hs as [|[k v] hs IH]; intros acc Hacc; [exact Hacc|].
    cbn [List.fold_left fst snd]. apply IH.
    destruct (Http.inList (Js.toLowerCase k) skip) eqn:E; [exact Hacc|].
    rewrite get_put_other; [exact Hacc|]. intros ->. congruence. }
  now apply Hgen.
Qed.
End RealmRewrite.

(** The rewrite of [WWW-Authenticate] when the scheme and the host of the
    request hold no dollar sign: the leftmost realm argument becomes
    [realm="<scheme>://<host>/token"], the text before and after it is kept,
    and a response without the header gets none. *)
Lemma realm_is_rewritten_for_plain_hosts
    (req : Http.request) (response : Http.response) (pre r post : string) :
  let scheme := match Js.truthy (Http.xForwardedProto req) with
                | Some p => p
                | None => "https"
                end in
  let host := match Js.orElse (Http.xForwardedHost req) (Http.host req) with
              | Some h => h
              | None => EmptyString
              end in
  hasChar "$" scheme = false -> hasChar "$" host = false ->
  (Http.get (Http.respHeaders response) "www-authenticate" =
     Some (pre ++ Docker.realmOpen ++ r ++ Js.dq ++ post) ->
   r <> EmptyString -> hasChar Js.quote r = false ->
   (forall p1 p2, pre = p1 ++ p2 -> p2 <> EmptyString ->
      Docker.realmAt (p2 ++ Docker.realmOpen ++ r ++ Js.dq ++ post) = None) ->
   Http.get (Docker.rewriteHeaders req response) "www-authenticate" =
     Some (pre ++ Docker.realmOpen ++ scheme ++ "://" ++ host ++ "/token" ++
           Js.dq ++ post)) /\
  (Http.get (Http.respHeaders response) "www-authenticate" = None ->
   Http.get (Docker.rewriteHeaders req response) "www-authenticate" = None).
Proof.
  intros scheme host Hs Hh. split.
  - intros Hget Hne Hq Hfirst. unfold Docker.rewriteHeaders. rewrite Hget.
    assert (Htr : Js.truthy (Some (pre ++ Docker.realmOpen ++ r ++ Js.dq ++ post)) =
                  Some (pre ++ Docker.realmOpen ++ r ++ Js.dq ++ post)).
    { destruct pre; reflexivity. }
    rewrite Htr, get_put_same by discriminate. f_equal.
    rewrite replaceRealm_first by assumption.
    assert (Hhost : match Js.orElse (Http.xForwardedHost req) (Js.truthy (Http.host req)) with
                    | Some h => h
                    | None => EmptyString
                    end = host).
    { unfold host, Js.orElse. destruct (Js.truthy (Http.xForwardedHost req)); [reflexivity|].
      destruct (Http.host req) as [[|c h]|]; reflexivity. }
    rewrite Hhost. fold scheme.
    rewrite expandReplacement_plain.
    + now rewrite !append_assoc.
    + rewrite !hasChar_app, Hs, Hh. reflexivity.
  - intros Hget. unfold Docker.rewriteHeaders. rewrite Hget. cbn [Js.truthy].
    now apply copyExcept_skips.
Qed.

(** C2.  The realm is written through a replacement template, in which a
    dollar sign is special: with the request header [Host: proxy$&.example]
    the text [$&] is replaced by the matched realm argument of the
    upstream, so the header sent to the client is not the upstream header
    with its realm replaced by [realm="https://proxy$&.example/token"]. *)
Theorem dollar_in_host_corrupts_realm :
  let req := Http.mkRequest "GET" "/v2/library/nginx/manifests/alpine" None
               (Some "proxy$&.example") None None [] in
  let wwwAuth := "Bearer realm=" ++ Js.dq ++ "https://auth.docker.io/token" ++ Js.dq ++
                 ",service=" ++ Js.dq ++ "registry.docker.io" ++ Js.dq in
  let response := Http.mkResponse 401 [("www-authenticate", wwwAuth)] "" in
  let expected := "Bearer realm=" ++ Js.dq ++ "https://proxy$&.example/token" ++ Js.dq ++
                  ",service=" ++ Js.dq ++ "registry.docker.io" ++ Js.dq in
  Http.get (Docker.rewriteHeaders req response) "www-authenticate" =
    Some ("Bearer realm=" ++ Js.dq ++ "https://proxyrealm=" ++ Js.dq ++
          "https://auth.docker.io/token" ++ Js.dq ++ ".example/token" ++ Js.dq ++
          ",service=" ++ Js.dq ++ "registry.docker.io" ++ Js.dq) /\
  Http.get (Docker.rewriteHeaders req response) "www-authenticate" <> Some expected.
Proof.
  vm_compute. split; [reflexivity | discriminate].
Qed.

(** ** The scenarios of the specification, run on the model *)

(** A pull through GHCR: the registry host is split off the image name. *)
Example scenario_ghcr_pull :
  Docker.parseRegistryPath Docker.defaultConfig
    "/v2/ghcr.io/owner/image/manifests/v1" =
    Docker.mkParsed "owner/image" Docker.Manifests "v1" (Some "ghcr.io") /\
  Docker.buildUpstreamURL Docker.defaultConfig (Some "ghcr.io") "owner/image"
    Docker.Manifests "v1" = "https://ghcr.io/v2/owner/image/manifests/v1" /\
  Docker.scopeOf (Some "ghcr.io") "owner/image" = "repository:owner/image:pull" /\
  Docker.authURL Docker.defaultConfig "repository:owner/image:pull"
    (Some "ghcr.io") =
    Some "https://ghcr.io/token?scope=repository%3Aowner%2Fimage%3Apull".
Proof. repeat split. Qed.

(** The realm of a 401 is pointed at the proxy; service and scope stay. *)
Example scenario_www_authenticate :
  let req := Http.mkRequest "GET" "/v2/library/nginx/manifests/alpine" None
               (Some "proxy.example") None (Some "https") [] in
  let upstream :=
    "Bearer realm=" ++ Js.dq ++ "https://auth.docker.io/token" ++ Js.dq ++
    ",service=" ++ Js.dq ++ "registry.docker.io" ++ Js.dq ++
    ",scope=" ++ Js.dq ++ "repository:library/nginx:pull" ++ Js.dq in
  Docker.rewriteHeaders req
    (Http.mkResponse 401 [("www-authenticate", upstream)] "") =
  [("www-authenticate",
    "Bearer realm=" ++ Js.dq ++ "https://proxy.example/token" ++ Js.dq ++
    ",service=" ++ Js.dq ++ "registry.docker.io" ++ Js.dq ++
    ",scope=" ++ Js.dq ++ "repository:library/nginx:pull" ++ Js.dq)].
Proof. reflexivity. Qed.

(** With two tokens per hour, the third request in a row is refused. *)
Example scenario_rate_limit :
  let cfg := RateLimiter.mkConfig 2 1 [] [] in
  let req := RateLimiter.mkRequest "/v2/nginx/manifests/alpine" None None
               (Some "203.0.113.5") None in
  let after recs :=
    match recs with
    | Some (_, r) => RateLimiter.rateLimiter cfg req 1000 r
    | None => None
    end in
  let first := RateLimiter.rateLimiter cfg req 1000 [] in
  let second := after first in
  let third := after second in
  List.map (option_map fst) [first; second; third] =
  [Some RateLimiter.Next; Some RateLimiter.Next; Some (RateLimiter.Respond 429)].
Proof. vm_compute. reflexivity. Qed.

(** Addresses of one /64 share a bucket key, another /64 has its own. *)
Example scenario_ipv6_aggregation :
  RateLimiter.normalizeIP "2001:db8::1" = RateLimiter.normalizeIP "2001:db8::ffff" /\
  RateLimiter.normalizeIP "2001:db8::1" <> RateLimiter.normalizeIP "2001:db8:1::1" /\
  RateLimiter.normalizeIP "203.0.113.5" = Some "203.0.113.5".
Proof. vm_compute. repeat split. discriminate. Qed.

(** A page served as [text/html] is refused, a release archive streams. *)
Example scenario_content_type :
  let cfg := GitHub.mkConfig 2147483648 in
  let req := Http.mkRequest "GET" "/x" None (Some "proxy.example") None None [] in
  GitHub.respond cfg req "https://raw.githubusercontent.com/a/b/main/index.html"
    (Http.mkResponse 200 [("content-type", "text/html; charset=utf-8")] "") =
    GitHub.ContentTypeNotAllowed /\
  GitHub.respond cfg req "https://github.com/a/b/releases/download/v1/f.zip"
    (Http.mkResponse 200 [("content-type", "application/zip")] "PK") =
    GitHub.Streamed 200 [("content-type", "application/zip")] "PK".
Proof. vm_compute. repeat split. Qed.

(** ** The cache: lookups *)

Section JsMapWf.
Context {E : Type}.
Implicit Types (m : JsMap.t E) (k : string) (e : E).

Lemma jsmap_get_in_keys m k e : JsMap.get m k = Some e -> In k (JsMap.keys m).
Proof.
  induction m as [|[k' e'] m IH]; simpl; [discriminate|].
  destruct (String.eqb k k') eqn:Hk.
  - apply String.eqb_eq in Hk. now left.
  - intros H. right. now apply IH.
Qed.

Lemma jsmap_delete_keys m k x : In x (JsMap.keys (JsMap.delete m k)) -> In x (JsMap.keys m).
Proof.
  induction m as [|[k' e'] m IH]; simpl; [easy|].
  destruct (String.eqb k k'); simpl; [now right|].
  intros [H|H]; [now left | right; now apply IH].
Qed.

Lemma jsmap_delete_wf m k : JsMap.wf m -> JsMap.wf (JsMap.delete m k).
Proof.
  unfold JsMap.wf. induction m as [|[k' e'] m IH]; simpl; [easy|].
  intros H. apply NoDup_cons_iff in H. destruct H as [Hn Hd].
  destruct (String.eqb k k'); [exact Hd|]. simpl. constructor.
  - intros Hin. apply Hn. now apply jsmap_delete_keys in Hin.
  - now apply IH.
Qed.

Lemma jsmap_get_delete_same m k : JsMap.wf m -> JsMap.get (JsMap.delete m k) k = None.
Proof.
  unfold JsMap.wf. induction m as [|[k' e'] m IH]; simpl; [easy|].
  intros H. apply NoDup_cons_iff in H. destruct H as [Hn Hd].
  destruct (String.eqb k k') eqn:Hk.
  - apply String.eqb_eq in Hk. subst k'. now apply jsmap_get_absent.
  - simpl. rewrite Hk. now apply IH.
Qed.

Lemma jsmap_get_delete_other m k k' :
  k' <> k -> JsMap.get (JsMap.delete m k) k' = JsMap.get m k'.
Proof.
  intros Hne. induction m as [|[k1 e1] m IH]; simpl; [reflexivity|].
  destruct (String.eqb k k1) eqn:Hk; simpl.
  - apply String.eqb_eq in Hk. subst k1.
    destruct (String.eqb k' k) eqn:Hk'; [apply String.eqb_eq in Hk'; easy | reflexivity].
  - now rewrite IH.
Qed.

Lemma jsmap_set_keys m k e x :
  In x (JsMap.keys (JsMap.set m k e)) -> x = k \/ In x (JsMap.keys m).
Proof.
  induction m as [|[k' e'] m IH]; simpl.
  - intros [H|[]]. now left.
  - destruct (String.eqb k k'); simpl.
    + intros H. now right.
    + intros [H|H]; [right; now left|]. destruct (IH H); auto.
Qed.

Lemma jsmap_set_wf m k e : JsMap.wf m -> JsMap.wf (JsMap.set m k e).
Proof.
  unfold JsMap.wf. induction m as [|[k' e'] m IH]; simpl.
  - intros _. repeat constructor. easy.
  - intros H. apply NoDup_cons_iff in H. destruct H as [Hn Hd].
    destruct (String.eqb k k') eqn:Hk; simpl.
    + now constructor.
    + constructor; [|now apply IH].
      intros Hin. apply jsmap_set_keys in Hin. destruct Hin as [->|Hin]; [|easy].
      now rewrite String.eqb_refl in Hk.
Qed.

Lemma filter_keys (f : string * E -> bool) m x :
  In x (JsMap.keys (List.filter f m)) -> In x (JsMap.keys m).
Proof.
  unfold JsMap.keys. rewrite !List.in_map_iff.
  intros (kv & <- & Hin). apply List.filter_In in Hin. exists kv. tauto.
Qed.

Lemma filter_wf (f : string * E -> bool) m : JsMap.wf m -> JsMap.wf (List.filter f m).
Proof.
  unfold JsMap.wf. induction m as [|[k' e'] m IH]; simpl; [easy|].
  intros H. apply NoDup_cons_iff in H. destruct H as [Hn Hd].
  destruct (f (k', e')); [|now apply IH]. simpl. constructor; [|now apply IH].
  intros Hin. apply Hn. now apply (filter_keys f).
Qed.

(** In a map with distinct keys, a filter keeps the entry of a key or
    hides the key. *)
Lemma jsmap_get_filter (f : string * E -> bool) m k :
  JsMap.wf m ->
  JsMap.get (List.filter f m) k =
  match JsMap.get m k with
  | Some e => if f (k, e) then Some e else None
  | None => None
  end.
Proof.
  unfold JsMap.wf. induction m as [|[k' e'] m IH]; simpl; [reflexivity|].
  intros H. apply NoDup_cons_iff in H. destruct H as [Hn Hd].
  destruct (String.eqb k k') eqn:Hk.
  - apply String.eqb_eq in Hk. subst k'.
    destruct (f (k, e')) eqn:Hf; simpl.
    + now rewrite String.eqb_refl.
    + apply jsmap_get_absent. intros Hin. apply Hn. now apply (filter_keys f).
  - destruct (f (k', e')); simpl; [rewrite Hk|]; now apply IH.
Qed.
End JsMapWf.

Section CacheLookups.
Context {V : Type}.
Implicit Types (c : Cache.t V) (o : Cache.op V).

Lemma cache_set_wf c nowC nowI key v ttl :
  JsMap.wf (Cache.data c) -> JsMap.wf (Cache.data (Cache.set c nowC nowI key v ttl)).
Proof.
  intros Hwf. unfold Cache.set.
  set (c1 := if _ >=? _ then Cache.cleanup c nowC else c).
  assert (H1 : JsMap.wf (Cache.data c1)).
  { subst c1. destruct (_ >=? _); [|assumption]. simpl. now apply filter_wf. }
  set (c2 := if _ >=? _ then Cache.evictFirst c1 else c1).
  assert (H2 : JsMap.wf (Cache.data c2)).
  { subst c2.
    destruct (JsMap.size (Cache.data c1) >=? Cache.maxSize c1); [|assumption].
    unfold Cache.evictFirst.
    destruct (JsMap.firstKey (Cache.data c1)); [|assumption].
    simpl. now apply jsmap_delete_wf. }
  simpl. now apply jsmap_set_wf.
Qed.

Lemma cache_step_wf c o : JsMap.wf (Cache.data c) -> JsMap.wf (Cache.data (Cache.step c o)).
Proof.
  intros Hwf. destruct o as [now key|nowC nowI key v ttl|key|]; simpl.
  - unfold Cache.get. destruct (JsMap.get (Cache.data c) key) as [e|]; [|assumption].
    destruct (Cache.expired now e); [|assumption]. simpl. now apply jsmap_delete_wf.
  - now apply cache_set_wf.
  - now apply jsmap_delete_wf.
  - constructor.
Qed.

Lemma cache_run_wf c ops : JsMap.wf (Cache.data c) -> JsMap.wf (Cache.data (Cache.run c ops)).
Proof.
  revert c. induction ops as [|o ops IH]; intros c Hwf; simpl; [assumption|].
  apply IH. now apply cache_step_wf.
Qed.

Lemma cache_reachable_wf maxSize defaultTTL ops :
  JsMap.wf (Cache.data (Cache.run (@Cache.new V maxSize defaultTTL) ops)).
Proof. apply cache_run_wf. constructor. Qed.

Lemma cache_set_holds_key c nowC nowI key v ttl :
  JsMap.get (Cache.data (Cache.set c nowC nowI key v ttl)) key =
  Some (Cache.mkEntry v
          (nowI + match ttl with Some x => x | None => Cache.defaultTTL c end)).
Proof.
  unfold Cache.set.
  set (c1 := if _ >=? _ then Cache.cleanup c nowC else c).
  set (c2 := if _ >=? _ then Cache.evictFirst c1 else c1).
  simpl. apply jsmap_get_set_same.
Qed.
End CacheLookups.

(** X1.  A value written by [set] is returned by [get] at every clock
    reading up to its expiry [nowI + ttl] (the default TTL when none is
    given), whatever the state of the cache before the [set], and such a
    [get] leaves the cache as it is; later than that, [get] returns
    [null]. *)
Theorem get_returns_what_set_wrote (V : Type) (c : Cache.t V)
    (nowC nowI now : Z) (key : string) (v : V) (ttl : option Z) :
  let c' := Cache.set c nowC nowI key v ttl in
  let expiry := nowI + match ttl with Some x => x | None => Cache.defaultTTL c end in
  (now <= expiry -> Cache.get c' now key = (Some v, c')) /\
  (expiry < now -> fst (Cache.get c' now key) = None).
Proof.
  intros c' expiry. unfold Cache.get. subst c'.
  rewrite cache_set_holds_key. unfold Cache.expired. cbn [Cache.expiresAt Cache.value].
  fold expiry. split; intros H.
  - destruct (Z.ltb_spec expiry now); [lia | reflexivity].
  - destruct (Z.ltb_spec expiry now); [reflexivity | lia].
Qed.

Lemma get_returns_what_set_wrote_witness :
  let c := Cache.set (Cache.new 500 1200000) 0 0 "token:docker:s" "tok"
             (Some 900000) in
  Cache.get c 900000 "token:docker:s" = (Some "tok", c) /\
  fst (Cache.get c 900001 "token:docker:s") = None.
Proof.
  intros c.
  destruct (get_returns_what_set_wrote string (Cache.new 500 1200000) 0 0 900000
              "token:docker:s" "tok" (Some 900000)) as [Hlive _].
  destruct (get_returns_what_set_wrote string (Cache.new 500 1200000) 0 0 900001
              "token:docker:s" "tok" (Some 900000)) as [_ Hdead].
  split; [apply Hlive | apply Hdead]; simpl; lia.
Defined.

(** X2.  On every cache reached from the empty one, [get] never returns an
    expired value: a returned value is the one stored under the key, its
    expiry is not before the clock reading, and the cache is unchanged; and
    after a [get] that returns [null] the key is absent (an expired entry
    is deleted by the lookup) while every other key keeps its entry. *)
Theorem get_hides_and_drops_expired (V : Type) (maxSize defaultTTL : Z)
    (ops : list (Cache.op V)) (now : Z) (key : string) :
  let c := Cache.run (Cache.new maxSize defaultTTL) ops in
  let c' := snd (Cache.get c now key) in
  (forall v, fst (Cache.get c now key) = Some v ->
     exists e, JsMap.get (Cache.data c) key = Some e /\ Cache.value e = v /\
               now <= Cache.expiresAt e /\ c' = c) /\
  (fst (Cache.get c now key) = None ->
     JsMap.get (Cache.data c') key = None) /\
  (forall k, k <> key ->
     JsMap.get (Cache.data c') k = JsMap.get (Cache.data c) k).
Proof.
  intros c c'. pose proof (cache_reachable_wf (V := V) maxSize defaultTTL ops) as Hwf.
  fold c in Hwf. subst c'. unfold Cache.get.
  destruct (JsMap.get (Cache.data c) key) as [e|] eqn:Hg.
  - unfold Cache.expired. destruct (Z.ltb_spec (Cache.expiresAt e) now); simpl.
    + split; [discriminate|]. split.
      * intros _. now apply jsmap_get_delete_same.
      * intros k Hk. now apply jsmap_get_delete_other.
    + split; [|split; [discriminate | reflexivity]].
      intros v [= <-]. exists e. repeat split; auto.
  - simpl. split; [discriminate|]. split; [now intros _ | reflexivity].
Qed.

(** X3.  On every cache reached from the empty one, [cleanup] removes the
    expired entries only and is invisible to readers: at the same clock
    reading every [get] returns what it returned before the [cleanup], no
    entry left is expired, and the size does not grow. *)
Theorem cleanup_is_invisible_to_get (V : Type) (maxSize defaultTTL : Z)
    (ops : list (Cache.op V)) (now : Z) :
  let c := Cache.run (Cache.new maxSize defaultTTL) ops in
  (forall key, fst (Cache.get (Cache.cleanup c now) now key) =
               fst (Cache.get c now key)) /\
  noneExpired now (Cache.cleanup c now) /\
  Cache.size (Cache.cleanup c now) <= Cache.size c.
Proof.
  intros c. pose proof (cache_reachable_wf (V := V) maxSize defaultTTL ops) as Hwf.
  fold c in Hwf. split; [|split].
  - intros key. unfold Cache.get, Cache.cleanup, Cache.with_data. cbn [Cache.data].
    rewrite jsmap_get_filter by assumption.
    destruct (JsMap.get (Cache.data c) key) as [e|]; [|reflexivity].
    cbn [snd]. destruct (Cache.expired now e) eqn:He; cbn [negb]; [reflexivity|].
    now rewrite He.
  - intros kv Hin. unfold Cache.cleanup, Cache.with_data in Hin.
    cbn [Cache.data] in Hin.
    apply List.filter_In in Hin. destruct Hin as [_ H]. now apply negb_true_iff in H.
  - unfold Cache.size, JsMap.size, Cache.cleanup, Cache.with_data. cbn [Cache.data].
    pose proof (filter_length_le
                  (fun kv : string * Cache.entry V => negb (Cache.expired now (snd kv)))
                  (Cache.data c)). lia.
Qed.

(** ** CIDR membership *)

Section CidrBytes.
Import RateLimiter.

Lemma mask_table : allBelow 8 0 mask_check = true.
Proof. vm_cast_no_check (@eq_refl bool true). Qed.

Lemma mask_keeps_top x b :
  isByte x -> 1 <= b <= 8 ->
  Z.land x (maskOf (Some b)) = x / 2 ^ (8 - b) * 2 ^ (8 - b).
Proof.
  intros Hx Hb.
  pose proof (allBelow_spec 8 0 mask_check mask_table x) as H.
  change (0 + 2 ^ Z.of_nat 8) with 256 in H. specialize (H Hx).
  unfold mask_check in H. rewrite List.forallb_forall in H.
  apply Z.eqb_eq. apply H.
  assert (Hcases : b = 1 \/ b = 2 \/ b = 3 \/ b = 4 \/ b = 5 \/ b = 6 \/ b = 7 \/ b = 8)
    by lia.
  simpl. intuition.
Qed.

Lemma masked_eq x y b :
  isByte x -> isByte y -> 1 <= b <= 8 ->
  (Z.land x (maskOf (Some b)) =? Z.land y (maskOf (Some b))) = true <->
  x / 2 ^ (8 - b) = y / 2 ^ (8 - b).
Proof.
  intros Hx Hy Hb. rewrite Z.eqb_eq, !mask_keeps_top by assumption.
  assert (Hp : 0 < 2 ^ (8 - b)) by (apply Z.pow_pos_nonneg; lia).
  split; [|now intros ->]. intros H. nia.
Qed.

Lemma beValue_range bs :
  List.Forall isByte bs -> 0 <= beValue bs < 256 ^ Z.of_nat (List.length bs).
Proof.
  induction 1 as [|b bs Hb Hbs IH]; [simpl; lia|].
  cbn [beValue List.length]. rewrite Nat2Z.inj_succ, Z.pow_succ_r by lia.
  unfold isByte in Hb.
  assert (Hp : 0 < 256 ^ Z.of_nat (List.length bs)) by (apply Z.pow_pos_nonneg; lia).
  nia.
Qed.

Lemma compareFrom_shift a b xs ys p i n :
  compareFrom (a :: xs) (b :: ys) (Some p) (S i) n =
  compareFrom xs ys (Some (p - 8)) i n.
Proof.
  revert i. induction n as [|n IH]; intros i; [reflexivity|].
  cbn [compareFrom bitsInThisByte].
  replace (p - 8 - Z.of_nat i * 8) with (p - Z.of_nat (S i) * 8) by lia.
  unfold byteAt. cbn [List.nth]. rewrite IH. reflexivity.
Qed.

Lemma compareFrom_done xs ys p n :
  p <= 0 -> compareFrom xs ys (Some p) 0 n = true.
Proof.
  intros Hp. destruct n as [|n]; [reflexivity|].
  cbn [compareFrom bitsInThisByte]. cbn [Z.of_nat].
  replace (Z.min 8 (Z.max 0 (p - 0 * 8))) with 0 by lia. reflexivity.
Qed.

Lemma pow256 m : 256 ^ Z.of_nat m = 2 ^ (8 * Z.of_nat m).
Proof. change 256 with (2 ^ 8). rewrite <- Z.pow_mul_r by lia. reflexivity. Qed.

(** The loop of [isIPInCIDR] compares the leading [p] bits. *)
Lemma compareFrom_topBits xs ys p :
  List.Forall isByte xs -> List.Forall isByte ys ->
  List.length xs = List.length ys ->
  0 <= p <= 8 * Z.of_nat (List.length ys) ->
  compareFrom xs ys (Some p) 0 (List.length ys) = true <->
  topBits p xs = topBits p ys.
Proof.
  intros Hxs. revert ys p.
  induction Hxs as [|x xs Hx Hxs IH]; intros ys p Hys Hlen Hp.
  - destruct ys; [|discriminate]. simpl. tauto.
  - destruct ys as [|y ys]; [discriminate|].
    apply List.Forall_cons_iff in Hys. destruct Hys as [Hy Hys].
    injection Hlen as Hlen.
    pose proof (beValue_range xs Hxs) as RX. pose proof (beValue_range ys Hys) as RY.
    rewrite Hlen in RX. rewrite pow256 in RX, RY.
    unfold topBits. cbn [List.length beValue] in *. rewrite Hlen.
    rewrite !pow256. rewrite Nat2Z.inj_succ in *.
    set (m := Z.of_nat (List.length ys)) in *.
    assert (Hm : 0 <= m) by (subst m; lia).
    cbn [compareFrom bitsInThisByte]. cbn [Z.of_nat].
    replace (p - 0 * 8) with p by lia.
    destruct (Z.eq_dec p 0) as [->|Hp0].
    + change (Z.min 8 (Z.max 0 0)) with 0. cbv iota.
      replace (8 * Z.succ m - 0) with (8 + 8 * m) by lia.
      rewrite Z.pow_add_r by lia.
      assert (Hpm : 0 < 2 ^ (8 * m)) by (apply Z.pow_pos_nonneg; lia).
      unfold isByte in Hx, Hy.
      rewrite !Z.div_small by (change (2 ^ 8) with 256; nia). tauto.
    + destruct (Z.lt_ge_cases p 8) as [Hlt|Hge].
      * replace (Z.min 8 (Z.max 0 p)) with p by lia.
        assert (Hb : 1 <= p <= 8) by lia.
        destruct p as [|pp|pp]; try lia.
        unfold byteAt. cbn [List.nth].
        rewrite compareFrom_shift, compareFrom_done by lia.
        destruct (Z.land x (maskOf (Some (Z.pos pp))) =?
                  Z.land y (maskOf (Some (Z.pos pp)))) eqn:E.
        -- apply masked_eq in E; [|assumption..].
           split; [intros _|reflexivity].
           replace (8 * Z.succ m - Z.pos pp) with (8 * m + (8 - Z.pos pp)) by lia.
           rewrite Z.pow_add_r by lia.
           rewrite <- !Z.div_div by (try apply Z.pow_pos_nonneg; try apply Z.pow_nonneg; lia).
           rewrite !Z.div_add_l by lia.
           rewrite !(Z.div_small (beValue _)) by lia.
           now rewrite !Z.add_0_r.
        -- split; [discriminate|]. intros H. exfalso.
           assert (E' : x / 2 ^ (8 - Z.pos pp) = y / 2 ^ (8 - Z.pos pp)).
           { revert H.
             replace (8 * Z.succ m - Z.pos pp) with (8 * m + (8 - Z.pos pp)) by lia.
             rewrite Z.pow_add_r by lia.
             rewrite <- !Z.div_div by (try apply Z.pow_pos_nonneg; try apply Z.pow_nonneg; lia).
             rewrite !Z.div_add_l by lia.
             rewrite !(Z.div_small (beValue _)) by lia.
             now rewrite !Z.add_0_r. }
           apply masked_eq in E'; [|assumption..]. congruence.
      * replace (Z.min 8 (Z.max 0 p)) with 8 by lia.
        unfold byteAt. cbn [List.nth].
        rewrite compareFrom_shift.
        assert (Hmask : forall z, isByte z -> Z.land z (maskOf (Some 8)) = z).
        { intros z Hz. rewrite mask_keeps_top by (assumption || lia).
          change (2 ^ (8 - 8)) with 1. now rewrite Z.div_1_r, Z.mul_1_r. }
        rewrite (Hmask x Hx), (Hmask y Hy).
        specialize (IH ys (p - 8) Hys Hlen ltac:(lia)).
        unfold topBits in IH. rewrite Hlen in IH. fold m in IH.
        replace (8 * m - (p - 8)) with (8 * Z.succ m - p) in IH by lia.
        set (s := 8 * Z.succ m - p) in *.
        assert (Hs : 0 <= s <= 8 * m) by (subst s; lia).
        assert (Hsplit : 2 ^ (8 * m) = 2 ^ (8 * m - s) * 2 ^ s).
        { rewrite <- Z.pow_add_r by lia. f_equal. lia. }
        assert (Hps : 0 < 2 ^ s) by (apply Z.pow_pos_nonneg; lia).
        assert (Hpk : 0 < 2 ^ (8 * m - s)) by (apply Z.pow_pos_nonneg; lia).
        assert (Hdiv : forall z Z', 0 <= Z' < 2 ^ (8 * m) ->
                  (z * 2 ^ (8 * m) + Z') / 2 ^ s = z * 2 ^ (8 * m - s) + Z' / 2 ^ s /\
                  0 <= Z' / 2 ^ s < 2 ^ (8 * m - s)).
        { intros z Z' HZ. split.
          - rewrite Hsplit, Z.mul_assoc, Z.div_add_l by lia. reflexivity.
          - split; [apply Z.div_pos; lia|]. apply Z.div_lt_upper_bound; [lia|].
            rewrite Z.mul_comm, <- Hsplit. lia. }
        destruct (Hdiv x (beValue xs) RX) as [-> BX].
        destruct (Hdiv y (beValue ys) RY) as [-> BY].
        destruct (x =? y) eqn:E.
        -- apply Z.eqb_eq in E. subst y. rewrite IH. split; intros H; lia.
        -- apply Z.eqb_neq in E. split; [discriminate|]. intros H. exfalso. nia.
Qed.
End CidrBytes.

Section CidrText.
Import Ipv6Text RateLimiter.

Lemma hasChar_split c sep s :
  c <> sep ->
  hasChar c s = List.existsb (hasChar c) (Js.split s sep).
Proof.
  intros Hne. induction s as [|d s IH]; [reflexivity|].
  cbn [hasChar Js.split]. rewrite IH.
  destruct (Ascii.eqb d sep) eqn:E.
  - apply Ascii.eqb_eq in E. subst d.
    destruct (Ascii.eqb sep c) eqn:E'; [apply Ascii.eqb_eq in E'; congruence|].
    reflexivity.
  - pose proof (split_not_nil sep s) as Hnil.
    destruct (Js.split s sep) as [|h t]; [congruence|].
    cbn [List.existsb hasChar]. now rewrite orb_assoc.
Qed.

Lemma hasChar_join c sep parts :
  hasChar c sep = false ->
  List.existsb (hasChar c) parts = false ->
  hasChar c (Js.join parts sep) = false.
Proof.
  intros Hsep. induction parts as [|p parts IH]; [reflexivity|].
  cbn [List.existsb]. intros H. apply orb_false_iff in H. destruct H as [Hp Hps].
  destruct parts as [|p' parts']; [exact Hp|].
  change (Js.join (p :: p' :: parts') sep)
    with (p ++ sep ++ Js.join (p' :: parts') sep).
  now rewrite !hasChar_app, Hp, Hsep, (IH Hps).
Qed.

Lemma allDecimal_lacks c s :
  Js.digitOf 10 c = None -> allDecimal s = true -> hasChar c s = false.
Proof.
  intros Hc. induction s as [|d s IH]; [reflexivity|].
  cbn [allDecimal hasChar]. intros H. apply andb_true_iff in H. destruct H as [Hd Hs].
  rewrite (IH Hs), orb_false_r.
  destruct (Ascii.eqb d c) eqn:E; [|reflexivity].
  apply Ascii.eqb_eq in E. subst d. now rewrite Hc in Hd.
Qed.

Lemma allHex_lacks c s :
  Js.digitOf 16 c = None -> allHex s = true -> hasChar c s = false.
Proof.
  intros Hc. induction s as [|d s IH]; [reflexivity|].
  cbn [allHex hasChar]. intros H. apply andb_true_iff in H. destruct H as [Hd Hs].
  rewrite (IH Hs), orb_false_r.
  destruct (Ascii.eqb d c) eqn:E; [|reflexivity].
  apply Ascii.eqb_eq in E. subst d. unfold isHexDigit in Hd. now rewrite Hc in Hd.
Qed.

(** A decimal digit at the head of a string is neither white space nor a
    sign. *)
Lemma decimal_head c r :
  (match Js.digitOf 10 c with Some _ => true | None => false end) = true ->
  Js.trimStart (String c r) = String c r /\
  match String c r with
  | String "-"%char r' => (-1, r')
  | String "+"%char r' => (1, r')
  | _ => (1, String c r)
  end = (1, String c r).
Proof.
  destruct c as [[] [] [] [] [] [] [] []]; intros H;
    try (vm_compute in H; discriminate H); split; reflexivity.
Qed.

Lemma takeDigits_allDecimal s acc :
  allDecimal s = true ->
  List.fold_left (fun a d => a * 10 + d) (Js.takeDigits 10 s) acc =
  valueFrom 10 acc s.
Proof.
  revert acc. induction s as [|c s IH]; intros acc H; [reflexivity|].
  cbn [allDecimal] in H. apply andb_true_iff in H. destruct H as [Hc Hs].
  cbn [Js.takeDigits valueFrom]. unfold digitValue.
  destruct (Js.digitOf 10 c) as [d|]; [|discriminate].
  cbn [List.fold_left]. now apply IH.
Qed.

(** [parseInt(s, 10)] reads a run of decimal digits as its value. *)
Lemma parseInt_decimal s :
  s <> EmptyString -> allDecimal s = true ->
  Js.parseInt s 10 = Some (valueFrom 10 0 s).
Proof.
  intros Hne Hall. destruct s as [|c r]; [congruence|].
  assert (Hc : (match Js.digitOf 10 c with Some _ => true | None => false end) = true)
    by (cbn [allDecimal] in Hall; now apply andb_true_iff in Hall).
  destruct (decimal_head c r Hc) as [Htrim Hsign].
  unfold Js.parseInt. rewrite Htrim, Hsign.
  change (10 =? 16) with false. cbn [andb].
  pose proof (takeDigits_allDecimal (String c r) 0 Hall) as Hv.
  unfold Js.digitsValue.
  destruct (Js.takeDigits 10 (String c r)) as [|d ds] eqn:Htd.
  - exfalso. cbn [Js.takeDigits] in Htd.
    destruct (Js.digitOf 10 c); discriminate.
  - rewrite Hv. f_equal. lia.
Qed.

Lemma valueFrom_nonneg radix s acc :
  0 < radix -> 0 <= acc -> 0 <= valueFrom radix acc s.
Proof.
  intros Hr. revert acc. induction s as [|c s IH]; intros acc Hacc; [exact Hacc|].
  cbn [valueFrom]. apply IH. unfold digitValue.
  destruct (Js.digitOf radix c) as [d|] eqn:E; [|nia].
  pose proof (digitOf_range radix c d Hr E). nia.
Qed.

Lemma octet_parse o :
  isOctet o = true ->
  Js.toUint8 (Js.parseInt o 10) = valueFrom 10 0 o /\ isByte (valueFrom 10 0 o) /\
  hasChar ":" o = false /\ hasChar "/" o = false.
Proof.
  unfold isOctet. intros H.
  apply andb_true_iff in H. destruct H as [H Hle]. apply Z.leb_le in Hle.
  apply andb_true_iff in H. destruct H as [H Hall].
  apply andb_true_iff in H. destruct H as [H1 _]. apply Nat.leb_le in H1.
  assert (Hne : o <> EmptyString) by (destruct o; [simpl in H1; lia|discriminate]).
  pose proof (valueFrom_nonneg 10 o 0 ltac:(lia) ltac:(lia)) as Hpos.
  rewrite (parseInt_decimal o Hne Hall). cbn [Js.toUint8].
  split; [apply Z.mod_small; lia|]. split; [unfold isByte; lia|].
  split; apply allDecimal_lacks; auto.
Qed.

(** What [parseIPv4] reads from a dotted quad. *)
Lemma parseIPv4_quad q :
  isDottedQuad q = true ->
  parseIPv4 q = quadBytes q /\ List.length (quadBytes q) = 4%nat /\
  List.Forall isByte (quadBytes q) /\
  hasChar ":" q = false /\ hasChar "/" q = false.
Proof.
  unfold isDottedQuad, parseIPv4, quadBytes. intros H.
  apply andb_true_iff in H. destruct H as [Hlen Hall]. apply Nat.eqb_eq in Hlen.
  rewrite (hasChar_split ":" "." q), (hasChar_split "/" "." q) by discriminate.
  rewrite List.length_map.
  assert (G : forall l, List.forallb isOctet l = true ->
              List.map (fun p => Js.toUint8 (Js.parseInt p 10)) l =
                List.map (valueFrom 10 0) l /\
              List.Forall isByte (List.map (valueFrom 10 0) l) /\
              List.existsb (hasChar ":") l = false /\
              List.existsb (hasChar "/") l = false).
  { induction l as [|x l IHl]; [repeat split; constructor|].
    cbn [List.forallb List.map List.existsb]. intros Hx.
    apply andb_true_iff in Hx. destruct Hx as [Hx Hl].
    destruct (octet_parse x Hx) as (E1 & E2 & E3 & E4).
    destruct (IHl Hl) as (F1 & F2 & F3 & F4).
    rewrite E1, F1, E3, E4, F3, F4. repeat split. now constructor. }
  destruct (G _ Hall) as (G1 & G2 & G3 & G4). auto.
Qed.

Lemma includes_sep_app c s t : Js.includes (s ++ String c t) (String c "") = true.
Proof.
  rewrite includes_char, hasChar_app. cbn [hasChar].
  now rewrite Ascii.eqb_refl, orb_true_r.
Qed.

Lemma split_two c s t :
  hasChar c s = false -> hasChar c t = false ->
  Js.split (s ++ String c t) c = [s; t].
Proof.
  intros Hs Ht. now rewrite split_app, !split_plain by assumption.
Qed.

Lemma isPrefixText_parse ptxt :
  isPrefixText ptxt = true ->
  Js.parseInt ptxt 10 = Some (valueFrom 10 0 ptxt) /\
  0 <= valueFrom 10 0 ptxt.
Proof.
  unfold isPrefixText. intros H. apply andb_true_iff in H. destruct H as [Hne Hall].
  apply negb_true_iff in Hne. apply String.eqb_neq in Hne.
  split; [now apply parseInt_decimal|]. apply valueFrom_nonneg; lia.
Qed.

(** X4. An IPv4 address is in [net/p] exactly when its leading [p] bits are
    those of [net]. *)
Theorem cidr_v4_compares_leading_bits ip net ptxt :
  isDottedQuad ip = true -> isDottedQuad net = true ->
  isPrefixText ptxt = true -> valueFrom 10 0 ptxt <= 32 ->
  isIPInCIDR ip (net ++ "/" ++ ptxt) = true <->
  topBits (valueFrom 10 0 ptxt) (quadBytes ip) =
  topBits (valueFrom 10 0 ptxt) (quadBytes net).
Proof.
  intros Hip Hnet Hp Hle.
  destruct (parseIPv4_quad ip Hip) as (I1 & I2 & I3 & I4 & _).
  destruct (parseIPv4_quad net Hnet) as (N1 & N2 & N3 & N4 & N5).
  destruct (isPrefixText_parse ptxt Hp) as [P1 P2].
  assert (P3 : hasChar "/" ptxt = false).
  { unfold isPrefixText in Hp. apply andb_true_iff in Hp.
    apply allDecimal_lacks; [reflexivity|tauto]. }
  change (net ++ "/" ++ ptxt) with (net ++ String "/" ptxt).
  unfold isIPInCIDR, parseCIDR.
  rewrite includes_sep_app, (split_two "/" net ptxt N5 P3).
  cbn [List.nth]. rewrite P1, !includes_char, I4, N4, I1, N1.
  cbn [isIPv6 bytes prefix Bool.eqb negb].
  apply compareFrom_topBits; [assumption | assumption | congruence |].
  rewrite N2. lia.
Qed.

Lemma cidr_v4_compares_leading_bits_witness :
  isIPInCIDR "10.1.2.3" "10.0.0.0/8" = true <->
  topBits 8 (quadBytes "10.1.2.3") = topBits 8 (quadBytes "10.0.0.0").
Proof.
  apply (cidr_v4_compares_leading_bits "10.1.2.3" "10.0.0.0" "8");
    [reflexivity | reflexivity | reflexivity | vm_compute; discriminate].
Defined.

Lemma bytesOf_word v :
  0 <= v < 65536 ->
  exists hi lo, bytesOf v = [hi; lo] /\ isByte hi /\ isByte lo /\ hi * 256 + lo = v.
Proof.
  intros Hv. unfold bytesOf. do 2 eexists. split; [reflexivity|].
  change 255 with (Z.ones 8). rewrite !Z.land_ones, Z.shiftr_div_pow2 by lia.
  change (2 ^ 8) with 256. unfold isByte.
  pose proof (Z.mod_pos_bound (v / 256) 256 ltac:(lia)).
  pose proof (Z.mod_pos_bound v 256 ltac:(lia)).
  assert (0 <= v / 256 < 256)
    by (split; [apply Z.div_pos; lia | apply Z.div_lt_upper_bound; lia]).
  rewrite (Z.mod_small (v / 256)) by lia.
  pose proof (Z.div_mod v 256 ltac:(lia)). lia.
Qed.

Lemma bytes_of_groups vs :
  List.Forall (fun v => 0 <= v < 65536) vs ->
  List.Forall isByte (List.flat_map bytesOf vs) /\
  List.length (List.flat_map bytesOf vs) = (2 * List.length vs)%nat /\
  beValue (List.flat_map bytesOf vs) = groupsValue vs.
Proof.
  induction 1 as [|v vs Hv Hvs IH]; [repeat split; constructor|].
  destruct IH as (F & L & B).
  destruct (bytesOf_word v Hv) as (hi & lo & E & Hhi & Hlo & Hsum).
  cbn [List.flat_map]. rewrite E. cbn [List.app].
  split; [constructor; [exact Hhi | constructor; [exact Hlo | exact F]]|].
  split; [cbn [List.length]; lia|].
  cbn [beValue groupsValue List.length]. rewrite B, L.
  replace (Z.of_nat (S (2 * List.length vs))) with (Z.succ (Z.of_nat (2 * List.length vs)))
    by lia.
  rewrite Z.pow_succ_r by lia.
  replace (256 ^ Z.of_nat (2 * List.length vs)) with (65536 ^ Z.of_nat (List.length vs)).
  - subst v. ring.
  - change 65536 with (256 ^ 2). rewrite <- Z.pow_mul_r by lia. f_equal. lia.
Qed.

(** What [parseIPv6] reads from a valid text form. *)
Lemma parseIPv6_valid t :
  valid t = true -> hexOnly t = true ->
  parseIPv6 (render t) = Some (List.flat_map bytesOf (denote t)).
Proof.
  intros Hv Hh.
  destruct (expand_valid t Hv Hh) as (_ & E & L & A & D).
  unfold parseIPv6. rewrite E, (parse_eight _ L A), <- D.
  f_equal. clear. induction (expanded t) as [|g gs IH]; [reflexivity|].
  cbn [List.flat_map List.map]. now rewrite IH.
Qed.

Lemma hexGroups_lack c gs :
  Js.digitOf 16 c = None -> List.forallb isHexGroup gs = true ->
  List.existsb (hasChar c) gs = false.
Proof.
  intros Hc. induction gs as [|g gs IH]; [reflexivity|].
  cbn [List.forallb List.existsb]. intros H.
  apply andb_true_iff in H. destruct H as [Hg Hgs].
  rewrite (IH Hgs), orb_false_r. apply allHex_lacks; [exact Hc|].
  unfold isHexGroup in Hg. apply andb_true_iff in Hg. tauto.
Qed.

Lemma render_lacks_slash t :
  valid t = true -> hexOnly t = true -> hasChar "/" (render t) = false.
Proof.
  destruct t as [gs [q|] | b a [q|]]; try discriminate; intros Hv _.
  - cbn [valid tailOk] in Hv.
    apply andb_true_iff in Hv. destruct Hv as [Hv _].
    apply andb_true_iff in Hv. destruct Hv as [Hall _].
    cbn [render tailText]. rewrite List.app_nil_r.
    apply hasChar_join; [reflexivity|]. now apply hexGroups_lack.
  - cbn [valid tailOk] in Hv.
    apply andb_true_iff in Hv. destruct Hv as [Hv _].
    apply andb_true_iff in Hv. destruct Hv as [Hv _].
    apply andb_true_iff in Hv. destruct Hv as [Hb Ha].
    cbn [render tailText]. rewrite List.app_nil_r, !hasChar_app.
    rewrite !hasChar_join by (try reflexivity; now apply hexGroups_lack).
    reflexivity.
Qed.

(** X5. An IPv6 address is in [net/p] exactly when the leading [p] bits of
    its 128-bit value are those of [net]. *)
Theorem cidr_v6_compares_leading_bits t net ptxt :
  valid t = true -> hexOnly t = true ->
  valid net = true -> hexOnly net = true ->
  isPrefixText ptxt = true -> valueFrom 10 0 ptxt <= 128 ->
  isIPInCIDR (render t) (render net ++ "/" ++ ptxt) = true <->
  groupsValue (denote t) / 2 ^ (128 - valueFrom 10 0 ptxt) =
  groupsValue (denote net) / 2 ^ (128 - valueFrom 10 0 ptxt).
Proof.
  intros Hv Hh Hnv Hnh Hp Hle.
  destruct (expand_valid t Hv Hh) as (I1 & _).
  destruct (expand_valid net Hnv Hnh) as (N1 & _).
  destruct (normalize_valid t Hv Hh) as (_ & L1 & R1).
  destruct (normalize_valid net Hnv Hnh) as (_ & L2 & R2).
  destruct (bytes_of_groups _ R1) as (F1 & K1 & B1).
  destruct (bytes_of_groups _ R2) as (F2 & K2 & B2).
  destruct (isPrefixText_parse ptxt Hp) as [P1 P2].
  assert (P3 : hasChar "/" ptxt = false).
  { unfold isPrefixText in Hp. apply andb_true_iff in Hp.
    apply allDecimal_lacks; [reflexivity|tauto]. }
  pose proof (render_lacks_slash net Hnv Hnh) as N5.
  change (render net ++ "/" ++ ptxt) with (render net ++ String "/" ptxt).
  unfold isIPInCIDR, parseCIDR.
  rewrite includes_sep_app, (split_two "/" (render net) ptxt N5 P3).
  cbn [List.nth]. rewrite P1, I1, N1, !parseIPv6_valid by assumption.
  cbn [isIPv6 bytes prefix Bool.eqb negb].
  rewrite compareFrom_topBits; [| assumption | assumption | congruence |].
  - unfold topBits. rewrite B1, B2, K1, K2, L1, L2.
    change (8 * Z.of_nat (2 * 8)) with 128. tauto.
  - rewrite K2, L2. change (8 * Z.of_nat (2 * 8)) with 128. lia.
Qed.

Lemma cidr_v6_compares_leading_bits_witness :
  isIPInCIDR "2001:db8::1" "2001:db8::/32" = true <->
  groupsValue [8193; 3512; 0; 0; 0; 0; 0; 1] / 2 ^ 96 =
  groupsValue [8193; 3512; 0; 0; 0; 0; 0; 0] / 2 ^ 96.
Proof.
  apply (cidr_v6_compares_leading_bits
           (Compressed ["2001"; "db8"] ["1"] None)
           (Compressed ["2001"; "db8"] [] None) "32");
    [reflexivity | reflexivity | reflexivity | reflexivity | reflexivity
    | vm_compute; discriminate].
Defined.

(** X6. An address of one family never matches a range of the other. *)
Theorem cidr_families_never_mix ip net ptxt :
  hasChar "/" net = false ->
  Js.includes ip ":" = negb (Js.includes net ":") ->
  isIPInCIDR ip (net ++ "/" ++ ptxt) = false /\
  isIPInList ip [net] = false.
Proof.
  intros Hnet Hfam.
  assert (G : forall p, isIPInCIDR ip (net ++ String "/" p) = false).
  { intros p. unfold isIPInCIDR, parseCIDR.
    rewrite includes_sep_app. rewrite split_app, (split_plain "/" net Hnet).
    pose proof (split_not_nil "/" p) as Hnil.
    destruct (Js.split p "/") as [|p1 ps]; [congruence|].
    cbn [List.app List.nth]. rewrite Hfam.
    destruct (Js.includes net ":"); cbn [negb].
    - destruct (parseIPv6 net); reflexivity.
    - destruct (parseIPv6 ip); reflexivity. }
  split; [apply G|].
  cbn [isIPInList]. rewrite includes_char, Hnet.
  destruct (Js.includes ip ":").
  - change (net ++ "/128") with (net ++ String "/" "128"). now rewrite G.
  - change (net ++ "/32") with (net ++ String "/" "32"). now rewrite G.
Qed.

Lemma cidr_families_never_mix_witness :
  isIPInCIDR "::1" ("0.0.0.0" ++ "/" ++ "0") = false /\
  isIPInList "::1" ["0.0.0.0"] = false.
Proof.
  apply (cidr_families_never_mix "::1" "0.0.0.0" "0"); reflexivity.
Defined.

End CidrText.

(** ** The token bucket over time *)

Section BucketOverTime.
Import RateLimiter.

Lemma refill_same_instant cfg r now :
  lastRefill r = now -> (tokens r <= requestLimit cfg)%Q ->
  (refill cfg r now == tokens r)%Q.
Proof.
  intros Hl Ht. unfold refill. rewrite Hl, Z.sub_diag.
  assert (E : (tokens r + inject_Z 0 / periodMs cfg * requestLimit cfg == tokens r)%Q).
  { unfold Qdiv. change (inject_Z 0) with 0%Q. ring. }
  destruct (Q.min_spec (requestLimit cfg)
              (tokens r + inject_Z 0 / periodMs cfg * requestLimit cfg)%Q)
    as [[H1 H2]|[H1 H2]]; rewrite H2; lra.
Qed.






End BucketOverTime.

(** ** The bucket after an idle period, on binary64 *)

Section IdlePeriod64.
Import RateLimiter64.

Lemma mathMin_left N b mN eN :
  Prim2SF N = S754_finite false mN eN ->
  SFleb (S754_finite false mN eN) (Prim2SF b) = true ->
  mathMin N b = N.
Proof.
  intros HN Hb. unfold mathMin, is_nan.
  rewrite !FloatAxioms.eqb_spec, !FloatAxioms.ltb_spec, HN.
  assert (E : SFeqb (S754_finite false mN eN) (S754_finite false mN eN) = true)
    by (now apply SFeqb_refl).
  rewrite E. cbn [negb orb].
  destruct (Prim2SF b) as [s|[]| |[] mb eb] eqn:Eb; try discriminate Hb;
    [reflexivity|].
  assert (E2 : SFeqb (S754_finite false mb eb) (S754_finite false mb eb) = true)
    by (now apply SFeqb_refl).
  rewrite E2. cbn [negb].
  destruct (SFltb (S754_finite false mN eN) (S754_finite false mb eb)) eqn:L;
    [reflexivity|].
  assert (Hsame : b = N).
  { apply Prim2SF_inj. rewrite Eb, HN. apply SFleb_finite in Hb.
    assert (NL : ~ (eN < eb \/ (eN = eb /\ Zpos mN < Zpos mb)))
      by (intros C; apply SFltb_finite in C; congruence).
    assert (eb = eN) by lia. assert (Zpos mb = Zpos mN) by lia.
    subst eb. f_equal. lia. }
  destruct (SFltb (S754_finite false mb eb) (S754_finite false mN eN));
    [exact Hsame|].
  destruct (get_sign N); [reflexivity | exact Hsame].
Qed.

Lemma idle_refill cfg r now :
  (1 <=? requestLimit cfg)%float = true ->
  (requestLimit cfg <? infinity)%float = true ->
  (0 <? periodHours cfg)%float = true ->
  (0 <=? tokens r)%float = true -> lastRefill r <= now ->
  (periodMs cfg <=? number (now - lastRefill r))%float = true ->
  refill cfg r now = requestLimit cfg.
Proof.
  intros HN Hfin HP Ht Hclock Hidle.
  destruct (limit_finite _ HN Hfin) as (mN & eN & HNsf).
  pose proof (Prim2SF_valid (requestLimit cfg)) as VN. rewrite HNsf in VN.
  destruct (valid_finite _ _ _ VN) as [CN _].
  apply periodMs_positive in HP. rewrite ltb_zero in HP.
  rewrite leb_zero in Ht. rewrite FloatAxioms.leb_spec in Hidle.
  destruct (number_range (now - lastRefill r) ltac:(lia)) as [E0 Efin].
  unfold refill. apply (mathMin_left _ _ mN eN HNsf).
  rewrite FloatAxioms.add_spec.
  apply SFadd_ge; [apply Prim2SF_valid | exact CN | exact Ht |].
  rewrite FloatAxioms.mul_spec, HNsf.
  apply SFmul_ge; [apply Prim2SF_valid | exact CN |].
  rewrite FloatAxioms.div_spec.
  pose proof (Prim2SF_valid (number (now - lastRefill r))) as V1.
  pose proof (Prim2SF_valid (periodMs cfg)) as V2.
  destruct (SFltb_zero_cases _ HP) as [(m2 & e2 & EP)|EP]; rewrite EP in *.
  - destruct (SFleb_zero_cases _ E0) as [[s E]|[(m1 & e1 & E)|E]]; rewrite E in *;
      try discriminate.
    now apply SFdiv_ge_one.
  - destruct (SFleb_zero_cases _ E0) as [[s E]|[(m1 & e1 & E)|E]]; rewrite E in *;
      discriminate.
Qed.

(** X8. A bucket left alone for a whole period is full again, whatever it
    held: when the elapsed milliseconds are not below [periodMs] as the
    source computes it, the next request passes and leaves
    [requestLimit - 1] tokens. *)
Theorem idle_period_refills_bucket cfg ipRecords key now r :
  (1 <=? requestLimit cfg)%float = true ->
  (requestLimit cfg <? infinity)%float = true ->
  (0 <? periodHours cfg)%float = true ->
  JsMap.get ipRecords key = Some r ->
  (0 <=? tokens r)%float = true ->
  0 <= lastRefill r <= now -> now < 2 ^ 53 ->
  (periodMs cfg <=? number (now - lastRefill r))%float = true ->
  fst (bucketStep cfg ipRecords key now) = RateLimiter.Next /\
  exists r',
    JsMap.get (snd (bucketStep cfg ipRecords key now)) key = Some r' /\
    tokens r' = (requestLimit cfg - 1)%float /\
    lastRefill r' = now /\ lastAccess r' = now.
Proof.
  intros HN Hfin HP Hget Ht Hclock Hnow Hidle.
  pose proof (idle_refill cfg r now HN Hfin HP Ht ltac:(lia) Hidle) as Hfull.
  unfold bucketStep. rewrite Hget, Hfull.
  assert (Hge : (requestLimit cfg <? 1)%float = false).
  { destruct (limit_finite _ HN Hfin) as (mN & eN & E).
    rewrite FloatAxioms.leb_spec in HN. rewrite ltb_one. rewrite E in *.
    change (Prim2SF 1) with (S754_finite false 4503599627370496 (-52)) in HN.
    apply SFleb_finite in HN.
    destruct (SFltb _ _) eqn:L; [|reflexivity].
    apply SFltb_finite in L. lia. }
  rewrite Hge. cbn [fst snd]. split; [reflexivity|].
  eexists. split; [apply jsmap_get_set_same|]. repeat split.
Qed.

End IdlePeriod64.

Lemma idle_period_refills_bucket_witness :
  let cfg := RateLimiter64.mkConfig 500 3 [] [] in
  let ipRecords := [("203.0.113.9", RateLimiter64.mkRecord 0 1000 1000)] in
  fst (RateLimiter64.bucketStep cfg ipRecords "203.0.113.9" 10801000) =
    RateLimiter.Next /\
  exists r',
    JsMap.get (snd (RateLimiter64.bucketStep cfg ipRecords "203.0.113.9" 10801000))
      "203.0.113.9" = Some r' /\
    RateLimiter64.tokens r' = 499%float /\
    RateLimiter64.lastRefill r' = 10801000 /\
    RateLimiter64.lastAccess r' = 10801000.
Proof.
  intros cfg ipRecords.
  exact (idle_period_refills_bucket cfg ipRecords "203.0.113.9" 10801000
           (RateLimiter64.mkRecord 0 1000 1000) eq_refl eq_refl eq_refl eq_refl
           eq_refl ltac:(cbn; lia) eq_refl eq_refl).
Defined.

(** The period that counts is the rounded [periodMs]: for
    [periodHours = 4.609] it lies above 16592400 ms, so a bucket emptied
    that long ago is not yet refilled to one token; a millisecond later it
    is. *)
Example scenario_rounded_period :
  let cfg := RateLimiter64.mkConfig 1 (4609 / 1000) [] [] in
  let r := RateLimiter64.mkRecord 0 0 0 in
  (RateLimiter64.periodMs cfg <=? RateLimiter64.number 16592400)%float = false /\
  (RateLimiter64.periodMs cfg <=? RateLimiter64.number 16592401)%float = true /\
  fst (RateLimiter64.bucketStep cfg [("203.0.113.9", r)] "203.0.113.9" 16592400) =
    RateLimiter.Respond 429 /\
  fst (RateLimiter64.bucketStep cfg [("203.0.113.9", r)] "203.0.113.9" 16592401) =
    RateLimiter.Next.
Proof. vm_compute. repeat split. Qed.

(** ** The janitor of the bucket table *)

Section Janitor.
Import RateLimiter.

Lemma janitor_kept now ipRecords :
  janitor now ipRecords = [] \/
  janitor now ipRecords = List.filter (recentlyUsed now) ipRecords /\
  JsMap.size (List.filter (recentlyUsed now) ipRecords) <= MAX_IP_CACHE_SIZE.
Proof.
  unfold janitor.
  change (fun kv : string * record => negb (2 * 3600 * 1000 <? now - lastAccess (snd kv)))
    with (recentlyUsed now).
  destruct (MAX_IP_CACHE_SIZE <? JsMap.size (List.filter (recentlyUsed now) ipRecords)) eqn:E;
    [now left | right]. apply Z.ltb_ge in E. now split.
Qed.

(** X9. After a run of the janitor the table holds at most
    [MAX_IP_CACHE_SIZE] records, every record it holds is one of the table
    before, unchanged and accessed within the last two hours; and a table
    of at most [MAX_IP_CACHE_SIZE] records loses no record accessed within
    the last two hours. *)
Theorem janitor_drops_idle_and_bounds_table now (ipRecords : JsMap.t record) :
  JsMap.wf ipRecords ->
  let after := janitor now ipRecords in
  JsMap.wf after /\
  JsMap.size after <= MAX_IP_CACHE_SIZE /\
  (forall k r, JsMap.get after k = Some r ->
     JsMap.get ipRecords k = Some r /\ now - lastAccess r <= 2 * 3600 * 1000) /\
  (JsMap.size ipRecords <= MAX_IP_CACHE_SIZE ->
   forall k r, JsMap.get ipRecords k = Some r ->
     now - lastAccess r <= 2 * 3600 * 1000 -> JsMap.get after k = Some r).
Proof.
  intros Hwf after.
  pose proof (jsmap_get_filter (recentlyUsed now) ipRecords) as Hget.
  assert (Hsize : JsMap.size (List.filter (recentlyUsed now) ipRecords) <=
                  JsMap.size ipRecords).
  { unfold JsMap.size. pose proof (filter_length_le (recentlyUsed now) ipRecords). lia. }
  destruct (janitor_kept now ipRecords) as [E|[E Hle]]; fold after in E; rewrite E.
  - split; [constructor|]. split; [unfold MAX_IP_CACHE_SIZE, JsMap.size; simpl; lia|].
    split; [intros k r H; discriminate H|].
    intros Hmax k r Hk Hr. exfalso.
    subst after. unfold janitor in E.
    change (fun kv : string * record => negb (2 * 3600 * 1000 <? now - lastAccess (snd kv)))
      with (recentlyUsed now) in E.
    destruct (MAX_IP_CACHE_SIZE <? JsMap.size (List.filter (recentlyUsed now) ipRecords)) eqn:B.
    + apply Z.ltb_lt in B. lia.
    + pose proof (Hget k Hwf) as G. rewrite E, Hk in G. cbn [JsMap.get] in G.
      unfold recentlyUsed in G. cbn [snd] in G.
      destruct (2 * 3600 * 1000 <? now - lastAccess r) eqn:C; [|discriminate G].
      apply Z.ltb_lt in C. lia.
  - split; [now apply filter_wf|]. split; [assumption|]. split.
    + intros k r H. rewrite (Hget k Hwf) in H.
      destruct (JsMap.get ipRecords k) as [e|]; [|discriminate].
      unfold recentlyUsed in H. cbn [snd] in H.
      destruct (2 * 3600 * 1000 <? now - lastAccess e) eqn:C; [discriminate|].
      injection H as ->. apply Z.ltb_ge in C. now split.
    + intros _ k r Hk Hr. rewrite (Hget k Hwf), Hk.
      unfold recentlyUsed. cbn [snd].
      destruct (2 * 3600 * 1000 <? now - lastAccess r) eqn:C; [|reflexivity].
      apply Z.ltb_lt in C. lia.
Qed.

Lemma janitor_drops_idle_and_bounds_table_witness :
  let ipRecords := [("198.51.100.7", mkRecord 3 0 0);
                    ("2001:db8:0:0:0:0:0:0/64", mkRecord 1 7000000 7000000)] in
  let after := janitor 7200001 ipRecords in
  JsMap.wf after /\
  JsMap.size after <= MAX_IP_CACHE_SIZE /\
  (forall k r, JsMap.get after k = Some r ->
     JsMap.get ipRecords k = Some r /\ 7200001 - lastAccess r <= 2 * 3600 * 1000) /\
  (JsMap.size ipRecords <= MAX_IP_CACHE_SIZE ->
   forall k r, JsMap.get ipRecords k = Some r ->
     7200001 - lastAccess r <= 2 * 3600 * 1000 -> JsMap.get after k = Some r).
Proof.
  intros ipRecords.
  apply (janitor_drops_idle_and_bounds_table 7200001 ipRecords).
  unfold JsMap.wf. cbn. repeat constructor; cbn; intuition discriminate.
Defined.

(** X10. When more than [MAX_IP_CACHE_SIZE] records were accessed within
    the last two hours, the janitor empties the table: every client is
    then a new client, and its next request is admitted. *)
Theorem overfull_table_forgets_every_bucket cfg now now' key
    (ipRecords : JsMap.t record) :
  MAX_IP_CACHE_SIZE < JsMap.size (List.filter (recentlyUsed now) ipRecords) ->
  (1 <= requestLimit cfg)%Q -> (0 < periodHours cfg)%Q ->
  janitor now ipRecords = [] /\
  fst (bucketStep cfg (janitor now ipRecords) key now') = Next.
Proof.
  intros Hfull HN _.
  assert (E : janitor now ipRecords = []).
  { unfold janitor.
    change (fun kv : string * record => negb (2 * 3600 * 1000 <? now - lastAccess (snd kv)))
      with (recentlyUsed now).
    apply Z.ltb_lt in Hfull. now rewrite Hfull. }
  split; [exact E|]. rewrite E. unfold bucketStep. cbn [JsMap.get].
  pose proof (refill_same_instant cfg (mkRecord (requestLimit cfg) now' now') now'
                eq_refl (Qle_refl _)) as Hre.
  cbn [tokens] in Hre.
  destruct (lessThanOne _) eqn:L; [|reflexivity].
  apply lessThanOne_true in L. lra.
Qed.

Lemma overfull_table_forgets_every_bucket_witness :
  let ipRecords :=
    List.map (fun n => (Js.toString16 (Z.of_nat n), mkRecord 0 0 0))
      (List.seq 0 (Z.to_nat 10001)) in
  janitor 1000 ipRecords = [] /\
  fst (bucketStep (mkConfig 500 3 [] []) (janitor 1000 ipRecords)
         "203.0.113.9" 1000) = Next.
Proof.
  intros ipRecords.
  apply (overfull_table_forgets_every_bucket (mkConfig 500 3 [] []) 1000 1000
           "203.0.113.9" ipRecords);
    [vm_compute; reflexivity | vm_compute; discriminate | reflexivity].
Defined.

End Janitor.

(** ** Addresses that [parseIPv6] cannot expand *)

Section MalformedIPv6.
Import RateLimiter.

Lemma filter_around_empty parts i :
  Js.indexOfEmpty parts = Some i ->
  List.filter nonEmpty parts =
  (List.filter nonEmpty (List.firstn i parts) ++
   List.filter nonEmpty (List.skipn (S i) parts))%list.
Proof.
  revert i. induction parts as [|p parts IH]; intros i H; [discriminate|].
  cbn [Js.indexOfEmpty] in H.
  destruct (String.eqb p EmptyString) eqn:E.
  - injection H as <-. cbn [List.firstn List.skipn List.filter List.app].
    unfold nonEmpty at 1. now rewrite E.
  - destruct (Js.indexOfEmpty parts) as [i'|]; [|discriminate].
    injection H as <-.
    change (List.skipn (S (S i')) (p :: parts)) with (List.skipn (S i') parts).
    cbn [List.firstn List.filter].
    assert (Hp : nonEmpty p = true) by (unfold nonEmpty; now rewrite E).
    rewrite Hp. cbn [List.app]. f_equal. now apply IH.
Qed.

Lemma overlong_parse ip :
  Js.indexOfEmpty (Js.split ip ":") <> None ->
  (8 < List.length (List.filter nonEmpty (Js.split ip ":")))%nat ->
  Js.includes ip ":" = true /\ parseIPv6 ip = None.
Proof.
  intros Hidx Hlen. split.
  - rewrite includes_char. destruct (hasChar ":" ip) eqn:E; [reflexivity|].
    rewrite (split_plain ":" ip E) in Hlen. cbn in Hlen.
    destruct (nonEmpty ip); cbn in Hlen; lia.
  - unfold parseIPv6, expandParts.
    destruct (Js.indexOfEmpty (Js.split ip ":")) as [i|] eqn:Ei; [|congruence].
    rewrite (filter_around_empty _ _ Ei), List.length_app in Hlen.
    destruct (_ <? 0) eqn:B; [reflexivity|]. apply Z.ltb_ge in B. lia.
Qed.

(** X11. An address text with an empty group and more than eight other
    groups cannot be expanded: [parseIPv6] throws.  Such an address matches
    no entry of an allow or deny list, and the exception escapes from
    [normalizeIP] and from the middleware. *)
Theorem overlong_compressed_address_throws ip :
  Js.indexOfEmpty (Js.split ip ":") <> None ->
  (8 < List.length (List.filter nonEmpty (Js.split ip ":")))%nat ->
  parseIPv6 ip = None /\ normalizeIP ip = None /\
  (forall list, isIPInList ip list = false) /\
  (forall cfg req now ipRecords,
     exempt (path req) = false -> stripBrackets (extractIP req) = ip ->
     rateLimiter cfg req now ipRecords = None).
Proof.
  intros Hidx Hlen. destruct (overlong_parse ip Hidx Hlen) as [Hinc Hparse].
  assert (Hnorm : normalizeIP ip = None)
    by (unfold normalizeIP; now rewrite Hinc, Hparse).
  assert (Hlist : forall list, isIPInList ip list = false).
  { induction list as [|item rest IH]; [reflexivity|].
    cbn [isIPInList]. rewrite IH.
    unfold isIPInCIDR. now rewrite Hinc, Hparse. }
  repeat split; try assumption.
  intros cfg req now ipRecords Hex Hip. unfold rateLimiter.
  now rewrite Hex, Hip, !Hlist, Hnorm.
Qed.

Lemma overlong_compressed_address_throws_witness :
  parseIPv6 "1:2:3:4:5:6:7:8::9" = None /\
  normalizeIP "1:2:3:4:5:6:7:8::9" = None /\
  (forall list, isIPInList "1:2:3:4:5:6:7:8::9" list = false) /\
  (forall cfg req now ipRecords,
     exempt (path req) = false ->
     stripBrackets (extractIP req) = "1:2:3:4:5:6:7:8::9" ->
     rateLimiter cfg req now ipRecords = None).
Proof.
  apply (overlong_compressed_address_throws "1:2:3:4:5:6:7:8::9");
    [vm_compute; discriminate | vm_compute; lia].
Defined.

End MalformedIPv6.

(** ** IPv4-mapped addresses *)

Section MappedIPv4.
Import RateLimiter.

Lemma mapped_parts q :
  q <> EmptyString -> hasChar ":" q = false ->
  expandParts (Js.split ("::ffff:" ++ q) ":") =
  Some ["0"; "0"; "0"; "0"; "0"; "0"; "ffff"; q].
Proof.
  intros Hne Hq.
  change ("::ffff:" ++ q)
    with (EmptyString ++ String ":" (EmptyString ++ String ":" ("ffff" ++ String ":" q))).
  rewrite !split_app, (split_plain ":" q Hq).
  change (Js.split EmptyString ":") with [EmptyString].
  change (Js.split "ffff" ":") with ["ffff"].
  cbn [List.app]. unfold expandParts. cbn [Js.indexOfEmpty String.eqb].
  cbn [List.firstn List.skipn List.filter].
  assert (Hq' : nonEmpty q = true).
  { unfold nonEmpty. apply negb_true_iff. now apply String.eqb_neq. }
  rewrite Hq'. reflexivity.
Qed.

Lemma mapped_key q :
  q <> EmptyString -> hasChar ":" q = false ->
  normalizeIP ("::ffff:" ++ q) = Some "0:0:0:0:0:0:0:0/64".
Proof.
  intros Hne Hq. unfold normalizeIP, parseIPv6.
  rewrite (mapped_parts q Hne Hq).
  assert (Hinc : Js.includes ("::ffff:" ++ q) ":" = true) by reflexivity.
  rewrite Hinc. cbn [negb].
  change (List.seq 0 8) with [0; 1; 2; 3; 4; 5; 6; 7]%nat.
  cbn [List.flat_map]. unfold groupBytes at 1 2 3 4. unfold partOrZero at 1 2 3 4 5 6 7 8.
  cbn [List.nth_error Js.truthy List.app List.firstn].
  reflexivity.
Qed.

(** X12. An IPv4-mapped address [::ffff:a.b.c.d] taken from a forwarding
    header is metered in the one bucket [0:0:0:0:0:0:0:0/64], whatever the
    IPv4 address; the same address as the socket's remote address loses its
    prefix and gets the bucket of the IPv4 address. *)
Theorem mapped_ipv4_from_header_shares_one_bucket cfg req now ipRecords q :
  q <> EmptyString -> hasChar ":" q = false ->
  exempt (path req) = false ->
  stripBrackets (extractIP req) = "::ffff:" ++ q ->
  isIPInList ("::ffff:" ++ q) (blackList cfg) = false ->
  isIPInList ("::ffff:" ++ q) (whiteList cfg) = false ->
  rateLimiter cfg req now ipRecords =
    Some (bucketStep cfg ipRecords "0:0:0:0:0:0:0:0/64" now) /\
  extractIP (mkRequest (path req) None None (Some ("::ffff:" ++ q)) None) = q /\
  normalizeIP q = Some q.
Proof.
  intros Hne Hq Hex Hip Hb Hw. split; [|split].
  - unfold rateLimiter.
    now rewrite Hex, Hip, Hb, Hw, (mapped_key q Hne Hq).
  - unfold extractIP. cbn [xForwardedFor xRealIP remoteAddress reqIp Js.truthy Js.orElse].
    reflexivity.
  - unfold normalizeIP. now rewrite includes_char, Hq.
Qed.

Lemma mapped_ipv4_from_header_shares_one_bucket_witness :
  let cfg := mkConfig 500 3 [] ["10.0.0.0/8"] in
  let req := mkRequest "/v2/" (Some "::ffff:198.51.100.7, 10.0.0.1") None
               (Some "::ffff:10.0.0.1") None in
  rateLimiter cfg req 1000 [] =
    Some (bucketStep cfg [] "0:0:0:0:0:0:0:0/64" 1000) /\
  extractIP (mkRequest (path req) None None (Some ("::ffff:" ++ "198.51.100.7")) None) =
    "198.51.100.7" /\
  normalizeIP "198.51.100.7" = Some "198.51.100.7".
Proof.
  intros cfg req.
  apply (mapped_ipv4_from_header_shares_one_bucket cfg req 1000 [] "198.51.100.7");
    [discriminate | reflexivity | reflexivity | reflexivity | reflexivity
    | reflexivity].
Defined.

End MappedIPv4.

(** ** The access lists *)

Section AccessLists.
Import AccessControl.

(** The three cases of [wildcardMatch] on the head of the pattern. *)
Lemma wildcardMatch_cons a p s :
  wildcardMatch (String a p) s =
  if Ascii.eqb a "*" then
    wildcardMatch p s ||
    match s with
    | EmptyString => false
    | String c s' => negb (Js.isLineTerminator c) && wildcardMatch (String a p) s'
    end
  else if Ascii.eqb a "?" then
    match s with
    | EmptyString => false
    | String c s' => negb (Js.isLineTerminator c) && wildcardMatch p s'
    end
  else
    match s with
    | EmptyString => false
    | String c s' => sameLetter a c && wildcardMatch p s'
    end.
Proof.
  destruct a as [[] [] [] [] [] [] [] []]; destruct s; reflexivity.
Qed.

Lemma isLiteral_cons a p :
  isLiteral (String a p) = true ->
  Ascii.eqb a "*" = false /\ Ascii.eqb a "?" = false /\ isLiteral p = true.
Proof.
  unfold isLiteral. cbn [hasChar]. intros H.
  apply andb_true_iff in H. destruct H as [H1 H2].
  apply negb_true_iff in H1. apply negb_true_iff in H2.
  apply orb_false_iff in H1. apply orb_false_iff in H2.
  destruct H1 as [-> ->]. destruct H2 as [-> ->]. auto.
Qed.

(** X13. A pattern without wildcard matches exactly the texts equal to it
    up to the case of letters: the match is anchored at both ends. *)
Theorem literal_pattern_matches_whole_text p s :
  isLiteral p = true -> wildcardMatch p s = sameText p s.
Proof.
  revert s. induction p as [|a p IH]; intros s Hlit.
  - destruct s; reflexivity.
  - destruct (isLiteral_cons a p Hlit) as (E1 & E2 & Hp).
    rewrite wildcardMatch_cons, E1, E2.
    destruct s as [|c s]; [reflexivity|]. cbn [sameText]. now rewrite IH.
Qed.

Lemma literal_pattern_matches_whole_text_witness :
  wildcardMatch "library/nginx" "Library/NGINX" = sameText "library/nginx" "Library/NGINX" /\
  wildcardMatch "nginx" "library/nginx" = false.
Proof.
  split; [|reflexivity].
  apply (literal_pattern_matches_whole_text "library/nginx" "Library/NGINX").
  reflexivity.
Defined.

Lemma star_tail s : wildcardMatch "*" s = Docker.noLineTerminator s.
Proof.
  induction s as [|c s IH]; [reflexivity|].
  rewrite wildcardMatch_cons. change (Ascii.eqb "*" "*") with true. cbv iota.
  cbn [Docker.noLineTerminator]. rewrite IH.
  change (wildcardMatch EmptyString (String c s)) with false.
  reflexivity.
Qed.

(** X14. A pattern [a*] with [a] free of wildcards matches exactly the texts
    made of a text equal to [a] up to case, followed by any text without
    line terminator: the star also runs over slashes. *)
Theorem prefix_star_matches_every_continuation a s :
  isLiteral a = true ->
  wildcardMatch (a ++ "*") s = true <->
  exists t u, s = t ++ u /\ sameText a t = true /\ Docker.noLineTerminator u = true.
Proof.
  revert s. induction a as [|c a IH]; intros s Hlit.
  - change (EmptyString ++ "*") with "*". rewrite star_tail. split.
    + intros H. exists EmptyString, s. auto.
    + intros (t & u & -> & Ht & Hu). destruct t; [exact Hu | discriminate Ht].
  - destruct (isLiteral_cons c a Hlit) as (E1 & E2 & Ha).
    change (String c a ++ "*") with (String c (a ++ "*")).
    rewrite wildcardMatch_cons, E1, E2. destruct s as [|d s].
    + split; [discriminate|]. intros (t & u & Hs & Ht & _).
      destruct t; [discriminate Ht | discriminate Hs].
    + rewrite andb_true_iff, (IH s Ha). split.
      * intros (Hcd & t & u & -> & Ht & Hu). exists (String d t), u.
        cbn [sameText]. rewrite Hcd, Ht. auto.
      * intros (t & u & Hs & Ht & Hu). destruct t as [|d' t]; [discriminate Ht|].
        cbn [sameText] in Ht. apply andb_true_iff in Ht. destruct Ht as [Hcd Ht].
        injection Hs as <- ->. split; [assumption|]. now exists t, u.
Qed.

Lemma prefix_star_matches_every_continuation_witness :
  wildcardMatch ("library/" ++ "*") "Library/a/b" = true <->
  exists t u, "Library/a/b" = t ++ u /\ sameText "library/" t = true /\
              Docker.noLineTerminator u = true.
Proof.
  apply (prefix_star_matches_every_continuation "library/" "Library/a/b").
  reflexivity.
Defined.

Lemma lowerChar_table : allBelow 8 0 lowerChar_check = true.
Proof. vm_cast_no_check (@eq_refl bool true). Qed.

Lemma lowerChar_facts c :
  upperChar (Js.lowerChar c) = upperChar c /\
  Js.isLineTerminator (Js.lowerChar c) = Js.isLineTerminator c /\
  Ascii.eqb (Js.lowerChar c) "*" = Ascii.eqb c "*" /\
  Ascii.eqb (Js.lowerChar c) "?" = Ascii.eqb c "?".
Proof.
  pose proof (allBelow_spec 8 0 lowerChar_check lowerChar_table
                (Z.of_N (N_of_ascii c))) as H.
  assert (R : 0 <= Z.of_N (N_of_ascii c) < 0 + 2 ^ Z.of_nat 8).
  { pose proof (N_ascii_bounded c). change (0 + 2 ^ Z.of_nat 8) with 256. lia. }
  specialize (H R). unfold lowerChar_check in H.
  rewrite N2Z.id, ascii_N_embedding in H.
  apply andb_true_iff in H. destruct H as [H H4].
  apply andb_true_iff in H. destruct H as [H H3].
  apply andb_true_iff in H. destruct H as [H1 H2].
  apply Ascii.eqb_eq in H1. apply Bool.eqb_prop in H2, H3, H4. auto.
Qed.

Lemma wildcardMatch_lower_text p s :
  wildcardMatch p (Js.toLowerCase s) = wildcardMatch p s.
Proof.
  revert s. induction p as [|a p IH]; intros s.
  - destruct s; reflexivity.
  - induction s as [|c s IHs].
    + reflexivity.
    + cbn [Js.toLowerCase]. rewrite !(wildcardMatch_cons a p (String _ _)).
      destruct (lowerChar_facts c) as (U & L & _).
      unfold sameLetter. rewrite U, L, IHs, IH.
      change (String (Js.lowerChar c) (Js.toLowerCase s))
        with (Js.toLowerCase (String c s)).
      now rewrite IH.
Qed.

Lemma wildcardMatch_lower_pattern p s :
  wildcardMatch (Js.toLowerCase p) s = wildcardMatch p s.
Proof.
  revert s. induction p as [|a p IH]; intros s; [reflexivity|].
  cbn [Js.toLowerCase].
  destruct (lowerChar_facts a) as (U & _ & S & Q).
  induction s as [|c s IHs].
  - rewrite !wildcardMatch_cons, S, Q, IH. reflexivity.
  - rewrite (wildcardMatch_cons (Js.lowerChar a)), (wildcardMatch_cons a).
    unfold sameLetter. rewrite S, Q, U, IH, IHs, IH. reflexivity.
Qed.

Lemma matchesPattern_lower s patterns :
  matchesPattern (Js.toLowerCase s) patterns = matchesPattern s patterns /\
  matchesPattern s (List.map Js.toLowerCase patterns) = matchesPattern s patterns.
Proof.
  unfold matchesPattern. induction patterns as [|p ps [IH1 IH2]]; [easy|].
  cbn [List.existsb List.map].
  now rewrite wildcardMatch_lower_text, wildcardMatch_lower_pattern, IH1, IH2.
Qed.

Lemma lowerChar_idem c : Js.lowerChar (Js.lowerChar c) = Js.lowerChar c.
Proof. destruct c as [[] [] [] [] [] [] [] []]; reflexivity. Qed.

Lemma toLowerCase_idem s : Js.toLowerCase (Js.toLowerCase s) = Js.toLowerCase s.
Proof.
  induction s as [|c s IH]; [reflexivity|].
  cbn [Js.toLowerCase]. now rewrite lowerChar_idem, IH.
Qed.

Lemma toLowerCase_append s t :
  Js.toLowerCase (s ++ t) = Js.toLowerCase s ++ Js.toLowerCase t.
Proof.
  induction s as [|c s IH]; [reflexivity|].
  cbn [append Js.toLowerCase]. now rewrite IH.
Qed.

Lemma length_toLowerCase s : String.length (Js.toLowerCase s) = String.length s.
Proof. induction s as [|c s IH]; [reflexivity|]. cbn. now rewrite IH. Qed.

Lemma take_toLowerCase n s :
  Js.take n (Js.toLowerCase s) = Js.toLowerCase (Js.take n s).
Proof.
  revert s. induction n as [|n IH]; intros [|c s]; try reflexivity.
  cbn [Js.toLowerCase Js.take]. now rewrite IH.
Qed.

Lemma matchesPattern_same_lower s t patterns :
  Js.toLowerCase s = Js.toLowerCase t ->
  matchesPattern s patterns = matchesPattern t patterns.
Proof.
  intros H. destruct (matchesPattern_lower s patterns) as [<- _].
  destruct (matchesPattern_lower t patterns) as [<- _]. now rewrite H.
Qed.

Lemma stripGit_lower repoName :
  Js.endsWith (Js.toLowerCase repoName) ".git" = Js.endsWith repoName ".git" ->
  stripGit (Js.toLowerCase repoName) = Js.toLowerCase (stripGit repoName).
Proof.
  intros H. unfold stripGit. rewrite H, length_toLowerCase.
  destruct (Js.endsWith repoName ".git"); [apply take_toLowerCase | reflexivity].
Qed.

(** X15. The verdict of the access lists does not depend on the case of
    letters in the patterns, in the image name or in the GitHub user name.
    A repository name can be lower-cased when that does not change whether
    it ends in [.git]: the suffix is taken off case-sensitively, so that
    with the allow list [u/r] the repository [r.git] is allowed and
    [r.GIT] is not. *)
Theorem access_verdict_ignores_case whiteList blackList imageName username repoName :
  checkDockerAccess whiteList blackList (Js.toLowerCase imageName) =
    checkDockerAccess whiteList blackList imageName /\
  checkDockerAccess (List.map Js.toLowerCase whiteList)
      (List.map Js.toLowerCase blackList) imageName =
    checkDockerAccess whiteList blackList imageName /\
  checkGitHubAccess (List.map Js.toLowerCase whiteList)
      (List.map Js.toLowerCase blackList) username repoName =
    checkGitHubAccess whiteList blackList username repoName /\
  checkGitHubAccess whiteList blackList (Js.toLowerCase username) repoName =
    checkGitHubAccess whiteList blackList username repoName /\
  (Js.endsWith (Js.toLowerCase repoName) ".git" = Js.endsWith repoName ".git" ->
   checkGitHubAccess whiteList blackList username (Js.toLowerCase repoName) =
     checkGitHubAccess whiteList blackList username repoName) /\
  checkGitHubAccess ["u/r"] [] "u" "r.git" = Allowed /\
  checkGitHubAccess ["u/r"] [] "u" "r.GIT" = NotInWhiteList.
Proof.
  split; [|split; [|split; [|split; [|split; [|split; reflexivity]]]]].
  - unfold checkDockerAccess.
    destruct (matchesPattern_lower imageName whiteList) as [W1 _].
    destruct (matchesPattern_lower imageName blackList) as [B1 _].
    now rewrite W1, B1.
  - unfold checkDockerAccess. rewrite !List.length_map.
    destruct (matchesPattern_lower imageName whiteList) as [_ W2].
    destruct (matchesPattern_lower imageName blackList) as [_ B2].
    now rewrite W2, B2.
  - unfold checkGitHubAccess. rewrite !List.length_map.
    destruct (matchesPattern_lower (username ++ "/" ++ stripGit repoName) whiteList)
      as [_ W3].
    destruct (matchesPattern_lower (username ++ "/" ++ stripGit repoName) blackList)
      as [_ B3].
    now rewrite W3, B3.
  - unfold checkGitHubAccess.
    assert (E : Js.toLowerCase (Js.toLowerCase username ++ "/" ++ stripGit repoName) =
                Js.toLowerCase (username ++ "/" ++ stripGit repoName))
      by (now rewrite !toLowerCase_append, toLowerCase_idem).
    now rewrite (matchesPattern_same_lower _ _ whiteList E),
                (matchesPattern_same_lower _ _ blackList E).
  - intros H. unfold checkGitHubAccess.
    assert (E : Js.toLowerCase (username ++ "/" ++ stripGit (Js.toLowerCase repoName)) =
                Js.toLowerCase (username ++ "/" ++ stripGit repoName))
      by (now rewrite (stripGit_lower _ H), !toLowerCase_append, toLowerCase_idem).
    now rewrite (matchesPattern_same_lower _ _ whiteList E),
                (matchesPattern_same_lower _ _ blackList E).
Qed.

Lemma access_verdict_ignores_case_witness :
  checkGitHubAccess ["torvalds/*"] ["*/secret"] "Torvalds"
      (Js.toLowerCase "Linux.git") =
    checkGitHubAccess ["torvalds/*"] ["*/secret"] "Torvalds" "Linux.git".
Proof.
  destruct (access_verdict_ignores_case ["torvalds/*"] ["*/secret"] "nginx"
              "Torvalds" "Linux.git") as (_ & _ & _ & _ & H & _).
  exact (H eq_refl).
Defined.

Lemma take_append s t : Js.take (String.length s) (s ++ t) = s.
Proof.
  induction s as [|c s IH]; [now destruct t|]. cbn [String.length append Js.take].
  now rewrite IH.
Qed.

Lemma stripGit_suffix repo : stripGit (repo ++ ".git") = repo.
Proof.
  unfold stripGit, Js.endsWith. rewrite length_append.
  cbn [String.length].
  replace (String.length repo + 4 - 4)%nat with (String.length repo) by lia.
  rewrite drop_append, take_append, String.eqb_refl.
  assert (H : (4 <=? String.length repo + 4)%nat = true) by (apply Nat.leb_le; lia).
  now rewrite H.
Qed.

(** X16. A repository name ending in [.git] gets the verdict of the name
    without this suffix; one suffix is removed, not two. *)
Theorem github_access_ignores_git_suffix whiteList blackList username repo :
  Js.endsWith repo ".git" = false ->
  checkGitHubAccess whiteList blackList username (repo ++ ".git") =
    checkGitHubAccess whiteList blackList username repo /\
  stripGit ((repo ++ ".git") ++ ".git") = repo ++ ".git".
Proof.
  intros H. split; [|apply stripGit_suffix].
  unfold checkGitHubAccess. rewrite stripGit_suffix.
  unfold stripGit at 1 2. now rewrite H.
Qed.

Lemma github_access_ignores_git_suffix_witness :
  checkGitHubAccess ["torvalds/*"] [] "torvalds" ("linux" ++ ".git") =
    checkGitHubAccess ["torvalds/*"] [] "torvalds" "linux" /\
  stripGit (("linux" ++ ".git") ++ ".git") = "linux" ++ ".git".
Proof.
  apply (github_access_ignores_git_suffix ["torvalds/*"] [] "torvalds" "linux").
  reflexivity.
Defined.

End AccessLists.

(** ** The Registry proxy: tokens, URLs and the relay *)

Section RegistryProxy.
Import Docker.
Variable fetchToken : string -> option string.
Variable fetch : string -> string -> Http.headers -> option Http.response.

Lemma truthy_some x t : Js.truthy x = Some t -> Js.truthy (Some t) = Some t.
Proof.
  destruct x as [[|c s]|]; try discriminate. intros H. now injection H as <-.
Qed.

Lemma cache_get_fresh {V : Type} (c : Cache.t V) nowC nowI now key v ttl :
  now <= nowI + ttl ->
  Cache.get (Cache.set c nowC nowI key v (Some ttl)) now key =
  (Some v, Cache.set c nowC nowI key v (Some ttl)).
Proof.
  intros H. unfold Cache.get. rewrite cache_set_holds_key.
  unfold Cache.expired. cbn [Cache.expiresAt Cache.value].
  destruct (Z.ltb_spec (nowI + ttl) now); [lia | reflexivity].
Qed.

Lemma cache_get_stale {V : Type} (c : Cache.t V) nowC nowI now key v ttl :
  nowI + ttl < now ->
  fst (Cache.get (Cache.set c nowC nowI key v (Some ttl)) now key) = None.
Proof.
  intros H. unfold Cache.get. rewrite cache_set_holds_key.
  unfold Cache.expired. cbn [Cache.expiresAt Cache.value].
  destruct (Z.ltb_spec (nowI + ttl) now); [reflexivity | lia].
Qed.

(** X17. A token fetched from the token service is reused: for the next
    15 minutes [getAuthToken] returns it for the same scope and registry
    without any call to the service and without touching the cache; after
    that it asks the service again. *)
Theorem fetched_token_is_reused_for_15_minutes cfg cache clk clk' scope rd url
    token cache' :
  getAuthToken fetchToken cfg cache clk scope rd =
    ([FetchToken url], Some token, cache') ->
  (tGet clk' <= tInsert clk + 15 * 60 * 1000 ->
   getAuthToken fetchToken cfg cache' clk' scope rd = ([], Some token, cache')) /\
  (tInsert clk + 15 * 60 * 1000 < tGet clk' ->
   fst (fst (getAuthToken fetchToken cfg cache' clk' scope rd)) = [FetchToken url]).
Proof.
  unfold getAuthToken. intros H.
  destruct (Cache.get cache (tGet clk) (cacheKey scope rd)) as [cached cache1].
  destruct (Js.truthy cached) as [t0|]; [discriminate H|].
  destruct (authURL cfg scope rd) as [u|] eqn:Hu; [|discriminate H].
  destruct (Js.truthy (fetchToken u)) as [t1|] eqn:Ht; [|discriminate H].
  injection H as -> -> <-. split; intros Hclk.
  - rewrite cache_get_fresh by exact Hclk.
    now rewrite (truthy_some _ _ Ht).
  - pose proof (cache_get_stale cache1 (tCleanup clk) (tInsert clk) (tGet clk')
                  (cacheKey scope rd) token (15 * 60 * 1000) Hclk) as Hs.
    destruct (Cache.get _ (tGet clk') (cacheKey scope rd)) as [cached2 cache2].
    cbn [fst] in Hs. subst cached2. reflexivity.
Qed.

Lemma detectIn_found domains path d r :
  detectIn domains path = (Some d, r) ->
  In d domains /\
  (path = "/" ++ d ++ "/" ++ r \/ path = d ++ "/" ++ r).
Proof.
  induction domains as [|d0 ds IH]; [discriminate|]. cbn [detectIn].
  unfold Js.startsWith.
  destruct (Js.isPrefix ("/" ++ d0 ++ "/") path) eqn:E1.
  - intros H. injection H as <- <-. split; [now left|]. left.
    apply isPrefix_split in E1.
    replace (String.length d0 + 2)%nat with (String.length ("/" ++ d0 ++ "/")).
    + rewrite <- !append_assoc in E1. rewrite E1 at 1.
      now rewrite <- !append_assoc.
    + cbn [append String.length]. rewrite length_append. cbn [String.length]. lia.
  - destruct (Js.isPrefix (d0 ++ "/") path) eqn:E2.
    + intros H. injection H as <- <-. split; [now left|]. right.
      apply isPrefix_split in E2.
      replace (String.length d0 + 1)%nat with (String.length (d0 ++ "/")).
      * rewrite E2 at 1. now rewrite <- append_assoc.
      * rewrite length_append. cbn [String.length]. lia.
    + intros H. destruct (IH H) as [Hin Hp]. split; [now right | exact Hp].
Qed.

Lemma lookupMapping_found rs d :
  In d (List.map fst rs) -> exists m, lookupMapping rs d = Some m.
Proof.
  induction rs as [|[d0 m0] rs IH]; [easy|]. cbn [List.map fst lookupMapping].
  destruct (String.eqb d d0) eqn:E; [now eexists|].
  intros [H|H]; [subst d0; now rewrite String.eqb_refl in E | now apply IH].
Qed.

(** What a match of [lazyMatch] says about the input. *)
Lemma lazyMatch_sound sep tailOk s :
  forall started g tail,
    lazyMatch sep tailOk started s = Some (g, tail) ->
    s = g ++ sep ++ tail /\ tailOk tail = true /\
    (started = false -> g <> EmptyString).
Proof.
  induction s as [|c s IH]; intros started g tail; rewrite lazyMatch_eq.
  - destruct (started && Js.isPrefix sep EmptyString &&
              tailOk (Js.drop (String.length sep) EmptyString)) eqn:E;
      [|discriminate].
    intros H. injection H as <- <-.
    apply andb_true_iff in E. destruct E as [E Ht].
    apply andb_true_iff in E. destruct E as [Hs Hp].
    apply isPrefix_split in Hp. cbn [append]. repeat split; try assumption.
    intros ->. discriminate.
  - destruct (started && Js.isPrefix sep (String c s) &&
              tailOk (Js.drop (String.length sep) (String c s))) eqn:E.
    + intros H. injection H as <- <-.
      apply andb_true_iff in E. destruct E as [E Ht].
      apply andb_true_iff in E. destruct E as [Hs Hp].
      apply isPrefix_split in Hp. cbn [append]. repeat split; try assumption.
      intros ->. discriminate.
    + destruct (Js.isLineTerminator c); [discriminate|].
      destruct (lazyMatch sep tailOk true s) as [[g' tail']|] eqn:Hm; [|discriminate].
      intros H. injection H as <- <-.
      destruct (IH true g' tail' Hm) as (Hs & Ht & _).
      cbn [append]. rewrite <- Hs. repeat split; try assumption. discriminate.
Qed.

Lemma parse_shape cfg path :
  let p := parseRegistryPath cfg path in
  let '(domain, remaining) := detectRegistryDomain cfg (stripV2 path) in
  registryDomain p = domain /\
  imageName p ++ apiSuffix (api p) (reference p) =
    match Js.truthy domain with
    | Some _ => remaining
    | None => stripV2 path
    end.
Proof.
  unfold parseRegistryPath.
  destruct (detectRegistryDomain cfg (stripV2 path)) as [domain remaining].
  set (cleanPath := match Js.truthy domain with
                    | Some _ => remaining
                    | None => stripV2 path
                    end).
  destruct (lazyMatch "/manifests/" restOfLine false cleanPath) as [[n r]|] eqn:M1.
  { apply lazyMatch_sound in M1. destruct M1 as (E & _). cbn. now rewrite E. }
  destruct (lazyMatch "/blobs/" restOfLine false cleanPath) as [[n r]|] eqn:M2.
  { apply lazyMatch_sound in M2. destruct M2 as (E & _). cbn. now rewrite E. }
  destruct (lazyMatch "/tags/list" (fun t => String.eqb t EmptyString) false cleanPath)
    as [[n r]|] eqn:M3.
  { apply lazyMatch_sound in M3. destruct M3 as (E & Ht & _).
    apply String.eqb_eq in Ht. subst r. cbn. now rewrite E. }
  cbn. now rewrite append_nil_r.
Qed.

(** X18. With registry keys free of the special characters of a pattern,
    the upstream URL is the client's path on the upstream host: for a
    path that names a configured registry, this registry's [upstream] and
    the path behind the registry name; otherwise Docker Hub and the path
    behind [/v2/], with [library/] put in front when the repository name
    has no slash. *)
Theorem upstream_url_keeps_client_path cfg path :
  plainKeys cfg = true ->
  let p := parseRegistryPath cfg path in
  let url := buildUpstreamURL cfg (registryDomain p) (imageName p) (api p)
               (reference p) in
  match Js.truthy (fst (detectRegistryDomain cfg (stripV2 path))) with
  | Some d =>
      exists m remaining,
        getRegistryMapping cfg d = Some m /\
        (stripV2 path = "/" ++ d ++ "/" ++ remaining \/
         stripV2 path = d ++ "/" ++ remaining) /\
        url = "https://" ++ upstream m ++ "/v2/" ++ remaining
  | None =>
      url = "https://" ++ DOCKER_HUB_REGISTRY ++ "/v2/" ++
            (if Js.includes (imageName p) "/" then EmptyString else "library/") ++
            stripV2 path
  end.
Proof.
  intros _ p url. pose proof (parse_shape cfg path) as H. cbv zeta in H. fold p in H.
  destruct (detectRegistryDomain cfg (stripV2 path)) as [domain remaining] eqn:Hd.
  destruct H as [Hrd Hcat]. cbn [fst].
  assert (Hurl : forall host name,
            ("https://" ++ host ++ "/v2/" ++ name) ++ apiSuffix (api p) (reference p) =
            "https://" ++ host ++ "/v2/" ++ name ++ apiSuffix (api p) (reference p)).
  { intros host name. now rewrite <- !append_assoc. }
  assert (Hbuild : forall host name,
            match api p with
            | Manifests => ("https://" ++ host ++ "/v2/" ++ name) ++ "/manifests/" ++ reference p
            | Blobs => ("https://" ++ host ++ "/v2/" ++ name) ++ "/blobs/" ++ reference p
            | Tags => ("https://" ++ host ++ "/v2/" ++ name) ++ "/tags/list"
            | Base => "https://" ++ host ++ "/v2/" ++ name
            end = "https://" ++ host ++ "/v2/" ++ name ++ apiSuffix (api p) (reference p)).
  { intros host name. rewrite <- Hurl. unfold apiSuffix.
    destruct (api p); try reflexivity. now rewrite append_nil_r. }
  subst url. unfold buildUpstreamURL. rewrite Hrd, Hbuild.
  destruct (Js.truthy domain) as [d|] eqn:Ht.
  - assert (Hdom : domain = Some d)
      by (destruct domain as [[|]|]; cbn in Ht; congruence).
    rewrite Hdom in Hd. unfold detectRegistryDomain in Hd.
    destruct (detectIn_found _ _ _ _ Hd) as [Hin Hpath].
    destruct (lookupMapping_found (registries cfg) d Hin) as [m Hm].
    exists m, remaining. unfold getRegistryMapping. rewrite Hm.
    split; [reflexivity|]. split; [exact Hpath|]. now rewrite Hcat.
  - destruct (Js.includes (imageName p) "/"); cbn [negb].
    + now rewrite Hcat.
    + rewrite <- Hcat. now rewrite <- !append_assoc.
Qed.

(** X19. The token is asked for the repository that is then fetched: the
    scope is [repository:N:pull] for the very name [N] that stands behind
    [/v2/] in the upstream URL. *)
Theorem token_scope_names_the_upstream_repository cfg rd name api reference :
  exists host N,
    buildUpstreamURL cfg rd name api reference =
      "https://" ++ host ++ "/v2/" ++ N ++ apiSuffix api reference /\
    scopeOf rd name = "repository:" ++ N ++ ":pull".
Proof.
  unfold buildUpstreamURL, scopeOf.
  set (host := match Js.truthy rd with
               | Some d => match getRegistryMapping cfg d with
                           | Some m => upstream m
                           | None => DOCKER_HUB_REGISTRY
                           end
               | None => DOCKER_HUB_REGISTRY
               end).
  exists host,
    (match Js.truthy rd with
     | Some _ => name
     | None => if Js.includes name "/" then name else "library/" ++ name
     end).
  split.
  - destruct (Js.truthy rd); [|destruct (Js.includes name "/")]; cbn [negb];
      destruct api; cbn [apiSuffix]; rewrite <- ?append_assoc, ?append_nil_r;
      reflexivity.
  - reflexivity.
Qed.


Lemma get_absent_key (hs : Http.headers) k :
  ~ In k (List.map fst hs) -> Http.get hs k = None.
Proof.
  induction hs as [|[k0 v0] hs IH]; [reflexivity|]. cbn [List.map fst Http.get].
  intros H. destruct (String.eqb k0 k) eqn:E.
  - apply String.eqb_eq in E. subst k0. exfalso. apply H. now left.
  - apply IH. intros Hin. apply H. now right.
Qed.

Lemma copyExcept_keeps skip hs k :
  NoDup (List.map fst hs) ->
  Http.inList (Js.toLowerCase k) skip = false ->
  k <> "__proto__" ->
  Http.get (Http.copyExcept skip hs) k = Http.get hs k.
Proof.
  intros Hnd Hk Hproto. unfold Http.copyExcept.
  assert (G : forall acc,
            Http.get
              (List.fold_left
                 (fun acc kv =>
                    if Http.inList (Js.toLowerCase (fst kv)) skip then acc
                    else Http.put acc (fst kv) (snd kv)) hs acc) k =
            match Http.get hs k with
            | Some v => Some v
            | None => Http.get acc k
            end).
  { induction hs as [|[k0 v0] hs IH]; intros acc; [reflexivity|].
    cbn [List.map fst] in Hnd. apply NoDup_cons_iff in Hnd. destruct Hnd as [Hnot Hnd].
    cbn [List.fold_left fst snd Http.get]. rewrite (IH Hnd).
    destruct (String.eqb k0 k) eqn:E.
    - apply String.eqb_eq in E. subst k0. rewrite Hk, get_put_same by exact Hproto.
      now rewrite (get_absent_key hs k Hnot).
    - destruct (Http.get hs k); [reflexivity|].
      destruct (Http.inList (Js.toLowerCase k0) skip); [reflexivity|].
      apply get_put_other. intros ->. now rewrite String.eqb_refl in E. }
  rewrite G. now destruct (Http.get hs k).
Qed.

(** X21. The relay of an upstream answer: status and body are the
    upstream's; [transfer-encoding] and [connection] are never passed on,
    and neither is a header named [__proto__], for which the assignment to
    the header object creates no property; every other header whose
    lower-cased name is not [www-authenticate] reaches the client with the
    upstream's value. *)
Theorem relay_keeps_status_body_and_headers cfg cache clk req log st hs body cache' :
  proxyDockerRegistry fetchToken fetch cfg cache clk req =
    (log, Proxied st hs body, cache') ->
  exists url headers resp,
    fetch url (Http.method req) headers = Some resp /\
    st = Http.status resp /\ body = Http.body resp /\
    Http.get hs "transfer-encoding" = None /\
    Http.get hs "connection" = None /\
    Http.get hs "__proto__" = None /\
    (NoDup (List.map fst (Http.respHeaders resp)) ->
     forall k, Http.inList (Js.toLowerCase k) dockerSkipped = false ->
               k <> "__proto__" ->
               Http.get hs k = Http.get (Http.respHeaders resp) k).
Proof.
  unfold proxyDockerRegistry.
  destruct (String.eqb (Http.path req) "/v2/" || String.eqb (Http.path req) "/v2");
    [discriminate|].
  set (p := parseRegistryPath cfg (Http.path req)).
  destruct (String.eqb (imageName p) EmptyString); [discriminate|].
  destruct (AccessControl.checkDockerAccess _ _ _); [|discriminate..].
  destruct (getAuthToken fetchToken cfg cache clk _ _) as [[evs token] cache1].
  match goal with
  | |- context [fetch ?u ?m ?h] =>
      destruct (fetch u m h) as [resp|] eqn:Hf;
        [intros H; injection H as _ <- <- <- _; exists u, h, resp | discriminate]
  end.
  split; [exact Hf|]. split; [reflexivity|].
  split; [reflexivity|].
  assert (Hskip : forall k,
            k <> "www-authenticate" ->
            Http.get (rewriteHeaders req resp) k =
            Http.get (Http.copyExcept dockerSkipped (Http.respHeaders resp)) k).
  { intros k Hk. unfold rewriteHeaders. fold dockerSkipped.
    destruct (Js.truthy (Http.get (Http.respHeaders resp) "www-authenticate"));
      [|reflexivity].
    now apply get_put_other. }
  split; [|split; [|split]].
  - rewrite Hskip by discriminate. now apply copyExcept_skips.
  - rewrite Hskip by discriminate. now apply copyExcept_skips.
  - rewrite Hskip by discriminate. apply copyExcept_proto.
  - intros Hnd k Hk Hproto. rewrite Hskip.
    + now apply copyExcept_keeps.
    + intros ->. vm_compute in Hk. discriminate Hk.
Qed.

End RegistryProxy.

Lemma upstream_url_keeps_client_path_witness :
  let p := Docker.parseRegistryPath Docker.defaultConfig
             "/v2/ghcr.io/owner/image/manifests/latest" in
  plainKeys Docker.defaultConfig = true /\
  exists m remaining,
    Docker.getRegistryMapping Docker.defaultConfig "ghcr.io" = Some m /\
    (Docker.stripV2 "/v2/ghcr.io/owner/image/manifests/latest" =
       "/" ++ "ghcr.io" ++ "/" ++ remaining \/
     Docker.stripV2 "/v2/ghcr.io/owner/image/manifests/latest" =
       "ghcr.io" ++ "/" ++ remaining) /\
    Docker.buildUpstreamURL Docker.defaultConfig (Docker.registryDomain p)
      (Docker.imageName p) (Docker.api p) (Docker.reference p) =
    "https://" ++ Docker.upstream m ++ "/v2/" ++ remaining.
Proof.
  intros p. split; [reflexivity|].
  exact (upstream_url_keeps_client_path Docker.defaultConfig
           "/v2/ghcr.io/owner/image/manifests/latest" eq_refl).
Defined.

Lemma fetched_token_is_reused_for_15_minutes_witness :
  let fetchToken := fun _ : string => Some "tok" in
  let scope := "repository:library/nginx:pull" in
  let cache' := Cache.set (Cache.new 500 1200000) 2 3 (Docker.cacheKey scope None)
                  "tok" (Some (15 * 60 * 1000)) in
  Docker.getAuthToken fetchToken Docker.defaultConfig cache'
    (Docker.mkClock 900003 900003 900003) scope None = ([], Some "tok", cache') /\
  fst (fst (Docker.getAuthToken fetchToken Docker.defaultConfig cache'
              (Docker.mkClock 900004 900004 900004) scope None)) =
    [Docker.FetchToken (Docker.hubAuthURL scope)].
Proof.
  intros fetchToken scope cache'.
  assert (Hfirst :
    Docker.getAuthToken fetchToken Docker.defaultConfig (Cache.new 500 1200000)
      (Docker.mkClock 1 2 3) scope None =
    ([Docker.FetchToken (Docker.hubAuthURL scope)], Some "tok", cache'))
    by reflexivity.
  split.
  - apply (fetched_token_is_reused_for_15_minutes fetchToken Docker.defaultConfig
             (Cache.new 500 1200000) (Docker.mkClock 1 2 3)
             (Docker.mkClock 900003 900003 900003) scope None
             (Docker.hubAuthURL scope) "tok" cache' Hfirst).
    simpl. lia.
  - apply (fetched_token_is_reused_for_15_minutes fetchToken Docker.defaultConfig
             (Cache.new 500 1200000) (Docker.mkClock 1 2 3)
             (Docker.mkClock 900004 900004 900004) scope None
             (Docker.hubAuthURL scope) "tok" cache' Hfirst).
    simpl. lia.
Defined.

Lemma relay_keeps_status_body_and_headers_witness :
  let fetchToken := fun _ : string => Some "tok" in
  let fetch := fun (_ _ : string) (_ : Http.headers) =>
    Some (Http.mkResponse 200
            [("content-type", "application/json"); ("connection", "close");
             ("__proto__", "x")]
            "{}") in
  let hs := [("content-type", "application/json")] in
  exists url headers resp,
    fetch url "GET" headers = Some resp /\
    200 = Http.status resp /\ "{}" = Http.body resp /\
    Http.get hs "transfer-encoding" = None /\
    Http.get hs "connection" = None /\
    Http.get hs "__proto__" = None /\
    (NoDup (List.map fst (Http.respHeaders resp)) ->
     forall k, Http.inList (Js.toLowerCase k) dockerSkipped = false ->
               k <> "__proto__" ->
               Http.get hs k = Http.get (Http.respHeaders resp) k).
Proof.
  intros fetchToken fetch hs.
  pose (req := Http.mkRequest "GET" "/v2/library/nginx/tags/list" None
                 (Some "proxy.example") None None []).
  pose (r := Docker.proxyDockerRegistry fetchToken fetch Docker.defaultConfig
               (Cache.new 500 1200000) (Docker.mkClock 1 2 3) req).
  apply (relay_keeps_status_body_and_headers fetchToken fetch Docker.defaultConfig
           (Cache.new 500 1200000) (Docker.mkClock 1 2 3) req
           (fst (fst r)) 200 hs "{}" (snd r)).
  reflexivity.
Defined.

(** ** The GitHub proxy: the request URL and the relay *)

Section GitHubRelay.
Import GitHub.

Lemma stripSlashes_plain s : Js.startsWith s "/" = false -> stripSlashes s = s.
Proof.
  destruct s as [|c s]; [reflexivity|]. unfold Js.startsWith. cbn [Js.isPrefix stripSlashes].
  rewrite andb_true_r. intros H.
  destruct (Ascii.eqb c "/") eqn:E; [|reflexivity].
  apply Ascii.eqb_eq in E. subst c. discriminate H.
Qed.

Lemma startsWith_longer s p q :
  Js.startsWith s p = false -> Js.startsWith s (p ++ q) = false.
Proof.
  unfold Js.startsWith. revert s. induction p as [|c p IH]; intros s; [discriminate|].
  destruct s as [|d s]; [reflexivity|]. cbn [append Js.isPrefix].
  destruct (Ascii.eqb c d); [apply IH | reflexivity].
Qed.

(** X22. The URL built from the request line always begins with
    [https://]; and for a text [x] that begins neither with a slash nor
    with a scheme, the request lines [/x], [//x], [/https://x], [/https:/x]
    and [/http:/x] all give [https://x]. *)
Theorem request_url_gets_https_scheme originalUrl x :
  Js.startsWith x "/" = false ->
  Js.startsWith x "http:/" = false -> Js.startsWith x "https:/" = false ->
  Js.startsWith (normalizeRawPath originalUrl) "https://" = true /\
  normalizeRawPath ("/" ++ x) = "https://" ++ x /\
  normalizeRawPath ("//" ++ x) = "https://" ++ x /\
  normalizeRawPath ("/https://" ++ x) = "https://" ++ x /\
  normalizeRawPath ("/https:/" ++ x) = "https://" ++ x /\
  normalizeRawPath ("/http:/" ++ x) = "https://" ++ x.
Proof.
  intros Hs Hh Hhs.
  pose proof (startsWith_longer x "http:/" "/" Hh) as Hh2.
  pose proof (startsWith_longer x "https:/" "/" Hhs) as Hhs2.
  cbn [append] in Hh2, Hhs2.
  assert (Hplain : forall y,
            Js.startsWith y "/" = false -> Js.startsWith y "http:/" = false ->
            Js.startsWith y "https:/" = false ->
            Js.startsWith y "http://" = false -> Js.startsWith y "https://" = false ->
            normalizeRawPath (String "/" y) = "https://" ++ y).
  { intros y H1 H2 H3 H4 H5. unfold normalizeRawPath. cbn [Js.drop].
    rewrite (stripSlashes_plain y H1), H5. cbn [negb].
    unfold dropSchemeSlash. now rewrite H3, H2, H4. }
  split; [|split; [|split; [|split; [|split]]]].
  - unfold normalizeRawPath.
    destruct (Js.startsWith (stripSlashes (Js.drop 1 originalUrl)) "https://") eqn:E;
      [exact E | reflexivity].
  - now apply Hplain.
  - unfold normalizeRawPath. cbn [append Js.drop stripSlashes].
    change (Ascii.eqb "/" "/") with true. cbv iota.
    rewrite (stripSlashes_plain x Hs), Hhs2. cbn [negb].
    unfold dropSchemeSlash. now rewrite Hhs, Hh, Hh2.
  - reflexivity.
  - unfold normalizeRawPath. cbn [append Js.drop stripSlashes].
    change (Ascii.eqb "h" "/") with false. cbv iota.
    assert (E1 : Js.startsWith ("https:/" ++ x) "https://" = Js.startsWith x "/")
      by reflexivity.
    change (String "h" (String "t" (String "t" (String "p" (String "s"
              (String ":" (String "/" x)))))))
      with ("https:/" ++ x).
    rewrite E1, Hs. cbn [negb]. unfold dropSchemeSlash.
    change (Js.startsWith ("https:/" ++ x) "https:/")
      with (Js.isPrefix "https:/" ("https:/" ++ x)).
    rewrite isPrefix_append. change (Js.drop 7 ("https:/" ++ x)) with x.
    now rewrite Hh2.
  - unfold normalizeRawPath. cbn [append Js.drop stripSlashes].
    change (Ascii.eqb "h" "/") with false. cbv iota.
    assert (E1 : Js.startsWith ("http:/" ++ x) "https://" = false) by reflexivity.
    assert (E2 : Js.startsWith ("http:/" ++ x) "https:/" = false) by reflexivity.
    change (String "h" (String "t" (String "t" (String "p" (String ":" (String "/" x))))))
      with ("http:/" ++ x).
    rewrite E1. cbn [negb]. unfold dropSchemeSlash. rewrite E2.
    change (Js.startsWith ("http:/" ++ x) "http:/") with (Js.isPrefix "http:/" ("http:/" ++ x)).
    rewrite isPrefix_append. change (Js.drop 6 ("http:/" ++ x)) with x.
    now rewrite Hh2.
Qed.

Lemma request_url_gets_https_scheme_witness :
  Js.startsWith (normalizeRawPath "/a/b") "https://" = true /\
  normalizeRawPath ("/" ++ "github.com/u/r") = "https://" ++ "github.com/u/r" /\
  normalizeRawPath ("//" ++ "github.com/u/r") = "https://" ++ "github.com/u/r" /\
  normalizeRawPath ("/https://" ++ "github.com/u/r") = "https://" ++ "github.com/u/r" /\
  normalizeRawPath ("/https:/" ++ "github.com/u/r") = "https://" ++ "github.com/u/r" /\
  normalizeRawPath ("/http:/" ++ "github.com/u/r") = "https://" ++ "github.com/u/r".
Proof.
  apply (request_url_gets_https_scheme "/a/b" "github.com/u/r"); reflexivity.
Defined.

Lemma get_remove_other hs name k :
  k <> name -> Http.get (Http.remove hs name) k = Http.get hs k.
Proof.
  intros Hk. unfold Http.remove. induction hs as [|[k0 v0] hs IH]; [reflexivity|].
  cbn [List.filter fst Http.get].
  destruct (String.eqb k0 name) eqn:E; cbn [negb].
  - apply String.eqb_eq in E. subst k0.
    destruct (String.eqb name k) eqn:E'; [|exact IH].
    apply String.eqb_eq in E'. congruence.
  - cbn [Http.get]. now rewrite IH.
Qed.

(** X23. What the GitHub proxy sends for an upstream answer: the status is
    the upstream's; [content-security-policy], [referrer-policy],
    [strict-transport-security], [transfer-encoding] and [connection] are
    never passed on, and neither is a header named [__proto__], for which
    the assignment to the header object creates no property; any other
    header reaches the client with the upstream's value (for a script, any
    other than [content-length]); and when the URL is not a script the body
    is streamed as it is. *)
Theorem github_relay_strips_policy_headers cfg req url resp :
  NoDup (List.map fst (Http.respHeaders resp)) ->
  typeBlocked req resp = false -> tooLarge cfg resp = false ->
  exists hs body,
    respond cfg req url resp =
      (if isScript url then Buffered else Streamed) (Http.status resp) hs body /\
    (isScript url = false -> body = Http.body resp) /\
    (forall k, Http.inList (Js.toLowerCase k) skippedHeaders = true ->
               Http.get hs k = None) /\
    Http.get hs "__proto__" = None /\
    (forall k, Http.inList (Js.toLowerCase k) skippedHeaders = false ->
               k <> "__proto__" ->
               (isScript url = true -> k <> "content-length") ->
               Http.get hs k = Http.get (Http.respHeaders resp) k).
Proof.
  intros Hnd Ht Hs. unfold respond. rewrite Ht, Hs.
  destruct (isScript url); do 2 eexists; (split; [reflexivity|]).
  - split; [discriminate|]. split; [|split].
    + intros k Hk. destruct (String.eqb k "content-length") eqn:E.
      * apply String.eqb_eq in E. subst k. apply get_remove.
      * rewrite get_remove_other by (now apply String.eqb_neq).
        now apply copyExcept_skips.
    + rewrite get_remove_other by discriminate. apply copyExcept_proto.
    + intros k Hk Hproto Hcl. rewrite get_remove_other by (now apply Hcl).
      now apply copyExcept_keeps.
  - split; [reflexivity|]. split; [|split].
    + intros k Hk. now apply copyExcept_skips.
    + apply copyExcept_proto.
    + intros k Hk Hproto _. now apply copyExcept_keeps.
Qed.

Lemma github_relay_strips_policy_headers_witness :
  let req := Http.mkRequest "GET" "/github.com/u/r/releases/download/v1/a.tgz"
               None (Some "proxy.example") None None [] in
  let resp := Http.mkResponse 200
                [("content-type", "application/gzip");
                 ("content-security-policy", "default-src 'none'");
                 ("__proto__", "x")] "data" in
  exists hs body,
    respond (mkConfig 1000) req "https://github.com/u/r/releases/download/v1/a.tgz"
      resp = Streamed 200 hs body /\
    (false = false -> body = "data") /\
    (forall k, Http.inList (Js.toLowerCase k) skippedHeaders = true ->
               Http.get hs k = None) /\
    Http.get hs "__proto__" = None /\
    (forall k, Http.inList (Js.toLowerCase k) skippedHeaders = false ->
               k <> "__proto__" ->
               (false = true -> k <> "content-length") ->
               Http.get hs k = Http.get (Http.respHeaders resp) k).
Proof.
  intros req resp.
  apply (github_relay_strips_policy_headers (mkConfig 1000) req
           "https://github.com/u/r/releases/download/v1/a.tgz" resp);
    [|reflexivity|reflexivity].
  cbn. repeat constructor; cbn; intuition discriminate.
Defined.

End GitHubRelay.

(** ** The GitHub handler: which URLs are taken *)

Section GitHubHandler.
Import GitHub.

Lemma run_lit l s k : run (Lit l) (l ++ s) k = k s.
Proof. cbn [run]. now rewrite isPrefix_append, drop_append. Qed.

Lemma repGreedy_all ok s r : repGreedy ok 0 s (fun _ => Some r) = Some r.
Proof.
  induction s as [|ch s IH]; [reflexivity|]. cbn [repGreedy Nat.pred Nat.eqb].
  rewrite IH. now destruct (ok ch).
Qed.

(** A run of [[^/]] in front of a slash: when what follows the quantifier
    begins with the slash of the pattern, the run is the whole segment. *)
Lemma repGreedy_segment w tail min k :
  hasChar "/" w = false ->
  (forall s', Js.isPrefix "/" s' = false -> k s' = None) ->
  repGreedy (inClass NotSlash) min (w ++ String "/" tail) k =
  if (min <=? String.length w)%nat then k (String "/" tail) else None.
Proof.
  intros Hw Hk. revert min. induction w as [|c w IH]; intros min.
  - cbn [append repGreedy inClass String.length].
    change (Ascii.eqb "/" "/") with true. cbn [negb].
    destruct min; reflexivity.
  - cbn [hasChar] in Hw. apply orb_false_iff in Hw. destruct Hw as [Hc Hw].
    cbn [append repGreedy inClass String.length]. rewrite Hc. cbn [negb].
    rewrite (IH Hw).
    assert (Hstop : k (String c (w ++ String "/" tail)) = None).
    { apply Hk. cbn [Js.isPrefix].
      destruct (Ascii.eqb "/" c) eqn:E; [|reflexivity].
      apply Ascii.eqb_eq in E. subst c. discriminate Hc. }
    rewrite Hstop. destruct min as [|min]; cbn [Nat.pred Nat.eqb Nat.leb].
    + now destruct (k (String "/" tail)).
    + destruct (min <=? String.length w)%nat; [|reflexivity].
      now destruct (k (String "/" tail)).
Qed.

Lemma run_segment i w tail k :
  hasChar "/" w = false -> w <> EmptyString ->
  (forall s', Js.isPrefix "/" s' = false -> k s' = None) ->
  run (segment i) (w ++ String "/" tail) k =
  match k (String "/" tail) with
  | Some caps => Some ((i, w) :: caps)
  | None => None
  end.
Proof.
  intros Hw Hne Hk. unfold segment. cbn [run].
  rewrite repGreedy_segment; [|exact Hw|].
  - assert (H1 : (1 <=? String.length w)%nat = true)
      by (destruct w; [congruence | reflexivity]).
    rewrite H1.
    replace (String.length (w ++ String "/" tail) - String.length (String "/" tail))%nat
      with (String.length w) by (rewrite length_append; lia).
    now rewrite take_append.
  - intros s' Hs'. now rewrite (Hk s' Hs').
Qed.

(** Two segments and what follows them. *)
Lemma run_two_segments tailRe u r T k :
  hasChar "/" u = false -> u <> EmptyString ->
  hasChar "/" r = false -> r <> EmptyString ->
  run (seqs [segment 1; Lit "/"; segment 2; Lit "/"; tailRe])
    (u ++ "/" ++ r ++ "/" ++ T) k =
  match run tailRe T k with
  | Some caps => Some ((1%nat, u) :: (2%nat, r) :: caps)
  | None => None
  end.
Proof.
  intros Hu Hune Hr Hrne.
  assert (Hslash : forall rest k' s',
            Js.isPrefix "/" s' = false -> run (Seq (Lit "/") rest) s' k' = None).
  { intros rest k' s' H. cbn [run]. now rewrite H. }
  cbn [seqs]. cbn [run]. fold (run (segment 1)).
  change (u ++ "/" ++ r ++ "/" ++ T) with (u ++ String "/" (r ++ String "/" T)).
  rewrite (run_segment 1 u (r ++ String "/" T)); [|assumption|assumption|].
  - cbn [Js.isPrefix Js.drop String.length]. change (Ascii.eqb "/" "/") with true.
    cbn [andb]. rewrite (run_segment 2 r T); [|assumption|assumption|].
    + cbn [Js.isPrefix Js.drop String.length]. change (Ascii.eqb "/" "/") with true.
      cbn [andb]. now destruct (run tailRe T k).
    + intros s' H. destruct s' as [|d s']; [reflexivity|].
      cbn [Js.isPrefix] in H. now rewrite H.
  - intros s' H. now rewrite H.
Qed.

(** The optional scheme in front of [https://x]: the scheme is taken, and
    given back when what follows does not match behind it. *)
Lemma run_scheme_https x k :
  run scheme ("https://" ++ x) k =
  match k x with
  | Some r => Some r
  | None => k ("https://" ++ x)
  end.
Proof.
  unfold scheme. cbn [seqs]. cbn [run].
  cbn [Js.isPrefix Js.drop String.length append Ascii.eqb Bool.eqb andb Nat.eqb].
  assert (E1 : (String.length x =? S (String.length x))%nat = false)
    by (apply Nat.eqb_neq; lia).
  assert (E8 : (String.length x =?
                S (S (S (S (S (S (S (S (String.length x)))))))))%nat = false)
    by (apply Nat.eqb_neq; lia).
  rewrite E1, E8. now destruct (k x).
Qed.

(** The ten patterns on [https:///x]: none matches. *)
Lemma triple_slash_matches_nothing x : checkGitHubURL ("https:///" ++ x) = None.
Proof.
  unfold checkGitHubURL, githubPatterns, firstMatch, matchGroups.
  cbn [seqs]. cbn [run]. fold scheme.
  rewrite !(run_scheme_https (String "/" x)).
  reflexivity.
Qed.

(** X24. A request line that carries a URL with the scheme [http://] is
    refused with 403, whatever follows: the handler turns [http://x] into
    [https:///x], which no pattern accepts, and nothing is fetched. *)
Theorem http_scheme_urls_are_refused fetch cfg whiteList blackList req x :
  normalizeRawPath ("/http://" ++ x) = "https:///" ++ x /\
  githubProxyHandler fetch cfg whiteList blackList req ("/http://" ++ x) =
    InvalidInput.
Proof.
  assert (E : normalizeRawPath ("/http://" ++ x) = "https:///" ++ x) by reflexivity.
  split; [exact E|]. unfold githubProxyHandler.
  now rewrite E, triple_slash_matches_nothing.
Qed.

Lemma github_core t0 tl groups u r T :
  hasChar "/" u = false -> u <> EmptyString ->
  hasChar "/" r = false -> r <> EmptyString ->
  matchGroups groups
    (seqs (scheme :: Lit "github.com/" :: segment 1 :: Lit "/" :: segment 2 ::
           Lit "/" :: t0 :: tl))
    ("https://github.com/" ++ u ++ "/" ++ r ++ "/" ++ T) =
  match run (seqs (t0 :: tl)) T noCaptures with
  | Some caps =>
      Some (List.map (lookupGroup ((1%nat, u) :: (2%nat, r) :: caps))
              (List.seq 1 groups))
  | None => None
  end.
Proof.
  intros Hu Hune Hr Hrne. unfold matchGroups.
  change (seqs (scheme :: Lit "github.com/" :: segment 1 :: Lit "/" :: segment 2 ::
                Lit "/" :: t0 :: tl))
    with (Seq scheme (Seq (Lit "github.com/")
            (seqs [segment 1; Lit "/"; segment 2; Lit "/"; seqs (t0 :: tl)]))).
  change ("https://github.com/" ++ u ++ "/" ++ r ++ "/" ++ T)
    with ("https://" ++ ("github.com/" ++ (u ++ "/" ++ r ++ "/" ++ T))).
  cbn [run]. fold (run (Lit "github.com/")).
  rewrite run_scheme_https.
  change (if Js.isPrefix "github.com/" ("github.com/" ++ u ++ "/" ++ r ++ "/" ++ T)
          then ?a else ?b) with a.
  change (Js.drop (String.length "github.com/") ("github.com/" ++ u ++ "/" ++ r ++ "/" ++ T))
    with (u ++ "/" ++ r ++ "/" ++ T).
  rewrite (run_two_segments (seqs (t0 :: tl)) u r T _ Hu Hune Hr Hrne).
  fold noCaptures.
  destruct (run (seqs (t0 :: tl)) T noCaptures); reflexivity.
Qed.

Lemma run_any_tail s : run (Rep AnyChar 0 true) s noCaptures = Some [].
Proof. cbn [run]. unfold noCaptures. apply repGreedy_all. Qed.

Lemma section_tails kind rest :
  In kind githubSections ->
  (run (seqs [Alt (Lit "releases") (Lit "archive"); Lit "/"; Rep AnyChar 0 true])
     (kind ++ rest) noCaptures = Some [] \/
   (run (seqs [Alt (Lit "releases") (Lit "archive"); Lit "/"; Rep AnyChar 0 true])
      (kind ++ rest) noCaptures = None /\
    run (seqs [Alt (Lit "info") (Lit "git-"); Rep AnyChar 0 true])
      (kind ++ rest) noCaptures = Some [])) /\
  run (seqs [Alt (Lit "blob") (Lit "raw"); Lit "/"; Rep AnyChar 0 true])
    (kind ++ rest) noCaptures = None.
Proof.
  intros Hin. cbn [githubSections In] in Hin.
  destruct Hin as [<-|[<-|[<-|[<-|[]]]]]; (split; [|reflexivity]).
  - left. cbn [seqs]. cbn [run].
    change (Js.isPrefix "releases" ("releases/" ++ rest)) with true. cbv iota.
    change (Js.drop (String.length "releases") ("releases/" ++ rest)) with ("/" ++ rest).
    change (Js.isPrefix "/" ("/" ++ rest)) with true. cbv iota.
    change (Js.drop (String.length "/") ("/" ++ rest)) with rest.
    unfold noCaptures. now rewrite !repGreedy_all.
  - left. cbn [seqs]. cbn [run].
    change (Js.isPrefix "releases" ("archive/" ++ rest)) with false. cbv iota.
    change (Js.isPrefix "archive" ("archive/" ++ rest)) with true. cbv iota.
    change (Js.drop (String.length "archive") ("archive/" ++ rest)) with ("/" ++ rest).
    change (Js.isPrefix "/" ("/" ++ rest)) with true. cbv iota.
    change (Js.drop (String.length "/") ("/" ++ rest)) with rest.
    unfold noCaptures. now rewrite !repGreedy_all.
  - right. split; [reflexivity|]. cbn [seqs]. cbn [run].
    change (Js.isPrefix "info" ("info" ++ rest)) with true. cbv iota.
    change (Js.drop (String.length "info") ("info" ++ rest)) with rest.
    unfold noCaptures. now rewrite !repGreedy_all.
  - right. split; [reflexivity|]. cbn [seqs]. cbn [run].
    change (Js.isPrefix "info" ("git-" ++ rest)) with false. cbv iota.
    change (Js.isPrefix "git-" ("git-" ++ rest)) with true. cbv iota.
    change (Js.drop (String.length "git-") ("git-" ++ rest)) with rest.
    unfold noCaptures. now rewrite !repGreedy_all.
Qed.

(** X25. A URL [https://github.com/<user>/<repo>/<section>...] with a
    section [releases/], [archive/], [info] or [git-] is taken with the
    groups [user] and [repo]; the access lists are asked about this pair,
    a refusal is answered without any fetch, and otherwise the walk starts
    at this very URL. *)
Theorem github_repo_url_is_checked_then_fetched fetch cfg whiteList blackList req
    originalUrl u r kind rest :
  hasChar "/" u = false -> u <> EmptyString ->
  hasChar "/" r = false -> r <> EmptyString ->
  In kind githubSections ->
  normalizeRawPath originalUrl =
    "https://github.com/" ++ u ++ "/" ++ r ++ "/" ++ kind ++ rest ->
  checkGitHubURL (normalizeRawPath originalUrl) = Some [Some u; Some r] /\
  githubProxyHandler fetch cfg whiteList blackList req originalUrl =
    match AccessControl.checkGitHubAccess whiteList blackList u r with
    | AccessControl.Allowed =>
        Walked (proxyGitHubRequest fetch cfg req (normalizeRawPath originalUrl) 0)
    | why => AccessDenied why
    end.
Proof.
  intros Hu Hune Hr Hrne Hkind Hurl.
  destruct (section_tails kind rest Hkind) as [Hfirst Hblob].
  assert (Hcheck : checkGitHubURL (normalizeRawPath originalUrl) = Some [Some u; Some r]).
  { rewrite Hurl. unfold checkGitHubURL, githubPatterns. cbn [firstMatch].
    rewrite !(github_core _ _ _ u r (kind ++ rest) Hu Hune Hr Hrne), Hblob.
    destruct Hfirst as [H1|[H1 H3]]; rewrite H1; [reflexivity|].
    now rewrite H3. }
  assert (Hraw : isBlobOrRaw (normalizeRawPath originalUrl) = false).
  { rewrite Hurl. unfold isBlobOrRaw, githubPatterns. cbn [List.nth_error].
    now rewrite (github_core _ _ _ u r (kind ++ rest) Hu Hune Hr Hrne), Hblob. }
  split; [exact Hcheck|]. unfold githubProxyHandler.
  rewrite Hcheck, Hraw. cbn [List.length Nat.leb List.nth].
  now destruct (AccessControl.checkGitHubAccess whiteList blackList u r).
Qed.

Lemma github_repo_url_is_checked_then_fetched_witness :
  let fetch := fun (_ : nat) (_ : string) => @None Http.response in
  let req := Http.mkRequest "GET" "/" None (Some "proxy.example") None None [] in
  let originalUrl := "/https://github.com/u/r.git/info/refs?service=git-upload-pack" in
  checkGitHubURL (normalizeRawPath originalUrl) = Some [Some "u"; Some "r.git"] /\
  githubProxyHandler fetch (mkConfig 1000) ["u/*"] [] req originalUrl =
    match AccessControl.checkGitHubAccess ["u/*"] [] "u" "r.git" with
    | AccessControl.Allowed =>
        Walked (proxyGitHubRequest fetch (mkConfig 1000) req
                  (normalizeRawPath originalUrl) 0)
    | why => AccessDenied why
    end.
Proof.
  intros fetch req originalUrl.
  apply (github_repo_url_is_checked_then_fetched fetch (mkConfig 1000) ["u/*"] []
           req originalUrl "u" "r.git" "info" "/refs?service=git-upload-pack");
    try reflexivity; try discriminate.
  cbn. tauto.
Defined.

Lemma replaceFirst_skip pat by_ w t :
  hasChar "/" w = false ->
  replaceFirst (String "/" pat) by_ (w ++ t) = w ++ replaceFirst (String "/" pat) by_ t.
Proof.
  intros Hw. induction w as [|c w IH]; [reflexivity|].
  cbn [hasChar] in Hw. apply orb_false_iff in Hw. destruct Hw as [Hc Hw].
  cbn [append replaceFirst Js.isPrefix].
  destruct (Ascii.eqb "/" c) eqn:E.
  - apply Ascii.eqb_eq in E. subst c. discriminate Hc.
  - cbn [andb]. now rewrite (IH Hw).
Qed.

Lemma isPrefix_segment p w t :
  hasChar "/" w = false -> hasChar "/" p = false ->
  Js.isPrefix (p ++ "/") (w ++ String "/" t) = String.eqb p w.
Proof.
  intros Hw. revert w Hw. induction p as [|c p IH]; intros w Hw Hp.
  - destruct w as [|d w]; [reflexivity|].
    cbn [hasChar] in Hw. apply orb_false_iff in Hw. destruct Hw as [Hd _].
    cbn [append Js.isPrefix String.eqb].
    destruct (Ascii.eqb "/" d) eqn:E; [|reflexivity].
    apply Ascii.eqb_eq in E. subst d. discriminate Hd.
  - cbn [hasChar] in Hp. apply orb_false_iff in Hp. destruct Hp as [Hc Hp].
    destruct w as [|d w].
    + cbn [append Js.isPrefix String.eqb]. now rewrite Hc.
    + cbn [hasChar] in Hw. apply orb_false_iff in Hw. destruct Hw as [_ Hw].
      cbn [append Js.isPrefix String.eqb]. rewrite (IH w Hw Hp).
      reflexivity.
Qed.

(** X26. A [blob] URL is fetched as a [raw] URL: the handler replaces the
    first [/blob/] of the URL.  For a repository whose name is not [blob]
    this is the section behind the repository; for a repository named
    [blob] it is the repository name that is replaced. *)
Theorem blob_url_is_fetched_as_raw fetch cfg whiteList blackList req
    originalUrl u r rest :
  hasChar "/" u = false -> u <> EmptyString -> u <> "blob" ->
  hasChar "/" r = false -> r <> EmptyString ->
  AccessControl.checkGitHubAccess whiteList blackList u r = AccessControl.Allowed ->
  normalizeRawPath originalUrl =
    "https://github.com/" ++ u ++ "/" ++ r ++ "/" ++ "blob/" ++ rest ->
  githubProxyHandler fetch cfg whiteList blackList req originalUrl =
    Walked (proxyGitHubRequest fetch cfg req
              (if String.eqb r "blob"
               then "https://github.com/" ++ u ++ "/raw/" ++ "blob/" ++ rest
               else "https://github.com/" ++ u ++ "/" ++ r ++ "/raw/" ++ rest) 0).
Proof.
  intros Hu Hune Hub Hr Hrne Hallow Hurl.
  assert (Htail : run (seqs [Alt (Lit "blob") (Lit "raw"); Lit "/"; Rep AnyChar 0 true])
                    ("blob/" ++ rest) noCaptures = Some []).
  { cbn [seqs]. cbn [run].
    change (Js.isPrefix "blob" ("blob/" ++ rest)) with true. cbv iota.
    change (Js.drop (String.length "blob") ("blob/" ++ rest)) with ("/" ++ rest).
    change (Js.isPrefix "/" ("/" ++ rest)) with true. cbv iota.
    change (Js.drop (String.length "/") ("/" ++ rest)) with rest.
    unfold noCaptures. now rewrite !repGreedy_all. }
  assert (Hcheck : checkGitHubURL (normalizeRawPath originalUrl) = Some [Some u; Some r]).
  { rewrite Hurl. unfold checkGitHubURL, githubPatterns. cbn [firstMatch].
    rewrite !(github_core _ _ _ u r ("blob/" ++ rest) Hu Hune Hr Hrne), Htail.
    reflexivity. }
  assert (Hraw : isBlobOrRaw (normalizeRawPath originalUrl) = true).
  { rewrite Hurl. unfold isBlobOrRaw, githubPatterns. cbn [List.nth_error].
    now rewrite (github_core _ _ _ u r ("blob/" ++ rest) Hu Hune Hr Hrne), Htail. }
  unfold githubProxyHandler. rewrite Hcheck, Hraw.
  cbn [List.length Nat.leb List.nth].
  rewrite Hallow, Hurl. do 2 f_equal.
  change ("https://github.com/" ++ u ++ "/" ++ r ++ "/" ++ "blob/" ++ rest)
    with ("https://github.com" ++ String "/" (u ++ String "/" (r ++ String "/" ("blob/" ++ rest)))).
  assert (Hhead : forall t,
            replaceFirst "/blob/" "/raw/" ("https://github.com" ++ t) =
            "https://github.com" ++ replaceFirst "/blob/" "/raw/" t) by reflexivity.
  rewrite Hhead.
  assert (Hat : forall w t,
            hasChar "/" w = false ->
            replaceFirst "/blob/" "/raw/" (String "/" (w ++ String "/" t)) =
            if String.eqb "blob" w then "/raw/" ++ t
            else String "/" (w ++ replaceFirst "/blob/" "/raw/" (String "/" t))).
  { intros w t Hw.
    change (replaceFirst "/blob/" "/raw/" (String "/" (w ++ String "/" t)))
      with (if Js.isPrefix ("blob" ++ "/") (w ++ String "/" t)
            then "/raw/" ++ Js.drop 5 (w ++ String "/" t)
            else String "/" (replaceFirst "/blob/" "/raw/" (w ++ String "/" t))).
    rewrite (isPrefix_segment "blob" w t Hw eq_refl).
    destruct (String.eqb "blob" w) eqn:E.
    - apply String.eqb_eq in E. subst w. reflexivity.
    - now rewrite replaceFirst_skip. }
  rewrite (Hat u _ Hu).
  assert (Eu : String.eqb "blob" u = false)
    by (apply String.eqb_neq; congruence).
  rewrite Eu, (Hat r _ Hr), String.eqb_sym.
  destruct (String.eqb r "blob") eqn:Er.
  - apply String.eqb_eq in Er. subst r. reflexivity.
  - change (replaceFirst "/blob/" "/raw/" (String "/" ("blob/" ++ rest)))
      with ("/raw/" ++ rest).
    change ("https://github.com" ++ String "/" (u ++ String "/" (r ++ "/raw/" ++ rest)))
      with ("https://github.com/" ++ u ++ "/" ++ r ++ "/raw/" ++ rest).
    reflexivity.
Qed.

Lemma blob_url_is_fetched_as_raw_witness :
  let fetch := fun (_ : nat) (_ : string) => @None Http.response in
  let req := Http.mkRequest "GET" "/" None (Some "proxy.example") None None [] in
  githubProxyHandler fetch (mkConfig 1000) ["u/*"] [] req
    "/github.com/u/blob/blob/main/f" =
  Walked (proxyGitHubRequest fetch (mkConfig 1000) req
            "https://github.com/u/raw/blob/main/f" 0).
Proof.
  intros fetch req.
  apply (blob_url_is_fetched_as_raw fetch (mkConfig 1000) ["u/*"] [] req
           "/github.com/u/blob/blob/main/f" "u" "blob" "main/f");
    try reflexivity; discriminate.
Defined.

End GitHubHandler.

(** ** The groups of an accepted URL *)

Section GroupsOfAMatch.
Import GitHub.

Lemma repGreedy_result ok s : forall min k caps,
  repGreedy ok min s k = Some caps -> exists s', k s' = Some caps.
Proof.
  induction s as [|ch s IH]; intros min k caps; cbn [repGreedy].
  - destruct (min =? 0)%nat; [|discriminate]. intros H. exists EmptyString. exact H.
  - destruct (ok ch).
    + destruct (repGreedy ok (Nat.pred min) s k) as [r|] eqn:E.
      * intros H. injection H as <-. exact (IH _ _ _ E).
      * destruct (min =? 0)%nat; [|discriminate]. intros H.
        exists (String ch s). exact H.
    + destruct (min =? 0)%nat; [|discriminate]. intros H.
      exists (String ch s). exact H.
Qed.

Lemma repLazy_result ok s : forall min k caps,
  repLazy ok min s k = Some caps -> exists s', k s' = Some caps.
Proof.
  induction s as [|ch s IH]; intros min k caps; cbn [repLazy].
  - destruct (min =? 0)%nat; [|discriminate].
    destruct (k EmptyString) eqn:E; [|discriminate].
    intros H. injection H as <-. exists EmptyString. exact E.
  - destruct (min =? 0)%nat.
    + destruct (k (String ch s)) as [r|] eqn:E.
      * intros H. injection H as <-. exists (String ch s). exact E.
      * destruct (ok ch); [|discriminate]. apply IH.
    + destruct (ok ch); [|discriminate]. apply IH.
Qed.

Lemma lookupGroup_app caps0 caps' i :
  lookupGroup caps0 i <> None -> lookupGroup (caps0 ++ caps')%list i <> None.
Proof.
  induction caps0 as [|[j t] caps0 IH]; [easy|]. cbn [List.app lookupGroup].
  destruct (i =? j)%nat; [discriminate | exact IH].
Qed.

(** A match of [r] hands over to its continuation, and the groups of
    [mandatory r] are among those it adds. *)
Lemma run_result r : forall s k caps,
  run r s k = Some caps ->
  exists s' caps0 caps',
    k s' = Some caps' /\ caps = (caps0 ++ caps')%list /\
    forall i, In i (mandatory r) -> lookupGroup caps0 i <> None.
Proof.
  induction r as [l|c min greedy|a IHa b IHb|a IHa b IHb|a IHa|j a IHa];
    intros s k caps; cbn [run mandatory].
  - destruct (Js.isPrefix l s); [|discriminate]. intros H.
    exists (Js.drop (String.length l) s), [], caps. now repeat split.
  - destruct greedy; intros H;
      [apply repGreedy_result in H | apply repLazy_result in H];
      destruct H as [s' H]; exists s', [], caps; now repeat split.
  - intros H. apply IHa in H. destruct H as (s1 & c1 & c1' & H1 & -> & M1).
    apply IHb in H1. destruct H1 as (s2 & c2 & c2' & H2 & -> & M2).
    exists s2, (c1 ++ c2)%list, c2'. split; [exact H2|].
    split; [now rewrite List.app_assoc|].
    intros i Hi. apply List.in_app_or in Hi. destruct Hi as [Hi|Hi].
    + apply lookupGroup_app. now apply M1.
    + specialize (M2 i Hi). clear - M2.
      induction c1 as [|[j t] c1 IH]; [exact M2|]. cbn [List.app lookupGroup].
      destruct (i =? j)%nat; [discriminate | exact IH].
  - destruct (run a s k) as [r|] eqn:E.
    + intros H. injection H as <-. apply IHa in E.
      destruct E as (s' & c0 & c' & Hk & -> & _).
      exists s', c0, c'. now repeat split.
    + intros H. apply IHb in H. destruct H as (s' & c0 & c' & Hk & -> & _).
      exists s', c0, c'. now repeat split.
  - destruct (run a s _) as [r|] eqn:E.
    + intros H. injection H as <-. apply IHa in E.
      destruct E as (s' & c0 & c' & Hk & -> & _).
      destruct (String.length s' =? String.length s)%nat; [discriminate|].
      exists s', c0, c'. now repeat split.
    + intros H. exists s, [], caps. now repeat split.
  - intros H. apply IHa in H. destruct H as (s' & c0 & c' & Hk & -> & M).
    destruct (k s') as [caps'|] eqn:E; [|discriminate]. injection Hk as <-.
    exists s', (c0 ++ [(j, Js.take (String.length s - String.length s') s)])%list, caps'.
    split; [exact E|]. split; [now rewrite <- List.app_assoc|].
    intros i [<-|Hi].
    + clear. induction c0 as [|[j' t] c0 IH].
      * cbn [List.app lookupGroup]. now rewrite Nat.eqb_refl.
      * cbn [List.app lookupGroup]. destruct (j =? j')%nat; [discriminate | exact IH].
    + apply lookupGroup_app. now apply M.
Qed.

Lemma matchGroups_two p url matches :
  twoGroupsAlways p = true ->
  matchGroups (fst p) (snd p) url = Some matches ->
  exists u r rest, matches = Some u :: Some r :: rest.
Proof.
  unfold twoGroupsAlways, matchGroups. intros Hp.
  apply andb_true_iff in Hp. destruct Hp as [Hp H2].
  apply andb_true_iff in Hp. destruct Hp as [Hn H1].
  apply Nat.leb_le in Hn.
  assert (Hin : forall i, List.existsb (Nat.eqb i) (mandatory (snd p)) = true ->
                          In i (mandatory (snd p))).
  { intros i H. apply List.existsb_exists in H. destruct H as (x & Hx & E).
    apply Nat.eqb_eq in E. now subst x. }
  destruct (run (snd p) url (fun _ => Some [])) as [caps|] eqn:E; [|discriminate].
  apply run_result in E. destruct E as (s' & c0 & c' & _ & -> & M).
  intros H. injection H as <-.
  destruct (fst p) as [|[|n]]; try lia.
  cbn [List.seq List.map].
  pose proof (lookupGroup_app c0 c' 1 (M 1%nat (Hin 1%nat H1))) as L1.
  pose proof (lookupGroup_app c0 c' 2 (M 2%nat (Hin 2%nat H2))) as L2.
  destruct (lookupGroup (c0 ++ c')%list 1) as [u|]; [|congruence].
  destruct (lookupGroup (c0 ++ c')%list 2) as [r|]; [|congruence].
  now eexists _, _, _.
Qed.

Lemma patterns_have_two_groups : List.forallb twoGroupsAlways githubPatterns = true.
Proof. reflexivity. Qed.

Lemma firstMatch_two patterns url matches :
  List.forallb twoGroupsAlways patterns = true ->
  firstMatch patterns url = Some matches ->
  exists u r rest, matches = Some u :: Some r :: rest.
Proof.
  induction patterns as [|[groups re] ps IH]; [discriminate|].
  cbn [List.forallb firstMatch]. intros H. apply andb_true_iff in H.
  destruct H as [Hp Hps].
  destruct (matchGroups groups re url) as [m|] eqn:E.
  - intros H. injection H as <-. now apply (matchGroups_two (groups, re) url m Hp).
  - now apply IH.
Qed.

(** X27. Every URL that [checkGitHubURL] accepts comes with its first two
    groups, both of them texts of the URL: the access check always has a
    user and a repository name to work on, and the handler never throws. *)
Theorem accepted_url_has_user_and_repo fetch cfg whiteList blackList req
    originalUrl url :
  (forall matches, checkGitHubURL url = Some matches ->
     exists u r rest, matches = Some u :: Some r :: rest) /\
  githubProxyHandler fetch cfg whiteList blackList req originalUrl <> Thrown.
Proof.
  assert (G : forall url matches, checkGitHubURL url = Some matches ->
                exists u r rest, matches = Some u :: Some r :: rest).
  { intros url' matches. apply firstMatch_two, patterns_have_two_groups. }
  split; [apply G|]. unfold githubProxyHandler.
  destruct (checkGitHubURL (normalizeRawPath originalUrl)) as [matches|] eqn:E;
    [|discriminate].
  destruct (G _ _ E) as (u & r & rest & ->).
  cbn [List.length Nat.leb List.nth].
  destruct (AccessControl.checkGitHubAccess whiteList blackList u r); discriminate.
Qed.

End GroupsOfAMatch.

(** ** The token URL and the keys of the token cache *)

Section TokenUrl.
Import Docker.

Lemma everyChar_app P s t :
  everyChar P (s ++ t) = everyChar P s && everyChar P t.
Proof.
  induction s as [|c s IH]; [reflexivity|]. cbn [append everyChar].
  now rewrite IH, andb_assoc.
Qed.

Lemma everyChar_lacks P s c :
  everyChar P s = true -> P c = false -> hasChar c s = false.
Proof.
  intros Hs Hc. induction s as [|d s IH]; [reflexivity|].
  cbn [everyChar] in Hs. apply andb_true_iff in Hs. destruct Hs as [Hd Hs].
  cbn [hasChar]. rewrite (IH Hs), orb_false_r.
  destruct (Ascii.eqb d c) eqn:E; [|reflexivity].
  apply Ascii.eqb_eq in E. subst d. congruence.
Qed.

Lemma encode_table : allBelow 8 0 encode_check = true.
Proof. vm_cast_no_check (@eq_refl bool true). Qed.

Lemma encode_one c :
  everyChar uriSafe (encodeURIComponent (String c EmptyString)) = true.
Proof.
  pose proof (allBelow_spec 8 0 encode_check encode_table
                (Z.of_N (N_of_ascii c))) as H.
  assert (R : 0 <= Z.of_N (N_of_ascii c) < 0 + 2 ^ Z.of_nat 8).
  { pose proof (N_ascii_bounded c). change (0 + 2 ^ Z.of_nat 8) with 256. lia. }
  specialize (H R). unfold encode_check in H.
  now rewrite N2Z.id, ascii_N_embedding in H.
Qed.

Lemma encode_cons c s :
  encodeURIComponent (String c s) =
  encodeURIComponent (String c EmptyString) ++ encodeURIComponent s.
Proof. cbn [encodeURIComponent]. now rewrite append_nil_r. Qed.

Lemma encode_safe s : everyChar uriSafe (encodeURIComponent s) = true.
Proof.
  induction s as [|c s IH]; [reflexivity|].
  now rewrite encode_cons, everyChar_app, encode_one, IH.
Qed.

(** X28. The scope is written into the URL of the token service in a form
    made of letters, digits, [-_.!~*'()] and percent escapes only: no
    character of an image name can end the parameter or start another one,
    so the query string has the parameters that the code writes and no
    other. *)
Theorem encoded_scope_cannot_inject_parameters cfg scope registryDomain url :
  authURL cfg scope registryDomain = Some url ->
  everyChar uriSafe (encodeURIComponent scope) = true /\
  (forall c, uriSafe c = false -> hasChar c (encodeURIComponent scope) = false) /\
  exists base, url = base ++ "scope=" ++ encodeURIComponent scope /\
               (registryDomain = None ->
                base = "https://auth.docker.io/token?service=registry.docker.io&").
Proof.
  intros Hurl. split; [apply encode_safe|]. split.
  - intros c Hc. exact (everyChar_lacks _ _ c (encode_safe scope) Hc).
  - unfold authURL in Hurl.
    destruct (match Js.truthy registryDomain with
              | Some d => getRegistryMapping cfg d
              | None => None
              end) as [m|] eqn:Hm.
    + assert (Hrd : registryDomain <> None)
        by (intros ->; discriminate Hm).
      destruct (String.eqb (authType m) "github");
        [injection Hurl as <-; exists "https://ghcr.io/token?"; now split|].
      destruct (String.eqb (authType m) "google");
        [injection Hurl as <-; exists "https://gcr.io/v2/token?"; now split|].
      destruct (String.eqb (authType m) "quay");
        [injection Hurl as <-; exists "https://quay.io/v2/auth?"; now split|].
      destruct (String.eqb (authType m) "anonymous"); [discriminate|].
      injection Hurl as <-. exists ("https://" ++ authHost m ++ "?").
      split; [|intros E; contradiction]. now rewrite !append_assoc.
    + injection Hurl as <-.
      exists "https://auth.docker.io/token?service=registry.docker.io&".
      now split.
Qed.

Lemma encoded_scope_cannot_inject_parameters_witness :
  let scope := "repository:library/a&service=evil:pull" in
  everyChar uriSafe (encodeURIComponent scope) = true /\
  (forall c, uriSafe c = false -> hasChar c (encodeURIComponent scope) = false) /\
  exists base,
    "https://auth.docker.io/token?service=registry.docker.io&scope=repository%3Alibrary%2Fa%26service%3Devil%3Apull" =
      base ++ "scope=" ++ encodeURIComponent scope /\
    (@None string = None ->
     base = "https://auth.docker.io/token?service=registry.docker.io&").
Proof.
  intros scope.
  apply (encoded_scope_cannot_inject_parameters defaultConfig scope None).
  reflexivity.
Defined.

Lemma first_separator sep a b x y :
  hasChar sep a = false -> hasChar sep b = false ->
  a ++ String sep x = b ++ String sep y -> a = b /\ x = y.
Proof.
  revert b. induction a as [|c a IH]; intros b Ha Hb H.
  - destruct b as [|d b].
    + cbn [append] in H. injection H as ->. now split.
    + cbn [append] in H. injection H as <- _. cbn [hasChar] in Hb.
      now rewrite Ascii.eqb_refl in Hb.
  - cbn [hasChar] in Ha. apply orb_false_iff in Ha. destruct Ha as [Hc Ha].
    destruct b as [|d b].
    + cbn [append] in H. injection H as -> _. now rewrite Ascii.eqb_refl in Hc.
    + cbn [hasChar] in Hb. apply orb_false_iff in Hb. destruct Hb as [_ Hb].
      cbn [append] in H. injection H as -> H.
      destruct (IH b Ha Hb H) as [-> ->]. now split.
Qed.

(** X29. The keys of the token cache do not collide: when the registry
    names carry no colon, two keys are equal only for the same registry
    name and the same scope, so a cached token is never returned for
    another registry or another repository.  (Docker Hub takes part under
    the name [docker].) *)
Theorem token_cache_keys_do_not_collide scope1 rd1 scope2 rd2 :
  hasChar ":" (keyRegistry rd1) = false ->
  hasChar ":" (keyRegistry rd2) = false ->
  cacheKey scope1 rd1 = cacheKey scope2 rd2 ->
  keyRegistry rd1 = keyRegistry rd2 /\ scope1 = scope2.
Proof.
  intros H1 H2 H. unfold cacheKey in H. fold (keyRegistry rd1) in H.
  fold (keyRegistry rd2) in H.
  change ("token:" ++ keyRegistry rd1 ++ ":" ++ scope1)
    with ("token:" ++ (keyRegistry rd1 ++ String ":" scope1)) in H.
  change ("token:" ++ keyRegistry rd2 ++ ":" ++ scope2)
    with ("token:" ++ (keyRegistry rd2 ++ String ":" scope2)) in H.
  cbn [append] in H. injection H as H.
  exact (first_separator ":" _ _ _ _ H1 H2 H).
Qed.

Lemma token_cache_keys_do_not_collide_witness :
  keyRegistry None = keyRegistry (Some "docker") /\
  "repository:library/nginx:pull" = "repository:library/nginx:pull".
Proof.
  apply (token_cache_keys_do_not_collide "repository:library/nginx:pull" None
           "repository:library/nginx:pull" (Some "docker")); reflexivity.
Defined.

End TokenUrl.

(** ** The 400 of the Registry proxy *)

Section InvalidPath.
Import Docker.
Variable fetchToken : string -> option string.
Variable fetch : string -> string -> Http.headers -> option Http.response.

Lemma lazyMatch_empty sep tailOk : lazyMatch sep tailOk false EmptyString = None.
Proof. reflexivity. Qed.

Lemma parse_name_empty cfg path :
  let '(domain, remaining) := detectRegistryDomain cfg (stripV2 path) in
  imageName (parseRegistryPath cfg path) = EmptyString <->
  match Js.truthy domain with
  | Some _ => remaining
  | None => stripV2 path
  end = EmptyString.
Proof.
  unfold parseRegistryPath.
  destruct (detectRegistryDomain cfg (stripV2 path)) as [domain remaining].
  set (cleanPath := match Js.truthy domain with
                    | Some _ => remaining
                    | None => stripV2 path
                    end).
  destruct (lazyMatch "/manifests/" restOfLine false cleanPath) as [[n r]|] eqn:M1.
  { destruct (lazyMatch_sound _ _ _ _ _ _ M1) as (E & _ & Hn).
    cbn [imageName]. split; intros H.
    - now destruct (Hn eq_refl).
    - rewrite H in E. destruct n; [reflexivity | discriminate E]. }
  destruct (lazyMatch "/blobs/" restOfLine false cleanPath) as [[n r]|] eqn:M2.
  { destruct (lazyMatch_sound _ _ _ _ _ _ M2) as (E & _ & Hn).
    cbn [imageName]. split; intros H.
    - now destruct (Hn eq_refl).
    - rewrite H in E. destruct n; [reflexivity | discriminate E]. }
  destruct (lazyMatch "/tags/list" (fun t => String.eqb t EmptyString) false cleanPath)
    as [[n r]|] eqn:M3.
  { destruct (lazyMatch_sound _ _ _ _ _ _ M3) as (E & _ & Hn).
    cbn [imageName]. split; intros H.
    - now destruct (Hn eq_refl).
    - rewrite H in E. destruct n; [reflexivity | discriminate E]. }
  cbn [imageName]. tauto.
Qed.

(** X30. With registry keys free of the special characters of a pattern,
    the Registry proxy answers 400 exactly when nothing is left of the
    path once [/v2/] and the name of a configured registry are taken off;
    a path that begins with [/v2] and names no registry never gets 400. *)
Theorem invalid_path_means_no_repository cfg cache clk req :
  plainKeys cfg = true ->
  let path := Http.path req in
  let '(domain, remaining) := detectRegistryDomain cfg (stripV2 path) in
  (snd (fst (proxyDockerRegistry fetchToken fetch cfg cache clk req)) = InvalidPath <->
   path <> "/v2/" /\ path <> "/v2" /\
   match Js.truthy domain with
   | Some _ => remaining
   | None => stripV2 path
   end = EmptyString) /\
  (Js.startsWith path "/v2" = true -> Js.truthy domain = None ->
   snd (fst (proxyDockerRegistry fetchToken fetch cfg cache clk req)) <> InvalidPath).
Proof.
  intros _ path. pose proof (parse_name_empty cfg path) as Hname.
  destruct (detectRegistryDomain cfg (stripV2 path)) as [domain remaining].
  assert (Hiff :
    snd (fst (proxyDockerRegistry fetchToken fetch cfg cache clk req)) = InvalidPath <->
    path <> "/v2/" /\ path <> "/v2" /\
    match Js.truthy domain with
    | Some _ => remaining
    | None => stripV2 path
    end = EmptyString).
  { unfold proxyDockerRegistry. fold path.
    destruct (String.eqb path "/v2/") eqn:E1.
    { apply String.eqb_eq in E1. cbn [orb fst snd]. split; [discriminate|tauto]. }
    destruct (String.eqb path "/v2") eqn:E2.
    { apply String.eqb_eq in E2. cbn [orb fst snd]. split; [discriminate|tauto]. }
    apply String.eqb_neq in E1, E2. cbn [orb].
    destruct (String.eqb (imageName (parseRegistryPath cfg path)) EmptyString) eqn:E3.
    - apply String.eqb_eq in E3. cbn [fst snd]. split; [|reflexivity].
      intros _. repeat split; try assumption. now apply Hname.
    - apply String.eqb_neq in E3.
      assert (Hne : ~ (path <> "/v2/" /\ path <> "/v2" /\
                       match Js.truthy domain with
                       | Some _ => remaining
                       | None => stripV2 path
                       end = EmptyString))
        by (intros (_ & _ & H); apply E3; now apply Hname).
      destruct (AccessControl.checkDockerAccess _ _ _);
        try (cbn [fst snd]; split; [discriminate | intros H; now destruct (Hne H)]).
      destruct (getAuthToken fetchToken cfg cache clk _ _) as [[evs token] cache1].
      destruct (fetch _ _ _); cbn [fst snd];
        (split; [discriminate | intros H; now destruct (Hne H)]). }
  split; [exact Hiff|]. intros Hv2 Hdom Hinv.
  apply Hiff in Hinv. destruct Hinv as (N1 & N2 & Hempty). rewrite Hdom in Hempty.
  unfold stripV2 in Hempty. unfold Js.startsWith in *.
  destruct (Js.isPrefix "/v2/" path) eqn:P1.
  - apply isPrefix_split in P1. rewrite P1 in N1.
    change (String.length "/v2/") with 4%nat in N1. rewrite Hempty in N1.
    now apply N1.
  - rewrite Hv2 in Hempty. apply isPrefix_split in Hv2. rewrite Hv2 in N2.
    change (String.length "/v2") with 3%nat in N2. rewrite Hempty in N2.
    now apply N2.
Qed.

End InvalidPath.

Lemma invalid_path_means_no_repository_witness :
  let fetchToken := fun _ : string => @None string in
  let fetch := fun (_ _ : string) (_ : Http.headers) => @None Http.response in
  let req := Http.mkRequest "GET" "/v2/ghcr.io/" None None None None [] in
  snd (fst (Docker.proxyDockerRegistry fetchToken fetch Docker.defaultConfig
              (Cache.new 500 1200000) (Docker.mkClock 0 0 0) req)) =
    Docker.InvalidPath.
Proof.
  intros fetchToken fetch req.
  pose proof (invalid_path_means_no_repository fetchToken fetch Docker.defaultConfig
                (Cache.new 500 1200000) (Docker.mkClock 0 0 0) req eq_refl) as H.
  cbv zeta in H.
  change (Docker.detectRegistryDomain Docker.defaultConfig
            (Docker.stripV2 (Http.path req))) with (Some "ghcr.io", EmptyString) in H.
  cbv iota beta in H. destruct H as [H _]. apply H.
  repeat split; discriminate.
Defined.
